(** * video_OCR: the image preprocessing and recognition pipeline

    A shallow embedding of the backend of the video OCR tool:
    - [preprocess_image_fast] (preprocessor.py, quoted in the optimisation
      blueprint): decode, Otsu threshold, 3x3 sharpening filter;
    - [extract_text_fast], [extract_text_accurate], [extract_code] and
      [extract_text_with_confidence] (backend/ocr_engine.py).

    Python [str] values are lists of Unicode code points.  The calls into
    OpenCV and pytesseract are effects: they run in a small monad that
    threads the trace of library calls and propagates exceptions. *)

From Stdlib Require Import ZArith NArith QArith Qround Qabs List Bool Lia Lqa.
From Stdlib Require Import Qpower.
From Stdlib.Strings Require Import Ascii Byte.
From Stdlib.Strings Require String.
Import String.StringSyntax.
Delimit Scope string_scope with string.
Import ListNotations.
Local Open Scope Z_scope.

(* ================================================================== *)
(** ** Python strings *)
(* ================================================================== *)

Module PyStr.

(** A character is a Unicode code point. *)
Definition char := N.
Definition str := list char.

Definition of_string (s : String.string) : str :=
  List.map N_of_ascii (String.list_ascii_of_string s).

Fixpoint eqb (a b : str) : bool :=
  match a, b with
  | [], [] => true
  | x :: a', y :: b' => N.eqb x y && eqb a' b'
  | _, _ => false
  end.

(** [str.isspace] for one character: the code points CPython treats as
    whitespace, which are the ones [strip], [lstrip] and [rstrip]
    remove when called without argument. *)
Definition isspace (c : char) : bool :=
  (((9 <=? c) && (c <=? 13)) || ((28 <=? c) && (c <=? 32))
   || (c =? 133) || (c =? 160) || (c =? 5760)
   || ((8192 <=? c) && (c <=? 8202))
   || (c =? 8232) || (c =? 8233) || (c =? 8239) || (c =? 8287)
   || (c =? 12288))%N.

Fixpoint lstrip (s : str) : str :=
  match s with
  | [] => []
  | c :: s' => if isspace c then lstrip s' else s
  end.

Definition rstrip (s : str) : str := rev (lstrip (rev s)).

Definition strip (s : str) : str := lstrip (rstrip s).

(** [sep.join(l)] *)
Fixpoint join (sep : str) (l : list str) : str :=
  match l with
  | [] => []
  | [x] => x
  | x :: rest => x ++ sep ++ join sep rest
  end.

(** Truthiness of a string: [if text] holds for the non-empty ones. *)
Definition truthy (s : str) : bool :=
  match s with [] => false | _ :: _ => true end.

Definition starts_with_space (s : str) : bool :=
  match s with [] => false | c :: _ => isspace c end.

Definition ends_with_space (s : str) : bool := starts_with_space (rev s).

(** The whitespace of [shlex]: space, tab, carriage return, newline. *)
Definition shlex_whitespace (c : char) : bool :=
  ((c =? 32) || (c =? 9) || (c =? 13) || (c =? 10))%N.

(** [shlex.split] on a string without quotes or escapes: the maximal
    runs of non-whitespace characters.  The accumulator holds the
    current run, reversed. *)
Fixpoint split_acc (acc : str) (s : str) : list str :=
  match s with
  | [] => match acc with [] => [] | _ => [rev acc] end
  | c :: s' =>
      if shlex_whitespace c
      then match acc with
           | [] => split_acc [] s'
           | _ => rev acc :: split_acc [] s'
           end
      else split_acc (c :: acc) s'
  end.

Definition split (s : str) : list str := split_acc [] s.

Fixpoint is_prefix (p s : str) : bool :=
  match p, s with
  | [], _ => true
  | x :: p', y :: s' => N.eqb x y && is_prefix p' s'
  | _ :: _, [] => false
  end.

End PyStr.

Import PyStr.

(* ================================================================== *)
(** ** Images, exceptions and the library-call monad *)
(* ================================================================== *)

(** A grayscale image: a 2-D [uint8] array, as rows of pixel values. *)
Definition image := list (list Z).

Definition in_uint8 (v : Z) : Prop := 0 <= v <= 255.

Definition well_formed (w h : nat) (img : image) : Prop :=
  length img = h /\
  Forall (fun row => length row = w /\ Forall in_uint8 row) img.

(** The exceptions that cross the pipeline.  [EngineUnavailableError] is
    what pytesseract raises when the tesseract binary is missing
    ([TesseractNotFoundError]); it carries the diagnostic message.
    [SystemExit] (which pytesseract raises when it cannot read the
    version tesseract prints) and [KeyboardInterrupt] derive from
    [BaseException] only; the others derive from [Exception]. *)
Inductive exn : Type :=
| EngineUnavailableError (msg : str)
| EngineError (msg : str)
| IndexError
| Cv2Error
| UnsupportedModeError (mode : str)
| TypeError (msg : str)
| SystemExit (msg : str)
| KeyboardInterrupt.

(** [isinstance(e, Exception)] *)
Definition is_Exception (e : exn) : bool :=
  match e with
  | SystemExit _ | KeyboardInterrupt => false
  | _ => true
  end.

(** One entry of the trace per call into OpenCV or pytesseract, with the
    arguments that select what the library does. *)
Inductive call : Type :=
| Call_imdecode (flags : Z)
| Call_threshold (thresh maxval type : Z)
| Call_filter2D (ddepth : Z) (kernel : list (list Z))
| Call_image_to_string (lang config : str)
| Call_image_to_data (lang config : str)
| Call_get_tesseract_version
| Call_get_languages.

Definition trace := list call.

Inductive result (A : Type) : Type :=
| Ok (a : A)
| Raise (e : exn).
Arguments Ok {A} a.
Arguments Raise {A} e.

(** A computation reads the trace so far and returns its outcome with
    the extended trace; the trace survives an exception. *)
Definition M (A : Type) : Type := trace -> result A * trace.

Definition ret {A} (a : A) : M A := fun t => (Ok a, t).

Definition raise {A} (e : exn) : M A := fun t => (Raise e, t).

Definition bind {A B} (m : M A) (k : A -> M B) : M B :=
  fun t =>
    match m t with
    | (Ok a, t') => k a t'
    | (Raise e, t') => (Raise e, t')
    end.

(** [try: m except Exception as e: h e]: an exception that is not an
    [Exception] passes through. *)
Definition catch {A} (m : M A) (h : exn -> M A) : M A :=
  fun t =>
    match m t with
    | (Ok a, t') => (Ok a, t')
    | (Raise e, t') => if is_Exception e then h e t' else (Raise e, t')
    end.

(** A library call: log it, then return or raise what the library does. *)
Definition lib_call {A} (c : call) (r : result A) : M A :=
  fun t => (r, t ++ [c]).

Declare Scope monad_scope.
Delimit Scope monad_scope with monad.
Notation "x <- m ;; k" := (bind m (fun x => k))
  (at level 61, m at next level, right associativity) : monad_scope.
Local Open Scope monad_scope.

(* ================================================================== *)
(** ** The recognition engine (pytesseract) *)
(* ================================================================== *)

(** [image_to_data] with [output_type=Output.DICT]: one list per column
    of tesseract's TSV output; row [i] is a page, block, paragraph, line
    or word, and the non-word rows carry confidence -1 and empty text. *)
Record TessData : Type := {
  data_text : list str;
  data_conf : list Z;
  data_left : list Z;
  data_top : list Z;
  data_width : list Z;
  data_height : list Z
}.

(** What the installed engine answers to a call, or the exception it
    raises. *)
Record Engine : Type := {
  run_image_to_string : image -> str -> str -> result str;
  run_image_to_data : image -> str -> str -> result TessData;
  run_get_tesseract_version : result str;
  run_get_languages : result (list str)
}.

(** [Image.fromarray] on a 2-D [uint8] array: the same pixels. *)
Definition Image_fromarray (a : image) : image := a.

Definition py (s : String.string) : str := of_string s.
Arguments py s%_string.

(** [str(e)]: the text of an exception of the engine is its message;
    the text given to an OpenCV error stands for the library's own. *)
Definition str_of_exn (e : exn) : str :=
  match e with
  | EngineUnavailableError msg => msg
  | EngineError msg => msg
  | IndexError => py "list index out of range"
  | Cv2Error => py "OpenCV: bad argument"
  | UnsupportedModeError mode => mode
  | TypeError msg => msg
  | SystemExit msg => msg
  | KeyboardInterrupt => []
  end.

(** The dict [test_tesseract_installation] returns. *)
Inductive InstallationStatus : Type :=
| status_ok (version : str) (languages : list str) (eng_available : bool)
| status_error (error : str) (message : str).

(** *** Engine configurations, as the source writes them *)

Definition config_fast : str :=
  py "--oem 3 " ++
  py "--psm 6 " ++
  py "-c tessedit_char_blacklist=" ++ [169; 174; 8482]%N ++ py " " ++
  py "-c tessedit_do_invert=0 " ++
  py "-c load_system_dawg=1 " ++
  py "-c load_freq_dawg=1 " ++
  py "-c tessedit_pageseg_mode=6 " ++
  py "-c preserve_interword_spaces=1 ".

Definition config_accurate : str :=
  py "--oem 3 " ++
  py "--psm 3 " ++
  py "-c tessedit_char_blacklist=" ++ [169; 174; 8482; 167; 182]%N
    ++ py " " ++
  py "-c load_system_dawg=1 " ++
  py "-c load_freq_dawg=1 " ++
  py "-c load_punc_dawg=1 " ++
  py "-c load_number_dawg=1 " ++
  py "-c load_unambig_dawg=1 " ++
  py "-c load_bigram_dawg=1 " ++
  py "-c load_fixed_length_dawgs=1 " ++
  py "-c wordrec_enable_assoc=1 " ++
  py "-c tessedit_enable_dict_correction=1 " ++
  py "-c language_model_penalty_non_dict_word=0.5 " ++
  py "-c language_model_penalty_non_freq_dict_word=0.3 " ++
  py "-c preserve_interword_spaces=1 " ++
  py "-c tessedit_enable_bigram_correction=1 " ++
  py "-c tosp_threshold_bias2=1.0 ".

Definition config_confidence : str :=
  py "--oem 3 " ++
  py "--psm 3 " ++
  py "-c preserve_interword_spaces=1".

Definition config_code : str :=
  py "--oem 3 " ++
  py "--psm 4 " ++
  py "-c preserve_interword_spaces=1 " ++
  py "-c load_system_dawg=0 " ++
  py "-c load_freq_dawg=0 " ++
  py "-c tessedit_char_blacklist= " ++
  py "-c chop_enable=1 " ++
  py "-c use_new_state_cost=1 " ++
  py "-c segment_segcost_rating=1 " ++
  py "-c tosp_threshold_bias2=0 ".

(** *** Reading a configuration

    pytesseract splits the configuration with [shlex.split] and passes
    the words to the tesseract command line, where every option of these
    configurations takes one argument: [--oem N], [--psm N] and
    [-c name=value]. *)

Fixpoint parse_args (toks : list str) : list (str * str) :=
  match toks with
  | flag :: rest =>
      match rest with
      | arg :: rest' => (flag, arg) :: parse_args rest'
      | [] => []
      end
  | [] => []
  end.

(** The argument of the last occurrence of the option [flag]. *)
Fixpoint last_option (flag : str) (args : list (str * str)) : option str :=
  match args with
  | [] => None
  | (f, a) :: rest =>
      match last_option flag rest with
      | Some v => Some v
      | None => if PyStr.eqb f flag then Some a else None
      end
  end.

(** The value the last [-c name=value] gives to the variable [name]. *)
Fixpoint last_variable (name : str) (args : list (str * str)) : option str :=
  match args with
  | [] => None
  | (f, a) :: rest =>
      match last_variable name rest with
      | Some v => Some v
      | None =>
          if PyStr.eqb f (py "-c") && is_prefix (name ++ py "=") a
          then Some (skipn (List.length name + 1) a)
          else None
      end
  end.

Definition config_option (flag : String.string) (config : str) : option str :=
  last_option (py flag) (parse_args (split config)).
Arguments config_option flag%_string config.

Definition config_variable (name : String.string) (config : str) : option str :=
  last_variable (py name) (parse_args (split config)).
Arguments config_variable name%_string config.

(** *** The words of [extract_text_with_confidence] *)

Record Box : Type := {
  box_x : Z;
  box_y : Z;
  box_width : Z;
  box_height : Z
}.

Record Word : Type := {
  text : str;
  confidence : Z;
  box : Box
}.

Record QualityMetrics : Type := {
  high_confidence_words : nat;
  medium_confidence_words : nat;
  low_confidence_words : nat
}.

Record ConfidenceResult : Type := {
  result_text : str;
  result_confidence : Q;
  result_words : list Word;
  word_count : nat;
  quality_metrics : QualityMetrics
}.

(** [l[i]] *)
Definition index {A} (l : list A) (i : nat) : result A :=
  match nth_error l i with
  | Some a => Ok a
  | None => Raise IndexError
  end.

(** The dict literal appended for row [i]. *)
Definition word_dict (data : TessData) (i : nat) (text : str) (conf : Z)
  : result Word :=
  match index (data_left data) i with
  | Raise e => Raise e
  | Ok l =>
  match index (data_top data) i with
  | Raise e => Raise e
  | Ok t =>
  match index (data_width data) i with
  | Raise e => Raise e
  | Ok w =>
  match index (data_height data) i with
  | Raise e => Raise e
  | Ok h =>
      Ok {| text := text;
            confidence := conf;
            box := {| box_x := l; box_y := t;
                      box_width := w; box_height := h |} |}
  end end end end.

(** One iteration of the loop over the rows: [words] after row [i]. *)
Definition loop_body (data : TessData) (words : list Word) (i : nat)
  : result (list Word) :=
  match index (data_conf data) i with
  | Raise e => Raise e
  | Ok conf =>
  match index (data_text data) i with
  | Raise e => Raise e
  | Ok raw =>
      let text := strip raw in
      if (50 <? conf) && truthy text
      then match word_dict data i text conf with
           | Raise e => Raise e
           | Ok w => Ok (words ++ [w])
           end
      else Ok words
  end end.

(** [for i in range(...)], over the indices still to visit. *)
Fixpoint loop (data : TessData) (range : list nat) (words : list Word)
  : result (list Word) :=
  match range with
  | [] => Ok words
  | i :: rest =>
      match loop_body data words i with
      | Raise e => Raise e
      | Ok words' => loop data rest words'
      end
  end.

Definition sum_confidence (words : list Word) : Z :=
  fold_right Z.add 0 (List.map confidence words).

(** [round(q, ndigits)] on exact rationals: to the nearest multiple of
    [10^-ndigits], a tie going to the even one.  Python rounds the
    binary float nearest to [q]; the two agree except when [q] is a tie
    that no binary float represents.  [float_round] below rounds a
    double as Python does. *)
Definition round_half_even (q : Q) : Z :=
  let f := Qfloor q in
  match Qcompare (q - inject_Z f) (1 # 2) with
  | Lt => f
  | Gt => f + 1
  | Eq => if Z.even f then f else f + 1
  end.

Definition round (q : Q) (ndigits : nat) : Q :=
  let scale := inject_Z (10 ^ Z.of_nat ndigits) in
  (inject_Z (round_half_even (q * scale)) / scale)%Q.

(** *** Python's floats

    A [float] is a double, here with its exact value as a rational. *)

(** [floor(log2 q)] for a positive [q]. *)
Definition exponent (q : Q) : Z :=
  let k := Z.log2 (Qnum q) - Z.log2 (Zpos (Qden q)) in
  if Qle_bool (2 ^ k) q then k else k - 1.

(** The double nearest to a positive [q], a tie going to the even
    mantissa: 53 bits, the last of them worth at least 2^-1074. *)
Definition nearest (q : Q) : Q :=
  let ulp := (2 ^ Z.max (exponent q - 52) (-1074))%Q in
  (inject_Z (round_half_even (q / ulp)) * ulp)%Q.

(** The double nearest to [q].  A [q] beyond the largest double is
    rounded like any other. *)
Definition binary64 (q : Q) : Q :=
  match Qcompare q 0 with
  | Eq => 0%Q
  | Gt => nearest q
  | Lt => (- nearest (- q))%Q
  end.

(** [a / b] on two [int]s: CPython returns the double nearest to the
    quotient.  (For a quotient of 2^1024 or more it raises
    [OverflowError] instead; the statements about the confidence are
    for confidences below 2^1023.) *)
Definition truediv (a b : Z) : Q := binary64 (inject_Z a / inject_Z b).

(** [round(x, ndigits)] on a [float]: CPython rounds the exact value of
    the double to [ndigits] decimals, a tie going to the even digit, and
    returns the double nearest to that decimal.  On the [int] 0 it
    returns 0. *)
Definition float_round (x : Q) (ndigits : nat) : Q :=
  binary64 (round x ndigits).

(** [sum(...) / len(words) if words else 0] *)
Definition average_confidence (words : list Word) : Q :=
  match words with
  | [] => 0%Q
  | _ :: _ => truediv (sum_confidence words) (Z.of_nat (List.length words))
  end.

Definition count (p : Word -> bool) (words : list Word) : nat :=
  List.length (filter p words).

Section Recognizer.

Variable tesseract : Engine.

Definition image_to_string (img : image) (lang config : str) : M str :=
  lib_call (Call_image_to_string lang config)
           (run_image_to_string tesseract img lang config).

Definition image_to_data (img : image) (lang config : str) : M TessData :=
  lib_call (Call_image_to_data lang config)
           (run_image_to_data tesseract img lang config).

Definition extract_text_fast (processed_image : image) : M str :=
  let pil_img := Image_fromarray processed_image in
  let config := config_fast in
  text <- image_to_string pil_img (py "eng") config ;;
  ret (strip text).

Definition extract_text_accurate (processed_image : image) : M str :=
  let pil_img := Image_fromarray processed_image in
  let config := config_accurate in
  text <- image_to_string pil_img (py "eng") config ;;
  ret (strip text).

Definition extract_text_with_confidence (processed_image : image)
  : M ConfidenceResult :=
  let pil_img := Image_fromarray processed_image in
  let config := config_confidence in
  data <- image_to_data pil_img (py "eng") config ;;
  match loop data (seq 0 (List.length (data_text data))) [] with
  | Raise e => raise e
  | Ok words =>
      let full_text := join (py " ") (List.map text words) in
      let avg_conf := average_confidence words in
      let high_conf_words := count (fun w => 80 <? confidence w) words in
      let medium_conf_words :=
        count (fun w => (60 <? confidence w) && (confidence w <=? 80)) words in
      let low_conf_words := count (fun w => confidence w <=? 60) words in
      ret {| result_text := full_text;
             result_confidence := float_round avg_conf 2;
             result_words := words;
             word_count := List.length words;
             quality_metrics :=
               {| high_confidence_words := high_conf_words;
                  medium_confidence_words := medium_conf_words;
                  low_confidence_words := low_conf_words |} |}
  end.

Definition extract_code (processed_image : image) : M str :=
  let pil_img := Image_fromarray processed_image in
  let config := config_code in
  text <- image_to_string pil_img (py "eng") config ;;
  ret (rstrip text).

Definition pytesseract_get_tesseract_version : M str :=
  lib_call Call_get_tesseract_version (run_get_tesseract_version tesseract).

Definition pytesseract_get_languages : M (list str) :=
  lib_call Call_get_languages (run_get_languages tesseract).

Definition get_tesseract_version : M str :=
  catch (version <- pytesseract_get_tesseract_version ;; ret version)
        (fun e => ret (py "Error: " ++ str_of_exn e)).

Definition test_tesseract_installation : M InstallationStatus :=
  catch (version <- pytesseract_get_tesseract_version ;;
         langs <- pytesseract_get_languages ;;
         ret (status_ok version langs
                (existsb (PyStr.eqb (py "eng")) langs)))
        (fun e =>
           ret (status_error (str_of_exn e)
                  (py "Tesseract not installed or not in PATH"))).

End Recognizer.

(* ================================================================== *)
(** ** The image library (OpenCV) *)
(* ================================================================== *)

(** What the codec behind [cv2.imdecode] finds in the bytes: a
    single-channel image or a three-channel (BGR) one. *)
Inductive decoded : Type :=
| Gray (g : image)
| Color (c : list (list (Z * Z * Z))).

(** [src[r][c]], 0 outside the array (never read by the filter, whose
    border rule only produces indices inside). *)
Definition pixel_at (src : image) (r c : Z) : Z :=
  nth (Z.to_nat c) (nth (Z.to_nat r) src []) 0.

(** [enumerate]-style map, the index starting at [i]. *)
Fixpoint mapi_from {A B} (i : Z) (f : Z -> A -> B) (l : list A) : list B :=
  match l with
  | [] => []
  | a :: l' => f i a :: mapi_from (i + 1) f l'
  end.

Fixpoint sumi_from {A} (i : Z) (f : Z -> A -> Z) (l : list A) : Z :=
  match l with
  | [] => 0
  | a :: l' => f i a + sumi_from (i + 1) f l'
  end.

(** *** Otsu's threshold

    OpenCV scans the 256 levels once and keeps the first level whose
    between-class variance is strictly larger than every earlier one,
    skipping the levels that leave a class empty; the variances are
    taken here in exact arithmetic. *)

Definition total (xs : list Z) : Z := fold_right Z.add 0 xs.

Definition len (xs : list Z) : Z := Z.of_nat (List.length xs).

Definition below (t : Z) (px : list Z) : list Z :=
  filter (fun v => v <=? t) px.

Definition above (t : Z) (px : list Z) : list Z :=
  filter (fun v => negb (v <=? t)) px.

Definition mean (xs : list Z) : Q := (inject_Z (total xs) / inject_Z (len xs))%Q.

Definition between_class_variance (px : list Z) (t : Z) : Q :=
  let q1 := (inject_Z (len (below t px)) / inject_Z (len px))%Q in
  let q2 := (inject_Z (len (above t px)) / inject_Z (len px))%Q in
  let mu1 := mean (below t px) in
  let mu2 := mean (above t px) in
  (q1 * q2 * ((mu1 - mu2) * (mu1 - mu2)))%Q.

(** Levels at which both classes are inhabited. *)
Definition splits (px : list Z) (t : Z) : bool :=
  negb (len (below t px) =? 0) && negb (len (above t px) =? 0).

Definition otsu_step (px : list Z) (st : Q * Z) (i : Z) : Q * Z :=
  let '(max_sigma, max_val) := st in
  if splits px i
  then let sigma := between_class_variance px i in
       match Qcompare sigma max_sigma with
       | Gt => (sigma, i)
       | _ => st
       end
  else st.

Definition levels : list Z := List.map Z.of_nat (seq 0 256).

Definition otsu_threshold (px : list Z) : Z :=
  snd (fold_left (otsu_step px) levels (0%Q, 0)).

(** The variance of the pixel intensities within the two classes,
    weighted by the class probabilities. *)
Definition variance (xs : list Z) : Q :=
  (mean (List.map (fun v => (v * v)%Z) xs) - mean xs * mean xs)%Q.

Definition intra_class_variance (px : list Z) (t : Z) : Q :=
  let q1 := (inject_Z (len (below t px)) / inject_Z (len px))%Q in
  let q2 := (inject_Z (len (above t px)) / inject_Z (len px))%Q in
  (q1 * variance (below t px) + q2 * variance (above t px))%Q.

(** *** Thresholding and filtering *)

Definition IMREAD_GRAYSCALE : Z := 0.
Definition THRESH_BINARY : Z := 0.
Definition THRESH_OTSU : Z := 8.

(** [dst = maxval if src > thresh else 0] *)
Definition threshold_binary (thresh maxval : Z) (src : image) : image :=
  List.map (List.map (fun v => if thresh <? v then maxval else 0)) src.

(** [cv2.borderInterpolate(p, len, BORDER_REFLECT_101)], the default
    border of [filter2D], for the offsets a 3x3 kernel reaches:
    [gfedcb|abcdefgh|gfedcba]. *)
Definition borderInterpolate (p n : Z) : Z :=
  if (0 <=? p) && (p <? n) then p
  else if n =? 1 then 0
  else if p <? 0 then - p
  else 2 * n - 2 - p.

(** [saturate_cast<uchar>] *)
Definition saturate_cast (v : Z) : Z := Z.max 0 (Z.min 255 v).

(** The correlation sum of [filter2D] at row [r], column [c]; the anchor
    is the kernel centre. *)
Definition correlate_at (src : image) (kernel : list (list Z)) (r c : Z) : Z :=
  let rows := Z.of_nat (List.length src) in
  let cols := Z.of_nat (List.length (nth 0 src [])) in
  let ay := Z.of_nat (List.length kernel) / 2 in
  let ax := Z.of_nat (List.length (nth 0 kernel [])) / 2 in
  sumi_from 0 (fun i krow =>
    sumi_from 0 (fun j k =>
      k * pixel_at src (borderInterpolate (r + i - ay) rows)
                       (borderInterpolate (c + j - ax) cols))
      krow)
    kernel.

Definition correlate (src : image) (kernel : list (list Z)) : image :=
  mapi_from 0 (fun r row =>
    mapi_from 0 (fun c _ => saturate_cast (correlate_at src kernel r c)) row)
    src.

Section Preprocessor.

Variable codec : list byte -> option decoded.
Variable bgr2gray : Z * Z * Z -> Z.

(** [np.frombuffer(image_bytes, np.uint8)]: the same bytes. *)
Definition np_frombuffer (image_bytes : list byte) : list byte := image_bytes.

(** [cv2.imdecode(buf, cv2.IMREAD_GRAYSCALE)]: the decoded image, always
    converted to a single channel; [None] when the bytes are not an
    image. *)
Definition imdecode_grayscale (buf : list byte) : M (option image) :=
  lib_call (Call_imdecode IMREAD_GRAYSCALE)
    (Ok (match codec buf with
         | None => None
         | Some (Gray g) => Some g
         | Some (Color c) => Some (List.map (List.map bgr2gray) c)
         end)).

(** [cv2.threshold(src, thresh, maxval, type)] for the binary type, with
    or without the Otsu flag; it returns the threshold used and the
    thresholded image, and fails on [None].  The other threshold types
    are not used by the pipeline and raise here. *)
Definition threshold (src : option image) (thresh maxval type : Z)
  : M (Z * image) :=
  let otsu := Z.eqb type (THRESH_BINARY + THRESH_OTSU) in
  lib_call (Call_threshold thresh maxval type)
    (match src with
     | None => Raise Cv2Error
     | Some img =>
         if Z.eqb type THRESH_BINARY || otsu
         then let t := if otsu then otsu_threshold (concat img) else thresh in
              Ok (t, threshold_binary t maxval img)
         else Raise Cv2Error
     end).

(** [cv2.filter2D(src, -1, kernel)]: same depth as the source, so the
    sums are saturated to [uint8]. *)
Definition filter2D (src : image) (ddepth : Z) (kernel : list (list Z))
  : M image :=
  lib_call (Call_filter2D ddepth kernel) (Ok (correlate src kernel)).

Definition kernel : list (list Z) :=
  [[-1; -1; -1];
   [-1;  9; -1];
   [-1; -1; -1]].

Definition preprocess_image_fast (image_bytes : list byte) : M image :=
  let nparr := np_frombuffer image_bytes in
  img <- imdecode_grayscale nparr ;;
  r <- threshold img 0 255 (THRESH_BINARY + THRESH_OTSU) ;;
  let thresh := snd r in
  sharpened <- filter2D thresh (-1) kernel ;;
  ret sharpened.

(** The library calls of one run, in order. *)
Definition fast_calls : list call :=
  [Call_imdecode IMREAD_GRAYSCALE;
   Call_threshold 0 255 (THRESH_BINARY + THRESH_OTSU);
   Call_filter2D (-1) kernel].

(** *** The stages as the specification words them

    decode, grayscale (if not already), binarize with the global
    threshold that minimizes the intra-class variance, then convolve
    with a fixed 3x3 sharpening kernel. *)

Definition spec_decode (image_bytes : list byte) : option decoded :=
  codec image_bytes.

Definition spec_grayscale (d : decoded) : image :=
  match d with
  | Gray g => g
  | Color c => List.map (List.map bgr2gray) c
  end.

(** [t] is a level that splits the pixels and no splitting level has a
    smaller intra-class variance. *)
Definition minimizes_intra_class_variance (px : list Z) (t : Z) : Prop :=
  0 <= t <= 255 /\ splits px t = true /\
  forall t', 0 <= t' <= 255 -> splits px t' = true ->
    (intra_class_variance px t <= intra_class_variance px t')%Q.

Definition spec_binarize (t : Z) (g : image) : image :=
  List.map (List.map (fun v => if v <=? t then 0 else 255)) g.

(** The convolution proper: the kernel is mirrored about its centre. *)
Definition convolve_at (src : image) (k : list (list Z)) (r c : Z) : Z :=
  let rows := Z.of_nat (List.length src) in
  let cols := Z.of_nat (List.length (nth 0 src [])) in
  sumi_from 0 (fun i krow =>
    sumi_from 0 (fun j kv =>
      kv * pixel_at src (borderInterpolate (r - (i - 1)) rows)
                        (borderInterpolate (c - (j - 1)) cols))
      krow)
    k.

Definition spec_sharpen (b : image) : image :=
  mapi_from 0 (fun r row =>
    mapi_from 0 (fun c _ => saturate_cast (convolve_at b kernel r c)) row)
    b.

(** [out] is a buffer the staged pipeline may produce from the bytes.
    The threshold is the minimizing one whenever some level splits the
    pixels; on an image of a single intensity no level does, and the
    words of the specification leave the threshold open. *)
Definition prepare_fast (image_bytes : list byte) (out : image) : Prop :=
  exists d t,
    spec_decode image_bytes = Some d /\
    ((exists t', 0 <= t' <= 255 /\
                 splits (concat (spec_grayscale d)) t' = true) ->
     minimizes_intra_class_variance (concat (spec_grayscale d)) t) /\
    out = spec_sharpen (spec_binarize t (spec_grayscale d)).

End Preprocessor.

(* ================================================================== *)
(** ** Mode dispatch *)
(* ================================================================== *)

Inductive Mode : Type := FAST | ACCURATE | CODE | CONFIDENCE.

Inductive RecognitionResult : Type :=
| Text (t : str)
| TextWithConfidence (r : ConfidenceResult).

Definition mode_names : list (str * Mode) :=
  [(py "fast", FAST); (py "accurate", ACCURATE);
   (py "code", CODE); (py "confidence", CONFIDENCE)].

Fixpoint lookup_mode (names : list (str * Mode)) (mode : str) : option Mode :=
  match names with
  | [] => None
  | (name, m) :: rest =>
      if PyStr.eqb mode name then Some m else lookup_mode rest mode
  end.

Section Dispatch.

Variable tesseract : Engine.

(** The preprocessor each mode runs before recognition. *)
Variable prepare : Mode -> list byte -> M image.

Definition recognize (m : Mode) (buffer : image) : M RecognitionResult :=
  match m with
  | FAST => t <- extract_text_fast tesseract buffer ;; ret (Text t)
  | ACCURATE => t <- extract_text_accurate tesseract buffer ;; ret (Text t)
  | CODE => t <- extract_code tesseract buffer ;; ret (Text t)
  | CONFIDENCE =>
      r <- extract_text_with_confidence tesseract buffer ;;
      ret (TextWithConfidence r)
  end.

(** Modelled from the spec: the mode dispatch of the request-handling
    layer (the backend's main.py is not among the sources; the extension
    only posts the captured image to it).  The caller supplies raw image
    bytes and a mode string from the enumeration fast, accurate, code,
    confidence; the preprocessor then the recognizer of that mode run; a
    mode string outside the enumeration signals [UnsupportedModeError]. *)
Definition dispatch (mode : str) (image_bytes : list byte)
  : M RecognitionResult :=
  match lookup_mode mode_names mode with
  | None => raise (UnsupportedModeError mode)
  | Some m =>
      buffer <- prepare m image_bytes ;;
      recognize m buffer
  end.

End Dispatch.

(* ================================================================== *)
(** ** Predicates used in the statements *)
(* ================================================================== *)

(** Row [i] of the engine's table, read as a word. *)
Definition row (data : TessData) (i : nat) : Word :=
  {| text := strip (nth i (data_text data) []);
     confidence := nth i (data_conf data) 0;
     box := {| box_x := nth i (data_left data) 0;
               box_y := nth i (data_top data) 0;
               box_width := nth i (data_width data) 0;
               box_height := nth i (data_height data) 0 |} |}.

(** The test of the loop: [conf > 50 and text]. *)
Definition keeps (w : Word) : bool := (50 <? confidence w) && truthy (text w).

Definition rows (data : TessData) : list Word :=
  List.map (row data) (seq 0 (List.length (data_text data))).

(** Every column the loop indexes is at least as long as the text
    column it ranges over. *)
Definition columns_cover (data : TessData) : Prop :=
  (List.length (data_text data) <= List.length (data_conf data))%nat /\
  (List.length (data_text data) <= List.length (data_left data))%nat /\
  (List.length (data_text data) <= List.length (data_top data))%nat /\
  (List.length (data_text data) <= List.length (data_width data))%nat /\
  (List.length (data_text data) <= List.length (data_height data))%nat.




Definition all_space (s : str) : Prop := forallb isspace s = true.

(** Nothing to strip at either end. *)
Definition trimmed (s : str) : Prop :=
  starts_with_space s = false /\ ends_with_space s = false.

Definition binary_pixel (v : Z) : Prop := v = 0 \/ v = 255.

Definition binary_image (img : image) : Prop :=
  Forall (Forall binary_pixel) img.

Definition same_shape (a b : image) : Prop :=
  List.map (@List.length Z) a = List.map (@List.length Z) b.

(** An engine whose binary is missing: every call raises. *)
Definition unavailable (tesseract : Engine) (msg : str) : Prop :=
  (forall img lang config,
      run_image_to_string tesseract img lang config
      = Raise (EngineUnavailableError msg)) /\
  (forall img lang config,
      run_image_to_data tesseract img lang config
      = Raise (EngineUnavailableError msg)) /\
  run_get_tesseract_version tesseract = Raise (EngineUnavailableError msg) /\
  run_get_languages tesseract = Raise (EngineUnavailableError msg).

(* ================================================================== *)
(** ** Concrete engines, tables and codecs *)
(* ================================================================== *)

(** The engine of a machine on which tesseract is not installed. *)
Definition missing_engine (msg : str) : Engine :=
  {| run_image_to_string := fun _ _ _ => Raise (EngineUnavailableError msg);
     run_image_to_data := fun _ _ _ => Raise (EngineUnavailableError msg);
     run_get_tesseract_version := Raise (EngineUnavailableError msg);
     run_get_languages := Raise (EngineUnavailableError msg) |}.

Definition not_installed : str :=
  py "tesseract is not installed or it's not in your PATH".

(** An engine that answers every call with the same text and table. *)
Definition fixed_engine (recognized : str) (data : TessData) : Engine :=
  {| run_image_to_string := fun _ _ _ => Ok recognized;
     run_image_to_data := fun _ _ _ => Ok data;
     run_get_tesseract_version := Ok (py "5.3.0");
     run_get_languages := Ok [py "eng"; py "osd"] |}.

(** Forty one-letter words at one place, 33 with confidence 51 and 7
    with confidence 52. *)
Definition forty_words : TessData :=
  {| data_text := repeat (py "x") 40;
     data_conf := repeat 51 33 ++ repeat 52 7;
     data_left := repeat 0 40; data_top := repeat 0 40;
     data_width := repeat 1 40; data_height := repeat 1 40 |}.


Definition empty_data : TessData :=
  {| data_text := []; data_conf := []; data_left := []; data_top := [];
     data_width := []; data_height := [] |}.

(** A table for a two-line capture: the page row, then four words of
    which the last has confidence 50. *)
Definition sample_data : TessData :=
  {| data_text := [py ""; py "def"; py " f(x): "; py "return"; py "x"];
     data_conf := [-1; 51; 52; 52; 50];
     data_left := [0; 10; 50; 40; 110];
     data_top := [0; 10; 10; 40; 40];
     data_width := [300; 30; 50; 60; 10];
     data_height := [80; 20; 20; 20; 20] |}.

(** A blank 300 by 80 buffer. *)
Definition sample_buffer : image := repeat (repeat 255 300%nat) 80%nat.

(** The arithmetic mean of the confidences of [ws], 0 for no word. *)
Definition mean_confidence (ws : list Word) : Q :=
  (inject_Z (sum_confidence ws) / inject_Z (Z.of_nat (List.length ws)))%Q.

(** The same two words on one line and on two lines: the tables differ
    in the position of the second word only. *)
Definition one_line_data : TessData :=
  {| data_text := [py "a"; py "b"];
     data_conf := [90; 90];
     data_left := [10; 50]; data_top := [10; 10];
     data_width := [10; 10]; data_height := [20; 20] |}.

Definition two_line_data : TessData :=
  {| data_text := [py "a"; py "b"];
     data_conf := [90; 90];
     data_left := [10; 10]; data_top := [10; 40];
     data_width := [10; 10]; data_height := [20; 20] |}.

Definition newline : str := [10%N].

(** A toy codec for concrete runs: a first byte that says 'P' is
    followed by the width and then the pixels, row after row. *)
Fixpoint chunks (fuel : nat) (w : nat) (px : list Z) : image :=
  match fuel with
  | O => []
  | S fuel' =>
      match px with
      | [] => []
      | _ :: _ => firstn w px :: chunks fuel' w (skipn w px)
      end
  end.

Definition toy_codec (image_bytes : list byte) : option decoded :=
  match image_bytes with
  | magic :: width :: pixels =>
      if Byte.eqb magic x50 && negb (Byte.eqb width x00)
         && negb (Nat.eqb (List.length pixels) 0)
      then Some (Gray (chunks (List.length pixels)
                              (N.to_nat (Byte.to_N width))
                              (List.map (fun b => Z.of_N (Byte.to_N b)) pixels)))
      else None
  | _ => None
  end.

Definition toy_bgr2gray (p : Z * Z * Z) : Z :=
  let '(b, g, r) := p in (b + g + r) / 3.

(** A 3 by 2 image with a dark and a bright half. *)
Definition toy_bytes : list byte :=
  [x50; x03; x0a; x14; xc8; x0c; xd2; xdc].

(** What the scan for Otsu's threshold has established after the levels
    [seen]: the running maximum bounds their between-class variances,
    and it is either still the initial one or the variance of the
    retained level. *)
Definition otsu_inv (px : list Z) (seen : list Z) (st : Q * Z) : Prop :=
  (forall t, In t seen -> splits px t = true ->
             (between_class_variance px t <= fst st)%Q) /\
  (((fst st == 0)%Q /\ snd st = 0) \/
   (In (snd st) seen /\ splits px (snd st) = true /\
    fst st = between_class_variance px (snd st))).

(* ================================================================== *)
(** ** The speed-optimised backend of the blueprint *)
(* ================================================================== *)

Module Blueprint.

(** The configuration of the blueprint's [extract_text_fast]. *)
Definition config : str :=
  py "--oem 1 " ++
  py "--psm 3 " ++
  py "-c tessedit_do_invert=0 ".

(** [image_to_string] is called without [lang]: pytesseract then passes
    no [-l] option and tesseract reads its default language, [eng]. *)
Definition default_lang : str := py "eng".

Definition extract_text_fast (tesseract : Engine) (processed_image : image)
  : M str :=
  let pil_img := Image_fromarray processed_image in
  text <- image_to_string tesseract pil_img default_lang config ;;
  ret (strip text).

(** What a request to [POST /ocr] ends in: an [HTTPException] raised by
    the handler, another exception escaping it, or the returned dict. *)
Inductive outcome : Type :=
| HTTPException (status_code : Z) (detail : str)
| Unhandled (e : exn)
| Returned (text : str) (processing_time_ms : Q).

(** [len(contents)] *)
Definition size (contents : list byte) : Z := Z.of_nat (List.length contents).

(** The handler of [POST /ocr]; [start_time] and [end_time] are the two
    readings of [time.time()]. *)
Definition ocr_endpoint
  (codec : list byte -> option decoded) (bgr2gray : Z * Z * Z -> Z)
  (tesseract : Engine) (start_time end_time : Q) (contents : list byte)
  : trace -> outcome * trace :=
  fun t =>
    if 2000000 <? size contents
    then (HTTPException 400 (py "File too large"), t)
    else
      match (processed_img <- preprocess_image_fast codec bgr2gray contents ;;
             text <- extract_text_fast tesseract processed_img ;;
             ret text) t with
      | (Ok text, t') =>
          let elapsed := ((end_time - start_time) * 1000)%Q in
          (Returned text (round elapsed 2), t')
      | (Raise e, t') => (Unhandled e, t')
      end.

End Blueprint.

(* ================================================================== *)
(** ** The queue worker of the streaming blueprint *)
(* ================================================================== *)

Module Worker.

(** A value [json.loads] gives: the request id is whatever the client
    put under ['request_id'].  A number without fraction or exponent
    is an [int], any other a [float], here with the value of the
    double (the literals [NaN] and [Infinity], which are not JSON, are
    left out). *)
#[warnings="-register-all"]
Inductive Json : Type :=
| JNull
| JBool (b : bool)
| JInt (n : Z)
| JFloat (x : Q)
| JString (s : str)
| JArray (items : list Json)
| JObject (members : list (str * Json)).

(** A [list] or a [dict] cannot be the key of a dict. *)
Definition hashable (j : Json) : bool :=
  match j with
  | JArray _ | JObject _ => false
  | _ => true
  end.

(** The message of the [TypeError] for an unhashable key. *)
Definition unhashable (j : Json) : str :=
  match j with
  | JObject _ => py "unhashable type: 'dict'"
  | _ => py "unhashable type: 'list'"
  end.

(** The value of a [bool], [int] or [float] as a number. *)
Definition number (j : Json) : option Q :=
  match j with
  | JBool b => Some (if b then 1 else 0)%Q
  | JInt n => Some (inject_Z n)
  | JFloat x => Some x
  | _ => None
  end.

(** When two hashable values are the same key: [True], [1] and [1.0]
    are. *)
Definition key_eqb (a b : Json) : bool :=
  match a, b with
  | JNull, JNull => true
  | JString s, JString s' => PyStr.eqb s s'
  | _, _ =>
      match number a, number b with
      | Some x, Some y => Qeq_bool x y
      | _, _ => false
      end
  end.

Record Task : Type := {
  request_id : Json;
  image_bytes : list byte
}.

(** The dict stored for a request: [status] is ['success'] with the
    text or ['error'] with [str(e)]. *)
Inductive Entry : Type :=
| success (request_id : Json) (text : str)
| error (request_id : Json) (message : str).

(** The [results] dict, in insertion order. *)
Definition dict := list (Json * Entry).

(** [d.get(k)] for a hashable [k]. *)
Fixpoint get (d : dict) (k : Json) : option Entry :=
  match d with
  | [] => None
  | (k', v) :: rest => if key_eqb k k' then Some v else get rest k
  end.


(** The dict after [d[k] = v] for a hashable [k]: the value of an
    existing key is replaced in place and the key kept, a new key goes
    to the end. *)
Fixpoint set (d : dict) (k : Json) (v : Entry) : dict :=
  match d with
  | [] => [(k, v)]
  | (k', v') :: rest =>
      if key_eqb k k' then (k', v) :: rest else (k', v') :: set rest k v
  end.

(** [d[k] = v]: hashing an unhashable key raises [TypeError]. *)
Definition setitem (d : dict) (k : Json) (v : Entry) : M dict :=
  if hashable k then ret (set d k v) else raise (TypeError (unhashable k)).

Section OcrWorker.

(** The two functions the worker imports. *)
Variable preprocess_image_fast : list byte -> M image.
Variable extract_text_fast : image -> M str.

(** The [try] / [except Exception] around one task: the assignment to
    [results] is inside the [try], and the handler assigns again. *)
Definition process (task : Task) (results : dict) : M dict :=
  catch (processed <- preprocess_image_fast (image_bytes task) ;;
         text <- extract_text_fast processed ;;
         setitem results (request_id task)
                 (success (request_id task) text))
        (fun e =>
           setitem results (request_id task)
                   (error (request_id task) (str_of_exn e))).


End OcrWorker.

End Worker.

(** What the two stages do for a task, before anything is stored. *)
Definition stages
  (preprocess : list byte -> M image) (extract : image -> M str)
  (task : Worker.Task) : M str :=
  processed <- preprocess (Worker.image_bytes task) ;;
  text <- extract processed ;; ret text.




(* ================================================================== *)
(** ** The extension: JavaScript values *)
(* ================================================================== *)

(** A JavaScript string: its UTF-16 code units. *)
Definition jsstr := list N.

Definition js (s : String.string) : jsstr := of_string s.
Arguments js s%_string.

Module JsStr.

(** White space and line terminators, the characters [trim] removes. *)
Definition is_white (c : N) : bool :=
  (((9 <=? c) && (c <=? 13)) || (c =? 32) || (c =? 160) || (c =? 5760)
   || ((8192 <=? c) && (c <=? 8202))
   || (c =? 8232) || (c =? 8233) || (c =? 8239) || (c =? 8287)
   || (c =? 12288) || (c =? 65279))%N.

Fixpoint trim_start (s : jsstr) : jsstr :=
  match s with
  | [] => []
  | c :: s' => if is_white c then trim_start s' else s
  end.

Definition trim_end (s : jsstr) : jsstr := rev (trim_start (rev s)).

Definition trim (s : jsstr) : jsstr := trim_start (trim_end s).

(** [s.replace(/\/$/, '')]: a slash at the very end is removed. *)
Definition drop_final_slash (s : jsstr) : jsstr :=
  match rev s with
  | 47%N :: r => rev r
  | _ => s
  end.

(** [a || b] on strings: the empty string is falsy. *)
Definition or_else (a : option jsstr) (b : jsstr) : jsstr :=
  match a with
  | Some (c :: s) => c :: s
  | _ => b
  end.

End JsStr.

(* ================================================================== *)
(** ** The extension: stored results and history *)
(* ================================================================== *)

Module History.

(** The JSON object the backend answers with; a field may be absent. *)
Record OcrResult : Type := {
  res_text : option jsstr;
  processing_time_ms : option Q;
  character_count : option Z;
  res_mode : option jsstr
}.

(** An entry of the history; [id] is the number whose decimal digits
    form the id string. *)
Record Entry : Type := {
  id : Z;
  text : option jsstr;
  processingTime : option Q;
  characterCount : option Z;
  timestamp : Z;
  mode : jsstr
}.

(** The keys of [chrome.storage.local] the extension uses. *)
Record Storage : Type := {
  latestResult : option Entry;
  history : option (list Entry);
  apiUrl : option jsstr
}.

(** [data.history || []] *)
Definition stored_history (st : Storage) : list Entry :=
  match history st with
  | Some h => h
  | None => []
  end.

(** The entry [updatePopup] builds; [now1] and [now2] are the two
    readings of [Date.now()]. *)
Definition newEntry (now1 now2 : Z) (result : OcrResult) : Entry :=
  {| id := now1;
     text := res_text result;
     processingTime := processing_time_ms result;
     characterCount := character_count result;
     timestamp := now2;
     mode := JsStr.or_else (res_mode result) (js "fast") |}.

(** [updatePopup(result)] of the background script. *)
Definition updatePopup (now1 now2 : Z) (result : OcrResult) (st : Storage)
  : Storage :=
  let newEntry := newEntry now1 now2 result in
  let history := stored_history st in
  let history := newEntry :: history in
  let history :=
    if (50 <? List.length history)%nat then firstn 50 history else history in
  {| latestResult := Some newEntry;
     history := Some history;
     apiUrl := apiUrl st |}.

(** [array.splice(start, 1)]: what is left of the array. *)
Definition splice1 {A} (l : list A) (start : Z) : list A :=
  let len := Z.of_nat (List.length l) in
  let actualStart :=
    if start <? 0 then Z.max (len + start) 0 else Z.min start len in
  let deleteCount := Z.min (Z.max 1 0) (len - actualStart) in
  firstn (Z.to_nat actualStart) l
  ++ skipn (Z.to_nat (actualStart + deleteCount)) l.

(** [deleteHistoryItem(index)] of the popup. *)
Definition deleteHistoryItem (index : Z) (st : Storage) : Storage :=
  let history := stored_history st in
  let history := splice1 history index in
  {| latestResult := latestResult st;
     history := Some history;
     apiUrl := apiUrl st |}.

(** [clearHistory()] once the user has confirmed. *)
Definition clearHistory (st : Storage) : Storage :=
  {| latestResult := latestResult st;
     history := Some [];
     apiUrl := apiUrl st |}.

(** What [loadLatestResult] shows: the latest result when it has a
    non-empty text, the empty state otherwise. *)
Definition loadLatestResult (st : Storage) : option Entry :=
  match latestResult st with
  | Some e =>
      match text e with
      | Some (_ :: _) => Some e
      | _ => None
      end
  | None => None
  end.

End History.

(* ================================================================== *)
(** ** The extension: the backend URL *)
(* ================================================================== *)

Module ApiUrl.

(** [saveApiUrl()] of the popup on the value of the input field: the
    url of the [set_api_url] message it sends, or [None] when it alerts
    and sends nothing. *)
Definition saveApiUrl (value : jsstr) : option jsstr :=
  let url := JsStr.trim value in
  match url with
  | [] => None
  | _ :: _ => Some (JsStr.drop_final_slash url)
  end.

End ApiUrl.

(* ================================================================== *)
(** ** The extension: the background script *)
(* ================================================================== *)

Module Background.

(** The messages of the content script and the popup. *)
Record Message : Type := {
  action : jsstr;
  imageData : list Z;
  mimeType : option jsstr;
  mode : option jsstr;
  url : option jsstr
}.

Record Blob : Type := {
  bytes : list Z;
  type : jsstr
}.

(** The request [handleOCRRequest] sends with [fetch]. *)
Record Request : Type := {
  address : jsstr;
  method : jsstr;
  file : Blob;
  filename : jsstr
}.

(** How the [fetch] and the reading of its response end: the promise is
    rejected, the status is not ok, the body is not JSON, or the body is
    the result object. *)
Inductive Fetched : Type :=
| rejected (message : jsstr)
| not_ok (status : N) (errorText : jsstr)
| not_json (message : jsstr)
| json (result : History.OcrResult).

(** What the listener passes to [sendResponse]. *)
Inductive Reply : Type :=
| success (result : History.OcrResult)
| failure (error : jsstr).

Record State : Type := {
  API_URL : jsstr;
  storage : History.Storage
}.

(** [new Uint8Array(array)]: every number modulo 256. *)
Definition Uint8Array (numbers : list Z) : list Z :=
  List.map (fun n => n mod 256) numbers.

Fixpoint digits (fuel : nat) (n : N) (acc : jsstr) : jsstr :=
  match fuel with
  | O => acc
  | S fuel' =>
      let acc' := (48 + n mod 10)%N :: acc in
      if (n / 10 =? 0)%N then acc' else digits fuel' (n / 10)%N acc'
  end.

(** The decimal digits of a status code, as a template literal prints
    it. *)
Definition number_to_string (n : N) : jsstr :=
  digits (S (N.to_nat (N.log2 n))) n [].

(** [s.includes(p)] *)
Fixpoint includes (s p : jsstr) : bool :=
  is_prefix p s
  || match s with
     | [] => false
     | _ :: s' => includes s' p
     end.

(** The blob and request built for an [ocr_request] message. *)
Definition ocr_request (st : State) (message : Message) : Request :=
  let uint8Array := Uint8Array (imageData message) in
  let blob := {| bytes := uint8Array;
                 type := JsStr.or_else (mimeType message) (js "image/webp") |} in
  {| address := API_URL st ++ js "/ocr";
     method := js "POST";
     file := blob;
     filename := js "capture.webp" |}.

(** The [catch] of [handleOCRRequest]: the error it throws on. *)
Definition rethrown (st : State) (message : jsstr) : jsstr :=
  if includes message (js "Failed to fetch")
  then js "Cannot connect to backend at " ++ API_URL st
       ++ js ". Make sure the server is running."
  else message.

(** [handleOCRRequest] and the listener's [then]/[catch], given how the
    fetch ends: the new state, the text sent to the content script of
    the active tab for the clipboard if any, and the reply. *)
Definition handleOCRRequest (now1 now2 : Z) (st : State) (fetched : Fetched)
  : State * option jsstr * Reply :=
  match fetched with
  | rejected message => (st, None, failure (rethrown st message))
  | not_ok status errorText =>
      (st, None,
       failure (rethrown st (js "Backend error: " ++ number_to_string status
                             ++ js " - " ++ errorText)))
  | not_json message => (st, None, failure (rethrown st message))
  | json result =>
      let copied :=
        match History.res_text result with
        | Some (c :: s) => Some (c :: s)
        | _ => None
        end in
      ({| API_URL := API_URL st;
          storage := History.updatePopup now1 now2 result (storage st) |},
       copied, success result)
  end.

(** The two messages of the popup; [set_api_url] carries a url. *)
Definition set_api_url (st : State) (u : jsstr) : State :=
  {| API_URL := u;
     storage := {| History.latestResult := History.latestResult (storage st);
                   History.history := History.history (storage st);
                   History.apiUrl := Some u |} |}.

Definition get_api_url (st : State) : jsstr := API_URL st.

End Background.

Module Content.

(** The message [sendToBackend(blob, mode)] passes to the background
    script: the bytes of the blob, its type and the mode. *)
Definition sendToBackend (blob : Background.Blob) (mode : jsstr)
  : Background.Message :=
  {| Background.action := js "ocr_request";
     Background.imageData := Background.bytes blob;
     Background.mimeType := Some (Background.type blob);
     Background.mode := Some mode;
     Background.url := None |}.

End Content.

(* ================================================================== *)
(** ** The extension: selecting a region (content script) *)
(* ================================================================== *)

Module Selection.

(** A mouse event, in whole CSS pixels. *)
Record MouseEvent : Type := {
  clientX : Z;
  clientY : Z
}.

(** The style of the selection box; a length ['Npx'] is the integer N
    that [parseInt] reads back. *)
Record Box : Type := {
  left : Z;
  top : Z;
  width : Z;
  height : Z;
  display : bool
}.

(** The selection handed to [captureFrame]. *)
Record Rect : Type := {
  x : Z;
  y : Z;
  rect_width : Z;
  rect_height : Z
}.

Record State : Type := {
  isSelecting : bool;
  startX : Z;
  startY : Z;
  selectionBox : Box
}.

Definition onMouseDown (e : MouseEvent) (s : State) : State :=
  {| isSelecting := true;
     startX := clientX e;
     startY := clientY e;
     selectionBox :=
       {| left := clientX e; top := clientY e;
          width := 0; height := 0; display := true |} |}.

Definition onMouseMove (e : MouseEvent) (s : State) : State :=
  if negb (isSelecting s) then s
  else
    let currentX := clientX e in
    let currentY := clientY e in
    let width := Z.abs (currentX - startX s) in
    let height := Z.abs (currentY - startY s) in
    let left := Z.min currentX (startX s) in
    let top := Z.min currentY (startY s) in
    {| isSelecting := isSelecting s;
       startX := startX s;
       startY := startY s;
       selectionBox :=
         {| left := left; top := top; width := width; height := height;
            display := display (selectionBox s) |} |}.

(** [onMouseUp]: the new state and the selection captured, if any. *)
Definition onMouseUp (e : MouseEvent) (s : State) : State * option Rect :=
  if negb (isSelecting s) then (s, None)
  else
    let width := width (selectionBox s) in
    let height := height (selectionBox s) in
    if (width <? 20) || (height <? 20)
    then ({| isSelecting := false;
             startX := startX s;
             startY := startY s;
             selectionBox :=
               {| left := left (selectionBox s); top := top (selectionBox s);
                  width := width; height := height; display := false |} |},
          None)
    else ({| isSelecting := false;
             startX := startX s;
             startY := startY s;
             selectionBox := selectionBox s |},
          Some {| x := left (selectionBox s);
                  y := top (selectionBox s);
                  rect_width := width;
                  rect_height := height |}).

(** A drag: the button goes down, the mouse moves, the button goes up. *)
Definition drag (press : MouseEvent) (moves : list MouseEvent)
  (release : MouseEvent) (s : State) : State * option Rect :=
  onMouseUp release
    (fold_left (fun s' e => onMouseMove e s') moves (onMouseDown press s)).

End Selection.

(* ================================================================== *)
(** ** The extension: dragging the result modal *)
(* ================================================================== *)

Module Modal.

(** The modal is where its bounding rectangle is, in whole CSS pixels;
    [None] when it has been removed. *)
Record State : Type := {
  modal : option (Z * Z);
  isDragging : bool;
  dragStartX : Z;
  dragStartY : Z;
  initialLeft : Z;
  initialTop : Z
}.

(** [onDragStart] is bound to the header of the modal, so the modal
    exists when it runs; fixing [left] and [top] to the rectangle
    leaves the modal where it is. *)
Definition onDragStart (clientX clientY : Z) (s : State) : State :=
  match modal s with
  | Some (rect_left, rect_top) =>
      {| modal := Some (rect_left, rect_top);
         isDragging := true;
         dragStartX := clientX;
         dragStartY := clientY;
         initialLeft := rect_left;
         initialTop := rect_top |}
  | None => s
  end.

Definition onDrag (clientX clientY : Z) (s : State) : State :=
  match isDragging s, modal s with
  | true, Some _ =>
      let dx := clientX - dragStartX s in
      let dy := clientY - dragStartY s in
      {| modal := Some (initialLeft s + dx, initialTop s + dy);
         isDragging := isDragging s;
         dragStartX := dragStartX s;
         dragStartY := dragStartY s;
         initialLeft := initialLeft s;
         initialTop := initialTop s |}
  | _, _ => s
  end.

Definition onDragEnd (s : State) : State :=
  {| modal := modal s;
     isDragging := false;
     dragStartX := dragStartX s;
     dragStartY := dragStartY s;
     initialLeft := initialLeft s;
     initialTop := initialTop s |}.

Definition drags (moves : list (Z * Z)) (s : State) : State :=
  fold_left (fun s' p => onDrag (fst p) (snd p) s') moves s.

End Modal.

(* ================================================================== *)
(** ** The streaming blueprint: frame hashes and sharpness *)
(* ================================================================== *)

Module Monitor.

(** The values [pixels[i]] for [i = 0, 4, 8, ...]: the red channel of
    RGBA data. *)
Fixpoint reds (pixels : list Z) : list Z :=
  match pixels with
  | r :: g :: b :: a :: rest => r :: reds rest
  | r :: _ => [r]
  | [] => []
  end.

(** [perceptualHash], from the data of the 8 by 8 canvas on: the
    average divides by 64, and the hash has a ['1'] where the pixel is
    above the average and a ['0'] elsewhere. *)
Definition perceptualHash (pixels : list Z) : jsstr :=
  let sum := total (reds pixels) in
  let avg := (inject_Z sum / inject_Z 64)%Q in
  List.map (fun p =>
              match Qcompare (inject_Z p) avg with
              | Gt => 49%N
              | _ => 48%N
              end)
           (reds pixels).

(** The number of positions of [hash1] at which [hash2] has the same
    character. *)
Fixpoint same (hash1 hash2 : jsstr) : Z :=
  match hash1, hash2 with
  | c :: r1, d :: r2 => (if (c =? d)%N then 1 else 0) + same r1 r2
  | _, _ => 0
  end.

(** [hammingDistance]: the share of equal positions; [None] stands for
    the NaN of an empty [hash1]. *)
Definition hammingDistance (hash1 hash2 : jsstr) : option Q :=
  match hash1 with
  | [] => None
  | _ :: _ =>
      Some (inject_Z (same hash1 hash2)
            / inject_Z (Z.of_nat (List.length hash1)))%Q
  end.

(** [checkFrame] from the hash on: the new [previousHash] and whether
    the frame is sent to OCR.  A comparison with NaN is false.  The
    share of a hash of 64 characters is a multiple of 1/64, which the
    double nearest to 0.85 and 85/100 order alike. *)
Definition checkFrame (pixels : list Z) (previousHash : option jsstr)
  : option jsstr * bool :=
  let hash := perceptualHash pixels in
  match previousHash with
  | None | Some [] => (Some hash, true)
  | Some (c :: p) =>
      match hammingDistance hash (c :: p) with
      | Some similarity =>
          match Qcompare similarity (85 # 100) with
          | Lt => (Some hash, true)
          | _ => (previousHash, false)
          end
      | None => (previousHash, false)
      end
  end.

(** The differences [calculateSharpness] adds up: between each pixel's
    red value and the next pixel's, as long as there is a next one. *)
Fixpoint diffs (data : list Z) : list Z :=
  match data with
  | curr :: g :: b :: a :: rest =>
      match rest with
      | next :: _ => Z.abs (curr - next) :: diffs rest
      | [] => []
      end
  | _ => []
  end.

(** [calculateSharpness]: [sum / count], NaN ([None]) when no pair of
    pixels was compared. *)
Definition calculateSharpness (data : list Z) : option Q :=
  match diffs data with
  | [] => None
  | ds => Some (inject_Z (total ds) / inject_Z (Z.of_nat (List.length ds)))%Q
  end.

End Monitor.

(** The character of the hash for the pixel [p] when the 64 pixels
    add up to [s], with the comparison [p > s / 64] in whole numbers. *)
Definition hash_bit (s p : Z) : N :=
  match Z.compare (p * 64) s with
  | Gt => 49%N
  | _ => 48%N
  end.

(** The differences between each value and the next one. *)
Fixpoint adjacent (l : list Z) : list Z :=
  match l with
  | a :: (b :: _) as t => Z.abs (a - b) :: adjacent t
  | _ => []
  end.

(* ================================================================== *)
(** ** The content script: the contrast boost *)
(* ================================================================== *)

From Stdlib Require Import Qminmax.

Module Contrast.

Section Doubles.

(** The rounding of a real number to a JavaScript number. *)
Variable fl : Q -> Q.

Definition add (a b : Q) : Q := fl (a + b).
Definition sub (a b : Q) : Q := fl (a - b).
Definition mul (a b : Q) : Q := fl (a * b).
Definition div (a b : Q) : Q := fl (a / b).

(** [const contrast = 1.3] *)
Definition contrast : Q := fl (13 # 10).

(** [(259 * (contrast * 255 + 255)) / (255 * (259 - contrast * 255))] *)
Definition factor : Q :=
  div (mul 259 (add (mul contrast 255) 255))
      (mul 255 (sub 259 (mul contrast 255))).

(** The value stored into the [Uint8ClampedArray]: clamped to 0..255
    and rounded to the nearest integer, a tie going to the even one. *)
Definition ToUint8Clamp (v : Q) : Z :=
  round_half_even (Qmin 255 (Qmax 0 v)).

(** [data[i] = Math.min(255, Math.max(0, factor * (data[i] - 128) + 128))]
    on the gray value [d] the first loop stored. *)
Definition boost (d : Z) : Z :=
  ToUint8Clamp
    (Qmin 255 (Qmax 0 (add (mul factor (sub (inject_Z d) 128)) 128))).

End Doubles.

(** What is used of the rounding: it is monotone, and it leaves the
    multiples of 2^-20 with a numerator of at most 52 bits as they
    are. *)
Definition rounding (fl : Q -> Q) : Prop :=
  (forall x y, (x <= y)%Q -> (fl x <= fl y)%Q) /\
  (forall k, Z.abs k <= 2 ^ 52 ->
             (fl (inject_Z k / inject_Z (2 ^ 20))
              == inject_Z k / inject_Z (2 ^ 20))%Q).

End Contrast.

(* ================================================================== *)
(** ** The streaming blueprint: the WebSocket client *)
(* ================================================================== *)

From Stdlib Require Import Permutation.

Module Socket.

Section Client.

(** The callbacks given to [sendOCRRequest]. *)
Variable Callback : Type.

Record Request := { request_id : Z; image : jsstr }.

(** The client with what it has done so far: [open] is
    [ws.readyState === WebSocket.OPEN]; [reading] holds the
    [FileReader]s that have not loaded yet, with the [id] and the
    callback their handler closes over; [sent] is what [ws.send] was
    given, oldest first; [called] is the callbacks called so far, each
    with the [request_id] of the response it was given. *)
Record State := {
  open : bool;
  requestQueue : list (Request * Callback);
  responseCallbacks : list (Z * Callback);
  requestId : Z;
  reading : list (Z * jsstr * Callback);
  sent : list Request;
  called : list (Callback * Z)
}.

(** [new OCRWebSocket()], before the socket opens. *)
Definition constructor : State :=
  {| open := false; requestQueue := []; responseCallbacks := [];
     requestId := 0; reading := []; sent := []; called := [] |}.

(** [obj[id]], [obj[id] = callback] and [delete obj[id]]. *)
Definition get (id : Z) (obj : list (Z * Callback)) : option Callback :=
  option_map snd (find (fun e => fst e =? id) obj).

Definition delete (id : Z) (obj : list (Z * Callback)) : list (Z * Callback) :=
  filter (fun e => negb (fst e =? id)) obj.

Definition set (id : Z) (callback : Callback) (obj : list (Z * Callback))
  : list (Z * Callback) :=
  (id, callback) :: delete id obj.

(** [processQueue]: the loop, on the queue, what was sent and the
    callbacks. *)
Fixpoint processQueue (queue : list (Request * Callback))
  (out : list Request) (callbacks : list (Z * Callback))
  : list Request * list (Z * Callback) :=
  match queue with
  | [] => (out, callbacks)
  | (request, callback) :: rest =>
      processQueue rest (out ++ [request])
                   (set (request_id request) callback callbacks)
  end.

(** The reader whose handler holds [id], taken out of those still
    reading. *)
Fixpoint take (id : Z) (readers : list (Z * jsstr * Callback))
  : option (jsstr * Callback * list (Z * jsstr * Callback)) :=
  match readers with
  | [] => None
  | (i, base64, callback) :: rest =>
      if i =? id then Some (base64, callback, rest)
      else match take id rest with
           | Some (b, c, rest') => Some (b, c, (i, base64, callback) :: rest')
           | None => None
           end
  end.

Inductive Event :=
| sendOCRRequest (base64 : jsstr) (callback : Callback)
| onload (id : Z)
| onopen
| onclose
| onmessage (response_id : Z).

(** One event.  [onload id] is the reader with [id] loading; [onopen]
    runs [processQueue]; [onclose] is the socket leaving the state
    [OPEN], after which a new socket is connected. *)

Definition step (s : State) (e : Event) : State :=
  match e with
  | sendOCRRequest base64 callback =>
      {| open := open s; requestQueue := requestQueue s;
         responseCallbacks := responseCallbacks s;
         requestId := requestId s + 1;
         reading := reading s ++ [(requestId s, base64, callback)];
         sent := sent s; called := called s |}
  | onload id =>
      match take id (reading s) with
      | None => s
      | Some (base64, callback, rest) =>
          let request := {| request_id := id; image := base64 |} in
          if open s then
            {| open := open s; requestQueue := requestQueue s;
               responseCallbacks := set id callback (responseCallbacks s);
               requestId := requestId s; reading := rest;
               sent := sent s ++ [request]; called := called s |}
          else
            {| open := open s;
               requestQueue := requestQueue s ++ [(request, callback)];
               responseCallbacks := responseCallbacks s;
               requestId := requestId s; reading := rest;
               sent := sent s; called := called s |}
      end
  | onopen =>
      let (out, callbacks) :=
        processQueue (requestQueue s) (sent s) (responseCallbacks s) in
      {| open := true; requestQueue := [];
         responseCallbacks := callbacks;
         requestId := requestId s; reading := reading s;
         sent := out; called := called s |}
  | onclose =>
      {| open := false; requestQueue := requestQueue s;
         responseCallbacks := responseCallbacks s;
         requestId := requestId s; reading := reading s;
         sent := sent s; called := called s |}
  | onmessage response_id =>
      match get response_id (responseCallbacks s) with
      | Some callback =>
          {| open := open s; requestQueue := requestQueue s;
             responseCallbacks := delete response_id (responseCallbacks s);
             requestId := requestId s; reading := reading s;
             sent := sent s;
             called := called s ++ [(callback, response_id)] |}
      | None => s
      end
  end.

Definition run (events : list Event) : State :=
  fold_left step events constructor.

(** The ids the client holds: of the readers, of the queue and of
    what was sent. *)
Definition held (s : State) : list Z :=
  List.map (fun r => fst (fst r)) (reading s)
  ++ List.map (fun q => request_id (fst q)) (requestQueue s)
  ++ List.map request_id (sent s).

Definition invariant (s : State) : Prop :=
  NoDup (held s) /\
  (forall id, In id (held s) -> id < requestId s) /\
  (forall id, In id (List.map fst (responseCallbacks s)) ->
              In id (List.map request_id (sent s))) /\
  (forall id, In id (List.map snd (called s)) ->
              In id (List.map request_id (sent s))) /\
  NoDup (List.map snd (called s)) /\
  (forall id, In id (List.map snd (called s)) ->
              ~ In id (List.map fst (responseCallbacks s))).

End Client.

Arguments sendOCRRequest {Callback}.
Arguments onload {Callback}.
Arguments onopen {Callback}.
Arguments onclose {Callback}.
Arguments onmessage {Callback}.

End Socket.

(* ================================================================== *)
(** * Properties *)
(* ================================================================== *)

(** ** Stripping *)

Lemma lstrip_decompose (s : str) :
  exists ws, s = ws ++ lstrip s /\ all_space ws.
Proof.
  induction s as [|c s IH]; simpl.
  - exists []. split; reflexivity.
  - destruct (isspace c) eqn:Hc.
    + destruct IH as [ws [Hs Hws]].
      exists (c :: ws). split.
      * simpl. f_equal. exact Hs.
      * unfold all_space in *. simpl. rewrite Hc, Hws. reflexivity.
    + exists []. split; reflexivity.
Qed.

Lemma lstrip_no_leading_space (s : str) : starts_with_space (lstrip s) = false.
Proof.
  induction s as [|c s IH]; simpl.
  - reflexivity.
  - destruct (isspace c) eqn:Hc.
    + exact IH.
    + simpl. exact Hc.
Qed.

Lemma all_space_rev (ws : str) : all_space ws -> all_space (rev ws).
Proof.
  unfold all_space. intros H.
  apply forallb_forall. intros c Hin.
  apply in_rev in Hin.
  revert c Hin. apply forallb_forall. exact H.
Qed.

Lemma rstrip_decompose (s : str) :
  exists ws, s = rstrip s ++ ws /\ all_space ws.
Proof.
  unfold rstrip.
  destruct (lstrip_decompose (rev s)) as [ws [Hs Hws]].
  exists (rev ws). split.
  - rewrite <- rev_app_distr, <- Hs, rev_involutive. reflexivity.
  - apply all_space_rev. exact Hws.
Qed.

Lemma rstrip_no_trailing_space (s : str) : ends_with_space (rstrip s) = false.
Proof.
  unfold ends_with_space, rstrip.
  rewrite rev_involutive. apply lstrip_no_leading_space.
Qed.

Lemma starts_with_space_app (a b : str) :
  a <> [] -> starts_with_space (a ++ b) = starts_with_space a.
Proof.
  destruct a; [congruence | reflexivity].
Qed.

Lemma rev_not_nil {A} (l : list A) : l <> [] -> rev l <> [].
Proof.
  intros H E. apply H.
  rewrite <- (rev_involutive l), E. reflexivity.
Qed.

(** A suffix of a string that does not end in whitespace does not end in
    whitespace either. *)
Lemma ends_with_space_suffix (ws r : str) :
  ends_with_space (ws ++ r) = false -> ends_with_space r = false.
Proof.
  unfold ends_with_space. rewrite rev_app_distr.
  destruct r as [|c r].
  - reflexivity.
  - rewrite starts_with_space_app.
    + trivial.
    + apply rev_not_nil. discriminate.
Qed.

Lemma strip_decompose (s : str) :
  exists ws1 ws2,
    s = ws1 ++ strip s ++ ws2 /\ all_space ws1 /\ all_space ws2.
Proof.
  unfold strip.
  destruct (rstrip_decompose s) as [ws2 [H2 Hws2]].
  destruct (lstrip_decompose (rstrip s)) as [ws1 [H1 Hws1]].
  exists ws1, ws2. repeat split; try assumption.
  rewrite app_assoc, <- H1. exact H2.
Qed.

Lemma strip_trimmed (s : str) : trimmed (strip s).
Proof.
  unfold trimmed, strip. split.
  - apply lstrip_no_leading_space.
  - destruct (lstrip_decompose (rstrip s)) as [ws [H _]].
    apply (ends_with_space_suffix ws).
    rewrite <- H. apply rstrip_no_trailing_space.
Qed.

(** Stripping only removes: a string that is already trimmed is kept. *)
Lemma lstrip_fixed (s : str) : starts_with_space s = false -> lstrip s = s.
Proof.
  destruct s as [|c s]; simpl; [reflexivity|].
  intros ->. reflexivity.
Qed.

Lemma rstrip_fixed (s : str) : ends_with_space s = false -> rstrip s = s.
Proof.
  unfold ends_with_space, rstrip. intros H.
  rewrite lstrip_fixed by exact H. apply rev_involutive.
Qed.

(** ** The monad *)

Lemma bind_lib_call {A B} (c : call) (r : result A) (k : A -> M B) (t : trace) :
  bind (lib_call c r) k t =
  match r with
  | Ok a => k a (t ++ [c])
  | Raise e => (Raise e, t ++ [c])
  end.
Proof.
  unfold bind, lib_call. destruct r; reflexivity.
Qed.

(** ** The text recognizers *)

(** C7: [extract_text_fast] calls the engine once, for English, with
    engine mode 3 (legacy and LSTM combined), page segmentation 6
    (uniform block of text), inter-word spaces preserved, the system and
    frequency dictionaries loaded and the noise characters (c), (R) and
    TM blacklisted; what the engine recognized comes back with the
    whitespace at both ends removed and nothing else changed, and an
    exception of the engine comes back as it is. *)
Theorem extract_text_fast_config_and_trim
  (tesseract : Engine) (buffer : image) (t : trace) :
  snd (extract_text_fast tesseract buffer t)
    = t ++ [Call_image_to_string (py "eng") config_fast] /\
  config_option "--oem" config_fast = Some (py "3") /\
  config_option "--psm" config_fast = Some (py "6") /\
  config_variable "tessedit_pageseg_mode" config_fast = Some (py "6") /\
  config_variable "preserve_interword_spaces" config_fast = Some (py "1") /\
  config_variable "load_system_dawg" config_fast = Some (py "1") /\
  config_variable "load_freq_dawg" config_fast = Some (py "1") /\
  config_variable "tessedit_char_blacklist" config_fast
    = Some [169; 174; 8482]%N /\
  match run_image_to_string tesseract buffer (py "eng") config_fast with
  | Ok recognized =>
      exists ws1 out ws2,
        fst (extract_text_fast tesseract buffer t) = Ok out /\
        recognized = ws1 ++ out ++ ws2 /\
        all_space ws1 /\ all_space ws2 /\ trimmed out
  | Raise e => fst (extract_text_fast tesseract buffer t) = Raise e
  end.
Proof.
  unfold extract_text_fast, image_to_string, Image_fromarray.
  rewrite bind_lib_call.
  destruct (run_image_to_string tesseract buffer (py "eng") config_fast)
    as [recognized|e].
  - repeat (split; [reflexivity|]).
    destruct (strip_decompose recognized) as [ws1 [ws2 [H [H1 H2]]]].
    exists ws1, (strip recognized), ws2.
    repeat split; try assumption; try apply strip_trimmed.
  - repeat (split; [reflexivity|]). reflexivity.
Qed.

(** C3: [extract_code] calls the engine once, for English, with page
    segmentation 4 (a single column of text), the system and frequency
    dictionaries switched off, inter-word spaces preserved and an empty
    character blacklist; what the engine recognized comes back with only
    the whitespace at its end removed: the result is a prefix of the
    recognized text, the part cut off is whitespace, and a text that
    does not end in whitespace comes back unchanged. *)
Theorem extract_code_config_and_rstrip
  (tesseract : Engine) (buffer : image) (t : trace) :
  snd (extract_code tesseract buffer t)
    = t ++ [Call_image_to_string (py "eng") config_code] /\
  config_option "--psm" config_code = Some (py "4") /\
  config_variable "load_system_dawg" config_code = Some (py "0") /\
  config_variable "load_freq_dawg" config_code = Some (py "0") /\
  config_variable "preserve_interword_spaces" config_code = Some (py "1") /\
  config_variable "tessedit_char_blacklist" config_code = Some [] /\
  match run_image_to_string tesseract buffer (py "eng") config_code with
  | Ok recognized =>
      exists out ws,
        fst (extract_code tesseract buffer t) = Ok out /\
        recognized = out ++ ws /\
        all_space ws /\ ends_with_space out = false /\
        (ends_with_space recognized = false -> out = recognized)
  | Raise e => fst (extract_code tesseract buffer t) = Raise e
  end.
Proof.
  unfold extract_code, image_to_string, Image_fromarray.
  rewrite bind_lib_call.
  destruct (run_image_to_string tesseract buffer (py "eng") config_code)
    as [recognized|e].
  - repeat (split; [reflexivity|]).
    destruct (rstrip_decompose recognized) as [ws [H Hws]].
    exists (rstrip recognized), ws.
    repeat split; try assumption.
    + apply rstrip_no_trailing_space.
    + apply rstrip_fixed.
  - repeat (split; [reflexivity|]). reflexivity.
Qed.

(** Leading and inner whitespace survive [extract_code]: an indented
    line with three spaces between two letters. *)
Example extract_code_keeps_indentation :
  fst (extract_code (fixed_engine (py "    a   b  ") empty_data) [] [])
  = Ok (py "    a   b").
Proof. reflexivity. Qed.

(** C4: on a machine where the engine is not installed, each of the four
    recognizers raises [EngineUnavailableError] with the engine's
    diagnostic message, after exactly one call to the engine: the call
    is not tried again. *)
Theorem engine_unavailable_is_signalled_once
  (tesseract : Engine) (msg : str) (buffer : image) (t : trace) :
  unavailable tesseract msg ->
  extract_text_fast tesseract buffer t
    = (Raise (EngineUnavailableError msg),
       t ++ [Call_image_to_string (py "eng") config_fast]) /\
  extract_text_accurate tesseract buffer t
    = (Raise (EngineUnavailableError msg),
       t ++ [Call_image_to_string (py "eng") config_accurate]) /\
  extract_code tesseract buffer t
    = (Raise (EngineUnavailableError msg),
       t ++ [Call_image_to_string (py "eng") config_code]) /\
  extract_text_with_confidence tesseract buffer t
    = (Raise (EngineUnavailableError msg),
       t ++ [Call_image_to_data (py "eng") config_confidence]).
Proof.
  intros (Hs & Hd & _).
  unfold extract_text_fast, extract_text_accurate, extract_code,
    extract_text_with_confidence, image_to_string, image_to_data.
  rewrite !bind_lib_call, !Hs, Hd.
  repeat split.
Qed.

(** The health check is where the missing engine is caught: it reports
    the diagnostic instead of raising. *)
Lemma health_check_reports_missing_engine
  (tesseract : Engine) (msg : str) (t : trace) :
  unavailable tesseract msg ->
  test_tesseract_installation tesseract t
  = (Ok (status_error msg (py "Tesseract not installed or not in PATH")),
     t ++ [Call_get_tesseract_version]).
Proof.
  intros (_ & _ & Hv & _).
  unfold test_tesseract_installation, catch,
    pytesseract_get_tesseract_version.
  rewrite bind_lib_call, Hv. reflexivity.
Qed.

Lemma version_query_reports_missing_engine
  (tesseract : Engine) (msg : str) (t : trace) :
  unavailable tesseract msg ->
  get_tesseract_version tesseract t
  = (Ok (py "Error: " ++ msg), t ++ [Call_get_tesseract_version]).
Proof.
  intros (_ & _ & Hv & _).
  unfold get_tesseract_version, catch, pytesseract_get_tesseract_version.
  rewrite bind_lib_call, Hv. reflexivity.
Qed.

Lemma engine_unavailable_is_signalled_once_witness :
  unavailable (missing_engine not_installed) not_installed /\
  extract_text_fast (missing_engine not_installed) [[0; 255]] []
    = (Raise (EngineUnavailableError not_installed),
       [Call_image_to_string (py "eng") config_fast]).
Proof.
  assert (H : unavailable (missing_engine not_installed) not_installed)
    by (repeat split; reflexivity).
  split.
  - exact H.
  - exact (proj1 (engine_unavailable_is_signalled_once
                    (missing_engine not_installed) not_installed
                    [[0; 255]] [] H)).
Defined.

(** ** The loop over the engine's table *)

Lemma index_nth {A} (l : list A) (i : nat) (d : A) :
  (i < List.length l)%nat -> index l i = Ok (nth i l d).
Proof.
  intros H. unfold index.
  rewrite (nth_error_nth' l d H). reflexivity.
Qed.

Lemma loop_body_row (data : TessData) (words : list Word) (i : nat) :
  columns_cover data ->
  (i < List.length (data_text data))%nat ->
  loop_body data words i
  = Ok (if keeps (row data i) then words ++ [row data i] else words).
Proof.
  intros (Hc & Hl & Ht & Hw & Hh) Hi.
  unfold loop_body, word_dict, keeps, row. simpl.
  rewrite (index_nth (data_conf data) i 0) by lia.
  rewrite (index_nth (data_text data) i []) by lia.
  destruct ((50 <? nth i (data_conf data) 0)
            && truthy (strip (nth i (data_text data) []))); [|reflexivity].
  rewrite (index_nth (data_left data) i 0) by lia.
  rewrite (index_nth (data_top data) i 0) by lia.
  rewrite (index_nth (data_width data) i 0) by lia.
  rewrite (index_nth (data_height data) i 0) by lia.
  reflexivity.
Qed.

Lemma loop_filter (data : TessData) (k a : nat) (words : list Word) :
  columns_cover data ->
  (a + k <= List.length (data_text data))%nat ->
  loop data (seq a k) words
  = Ok (words ++ filter keeps (List.map (row data) (seq a k))).
Proof.
  intros Hc. revert a words.
  induction k as [|k IH]; intros a words Hk; simpl.
  - rewrite app_nil_r. reflexivity.
  - rewrite loop_body_row by (assumption || lia).
    rewrite IH by lia.
    destruct (keeps (row data a)).
    + rewrite <- app_assoc. reflexivity.
    + reflexivity.
Qed.

Lemma loop_rows (data : TessData) :
  columns_cover data ->
  loop data (seq 0 (List.length (data_text data))) []
  = Ok (filter keeps (rows data)).
Proof.
  intros Hc. rewrite loop_filter by (assumption || lia). reflexivity.
Qed.

(** The run of [extract_text_with_confidence] on a table whose columns
    cover the text column. *)
Lemma extract_text_with_confidence_run
  (tesseract : Engine) (buffer : image) (t : trace) (data : TessData) :
  run_image_to_data tesseract buffer (py "eng") config_confidence = Ok data ->
  columns_cover data ->
  extract_text_with_confidence tesseract buffer t
  = (Ok {| result_text :=
             join (py " ") (List.map text (filter keeps (rows data)));
           result_confidence :=
             float_round (average_confidence (filter keeps (rows data))) 2;
           result_words := filter keeps (rows data);
           word_count := List.length (filter keeps (rows data));
           quality_metrics :=
             {| high_confidence_words :=
                  count (fun w => 80 <? confidence w)
                        (filter keeps (rows data));
                medium_confidence_words :=
                  count (fun w => (60 <? confidence w)
                                  && (confidence w <=? 80))
                        (filter keeps (rows data));
                low_confidence_words :=
                  count (fun w => confidence w <=? 60)
                        (filter keeps (rows data)) |} |},
     t ++ [Call_image_to_data (py "eng") config_confidence]).
Proof.
  intros Hrun Hc.
  unfold extract_text_with_confidence, image_to_data, Image_fromarray.
  rewrite bind_lib_call, Hrun, loop_rows by assumption.
  reflexivity.
Qed.

Lemma kept_words (ws : list Word) :
  Forall (fun w => 50 < confidence w /\ text w <> []) (filter keeps ws).
Proof.
  apply Forall_forall. intros w Hin.
  apply filter_In in Hin. destruct Hin as [_ Hk].
  unfold keeps in Hk. apply andb_true_iff in Hk. destruct Hk as [H1 H2].
  split.
  - apply Z.ltb_lt. exact H1.
  - destruct (text w); [discriminate | discriminate].
Qed.

(** ** Rounding *)

Lemma round_half_even_near (q : Q) :
  (q - (1 # 2) <= inject_Z (round_half_even q) <= q + (1 # 2))%Q.
Proof.
  unfold round_half_even.
  pose proof (Qfloor_le q) as Hlo.
  pose proof (Qlt_floor q) as Hhi.
  rewrite inject_Z_plus in Hhi.
  destruct (Qcompare (q - inject_Z (Qfloor q)) (1 # 2)) eqn:Hcmp;
    [ apply Qeq_alt in Hcmp; destruct (Z.even (Qfloor q))
    | apply Qlt_alt in Hcmp
    | apply Qgt_alt in Hcmp ];
    rewrite ?inject_Z_plus;
    change (inject_Z 1) with 1%Q in *;
    generalize dependent (inject_Z (Qfloor q)); intros f; intros; lra.
Qed.

Lemma round_2_near (q : Q) :
  (q - (1 # 200) <= round q 2 <= q + (1 # 200))%Q.
Proof.
  unfold round.
  change (inject_Z (10 ^ Z.of_nat 2)) with (inject_Z 100).
  pose proof (round_half_even_near (q * inject_Z 100)) as H.
  change (inject_Z 100) with (100 # 1)%Q in *.
  generalize dependent (inject_Z (round_half_even (q * (100 # 1)))).
  intros z H.
  assert (E : (z / (100 # 1) == z * (1 # 100))%Q) by (field; discriminate).
  rewrite E. lra.
Qed.

(** ** Doubles *)

Lemma pow2_pos (k : Z) : (0 < 2 ^ k)%Q.
Proof. apply Qpower_0_lt. reflexivity. Qed.

Lemma pow2_inject (n : Z) : 0 <= n -> (inject_Z (2 ^ n) == 2 ^ n)%Q.
Proof. intros H. apply (Zpower_Qpower 2 n H). Qed.

Lemma exponent_le (q : Q) : (0 < q)%Q -> (2 ^ exponent q <= q)%Q.
Proof.
  intros Hq. unfold exponent.
  set (ln := Z.log2 (Qnum q)). set (ld := Z.log2 (Z.pos (Qden q))).
  destruct (Qle_bool (2 ^ (ln - ld)) q) eqn:E.
  - apply Qle_bool_iff. exact E.
  - assert (Hn : 0 < Qnum q).
    { destruct q as [n d]. unfold Qlt in Hq. cbn in *. lia. }
    pose proof (Z.log2_spec (Qnum q) Hn) as [Hn1 _].
    pose proof (Z.log2_spec (Z.pos (Qden q)) (Pos2Z.is_pos _)) as [_ Hd2].
    pose proof (Z.log2_nonneg (Qnum q)) as Hln.
    pose proof (Z.log2_nonneg (Z.pos (Qden q))) as Hld.
    fold ln in Hn1, Hln. fold ld in Hd2, Hld.
    replace (ln - ld - 1) with (ln - (ld + 1)) by lia.
    rewrite Qpower_minus by discriminate.
    rewrite <- (pow2_inject ln), <- (pow2_inject (ld + 1)) by lia.
    apply Qle_shift_div_r.
    + change 0%Q with (inject_Z 0). rewrite <- Zlt_Qlt. lia.
    + destruct q as [n d]. cbn [Qnum Qden] in *.
      unfold Qle, Qmult, inject_Z. cbn [Qnum Qden].
      rewrite !Z.mul_1_r, Pos.mul_1_r.
      replace (Z.succ ld) with (ld + 1) in Hd2 by lia.
      nia.
Qed.

Lemma ulp_le (q : Q) :
  (1 <= q)%Q ->
  (2 ^ Z.max (exponent q - 52) (-1074) <= q * (1 # 2 ^ 52))%Q.
Proof.
  intros Hq.
  assert (H0 : (0 < q)%Q) by lra.
  pose proof (exponent_le q H0) as He.
  destruct (Z.max_spec (exponent q - 52) (-1074)) as [[_ ->]|[_ ->]].
  - assert (E : (2 ^ (-1074) <= 2 ^ (-52))%Q).
    { apply Qpower_le_compat_l; [lia | discriminate]. }
    change (2 ^ (-52))%Q with (1 # 4503599627370496)%Q in E.
    change (1 # 2 ^ 52)%Q with (1 # 4503599627370496)%Q.
    generalize dependent (2 ^ (-1074))%Q. intros u E. lra.
  - unfold Z.sub. rewrite Qpower_plus by discriminate.
    change (2 ^ (-(52)))%Q with (1 # 4503599627370496)%Q.
    change (1 # 2 ^ 52)%Q with (1 # 4503599627370496)%Q.
    generalize dependent (2 ^ exponent q)%Q. intros p Hp. lra.
Qed.

Lemma nearest_near (q : Q) :
  (1 <= q)%Q ->
  (q - q * (1 # 2 ^ 53) <= nearest q <= q + q * (1 # 2 ^ 53))%Q.
Proof.
  intros Hq. unfold nearest.
  pose proof (ulp_le q Hq) as Hu.
  pose proof (pow2_pos (Z.max (exponent q - 52) (-1074))) as Hp.
  set (ulp := (2 ^ Z.max (exponent q - 52) (-1074))%Q) in *.
  pose proof (round_half_even_near (q / ulp)) as Hr.
  set (m := inject_Z (round_half_even (q / ulp))) in *.
  assert (E : (q == q / ulp * ulp)%Q) by (field; lra).
  assert (H1 : ((q / ulp - (1 # 2)) * ulp <= m * ulp)%Q).
  { apply Qmult_le_compat_r; lra. }
  assert (H2 : (m * ulp <= (q / ulp + (1 # 2)) * ulp)%Q).
  { apply Qmult_le_compat_r; lra. }
  assert (E1 : ((q / ulp - (1 # 2)) * ulp == q - (1 # 2) * ulp)%Q)
    by (field; lra).
  assert (E2 : ((q / ulp + (1 # 2)) * ulp == q + (1 # 2) * ulp)%Q)
    by (field; lra).
  rewrite E1 in H1. rewrite E2 in H2.
  generalize dependent (m * ulp)%Q. intros v H1 H2.
  change (1 # 2 ^ 52)%Q with (1 # 4503599627370496)%Q in Hu.
  change (1 # 2 ^ 53)%Q with (1 # 9007199254740992)%Q.
  lra.
Qed.

Lemma binary64_near (q : Q) :
  (1 <= q)%Q ->
  (q - q * (1 # 2 ^ 53) <= binary64 q <= q + q * (1 # 2 ^ 53))%Q.
Proof.
  intros Hq. unfold binary64.
  assert (H : Qcompare q 0 = Gt) by (apply Qgt_alt; lra).
  rewrite H. apply nearest_near. exact Hq.
Qed.

(** The double nearest to the two-decimal rounding of the double
    nearest to [q] is within 1/200 and four relative rounding errors
    of [q]. *)
Lemma double_round_near (q : Q) :
  (2 <= q)%Q ->
  (q - (1 # 200) - q * (1 # 2 ^ 51)
   <= binary64 (round (binary64 q) 2)
   <= q + (1 # 200) + q * (1 # 2 ^ 51))%Q.
Proof.
  intros Hq.
  assert (H1 : (1 <= q)%Q) by lra.
  pose proof (binary64_near q H1) as Ha.
  pose proof (round_2_near (binary64 q)) as Hy.
  change (1 # 2 ^ 53)%Q with (1 # 9007199254740992)%Q in Ha.
  assert (H2 : (1 <= round (binary64 q) 2)%Q).
  { generalize dependent (binary64 q). intros a Ha Hy. lra. }
  pose proof (binary64_near _ H2) as Hc.
  change (1 # 2 ^ 53)%Q with (1 # 9007199254740992)%Q in Hc.
  change (1 # 2 ^ 51)%Q with (1 # 2251799813685248)%Q.
  generalize dependent (binary64 (round (binary64 q) 2)).
  generalize dependent (round (binary64 q) 2).
  generalize dependent (binary64 q).
  intros a Ha y Hy H2 c Hc. lra.
Qed.

(** The three buckets of the quality metrics partition the words. *)
Lemma buckets_partition (ws : list Word) :
  (count (fun w => (80 <? confidence w)%Z) ws
   + count (fun w => ((60 <? confidence w) && (confidence w <=? 80))%Z) ws
   + count (fun w => (confidence w <=? 60)%Z) ws
   = List.length ws)%nat.
Proof.
  unfold count.
  induction ws as [|w ws IH]; simpl; [reflexivity|].
  destruct (Z.ltb_spec 80 (confidence w));
    destruct (Z.ltb_spec 60 (confidence w));
    destruct (Z.leb_spec (confidence w) 80);
    destruct (Z.leb_spec (confidence w) 60);
    simpl; lia.
Qed.

(** ** Recognition with confidence *)

Lemma average_is_mean (ws : list Word) :
  average_confidence ws = binary64 (mean_confidence ws).
Proof.
  destruct ws; reflexivity.
Qed.

Lemma sum_confidence_above (ws : list Word) :
  Forall (fun w => 50 < confidence w) ws ->
  51 * Z.of_nat (List.length ws) <= sum_confidence ws.
Proof.
  unfold sum_confidence.
  induction 1 as [|w ws Hw _ IH]; [cbn; lia|].
  cbn [List.map fold_right List.length]. rewrite Nat2Z.inj_succ. lia.
Qed.

Lemma mean_confidence_above (ws : list Word) :
  ws <> [] ->
  Forall (fun w => 50 < confidence w) ws ->
  (51 <= mean_confidence ws)%Q.
Proof.
  intros Hne Hall. unfold mean_confidence.
  pose proof (sum_confidence_above ws Hall) as Hs.
  assert (Hn : 0 < Z.of_nat (List.length ws)).
  { destruct ws; [congruence | cbn [List.length]; lia]. }
  apply Qle_shift_div_l.
  - change 0%Q with (inject_Z 0). rewrite <- Zlt_Qlt. exact Hn.
  - change 51%Q with (inject_Z 51).
    rewrite <- inject_Z_mult, <- Zle_Qle. exact Hs.
Qed.

(** C1, as the code has it: no returned token has a confidence below 50
    (the kept rows are those with confidence above 50 and a non-blank
    text); the reported confidence is not the arithmetic mean of the
    kept confidences but what [round(sum / len, 2)] gives on doubles:
    the double nearest to a multiple of 1/100, namely to the
    two-decimal rounding of the double nearest to the mean, so within
    1/200 (and four relative rounding errors) of the mean, and 0 when
    nothing is kept; the quality metrics count the kept tokens with
    confidence above 80, from 61 to 80, and at most 60, and the three
    counts add up to the number of tokens.  The kept confidences are
    taken below 2^1023, so that the division cannot overflow. *)
Theorem confidence_filter_rounded_mean_histogram
  (tesseract : Engine) (buffer : image) (t : trace) (data : TessData) :
  run_image_to_data tesseract buffer (py "eng") config_confidence = Ok data ->
  columns_cover data ->
  Forall (fun w => confidence w < 2 ^ 1023) (filter keeps (rows data)) ->
  exists r,
    extract_text_with_confidence tesseract buffer t
      = (Ok r, t ++ [Call_image_to_data (py "eng") config_confidence]) /\
    result_words r = filter keeps (rows data) /\
    Forall (fun w => ~ confidence w < 50) (result_words r) /\
    result_confidence r
      = binary64 (round (binary64 (mean_confidence (result_words r))) 2) /\
    (exists z, result_confidence r = binary64 (inject_Z z / inject_Z 100)) /\
    (mean_confidence (result_words r) - (1 # 200)
       - mean_confidence (result_words r) * (1 # 2 ^ 51)
     <= result_confidence r
     <= mean_confidence (result_words r) + (1 # 200)
        + mean_confidence (result_words r) * (1 # 2 ^ 51))%Q /\
    (result_words r = [] -> result_confidence r == 0)%Q /\
    high_confidence_words (quality_metrics r)
      = List.length (filter (fun w => 80 <? confidence w) (result_words r)) /\
    medium_confidence_words (quality_metrics r)
      = List.length (filter (fun w => (61 <=? confidence w)
                                      && (confidence w <=? 80))
                            (result_words r)) /\
    low_confidence_words (quality_metrics r)
      = List.length (filter (fun w => confidence w <=? 60) (result_words r)) /\
    (high_confidence_words (quality_metrics r)
     + medium_confidence_words (quality_metrics r)
     + low_confidence_words (quality_metrics r))%nat
      = List.length (result_words r) /\
    word_count r = List.length (result_words r).
Proof.
  intros Hrun Hc _.
  eexists. split.
  - apply extract_text_with_confidence_run; eassumption.
  - cbn [result_words result_confidence quality_metrics word_count
         high_confidence_words medium_confidence_words low_confidence_words].
    set (ws := filter keeps (rows data)).
    unfold float_round. rewrite average_is_mean.
    assert (Hkept : Forall (fun w => 50 < confidence w) ws).
    { pose proof (kept_words (rows data)) as H. fold ws in H.
      eapply Forall_impl; [|exact H]. cbn. intros w [Hw _]. exact Hw. }
    split; [reflexivity|].
    split.
    { eapply Forall_impl; [|exact Hkept]. cbn. intros w Hw. lia. }
    split; [reflexivity|].
    split.
    { unfold round. eexists. reflexivity. }
    split.
    { destruct ws as [|w ws'] eqn:E.
      - vm_compute. split; discriminate.
      - apply double_round_near.
        assert (H : (51 <= mean_confidence (w :: ws'))%Q)
          by (apply mean_confidence_above; [discriminate | exact Hkept]).
        generalize dependent (mean_confidence (w :: ws')). intros m Hm. lra. }
    split.
    { intros ->. reflexivity. }
    split; [reflexivity|].
    split.
    { unfold count. f_equal. apply filter_ext. intros w.
      f_equal.
      destruct (Z.ltb_spec 60 (confidence w));
        destruct (Z.leb_spec 61 (confidence w)); (reflexivity || lia). }
    split; [reflexivity|].
    split; [apply buckets_partition | reflexivity].
Qed.

Lemma confidence_filter_rounded_mean_histogram_witness :
  exists r,
    extract_text_with_confidence
      (fixed_engine [] sample_data) sample_buffer []
      = (Ok r, [Call_image_to_data (py "eng") config_confidence]) /\
    List.map confidence (result_words r) = [51; 52; 52] /\
    result_confidence r = binary64 (5167 # 100).
Proof.
  destruct (confidence_filter_rounded_mean_histogram
              (fixed_engine [] sample_data) sample_buffer [] sample_data
              eq_refl
              (conj (le_n 5) (conj (le_n 5) (conj (le_n 5)
                 (conj (le_n 5) (le_n 5))))))
    as [r (Hrun & Hwords & _ & Hconf & _)].
  - apply Forall_forall. intros w Hin. vm_compute in Hin.
    decompose [or] Hin; try contradiction; subst; reflexivity.
  - exists r. split; [exact Hrun|].
    split.
    + rewrite Hwords. reflexivity.
    + rewrite Hconf, Hwords. vm_compute. reflexivity.
Defined.

(** The reported confidence is not the arithmetic mean itself: tokens
    with confidences 51, 52 and 52 have mean 155/3 and the function
    reports the double nearest to 51.67. *)
Lemma reported_confidence_is_rounded :
  exists r,
    fst (extract_text_with_confidence
           (fixed_engine [] sample_data) sample_buffer []) = Ok r /\
    List.map confidence (result_words r) = [51; 52; 52] /\
    (mean_confidence (result_words r) == 155 # 3)%Q /\
    result_confidence r = binary64 (5167 # 100) /\
    ~ (result_confidence r == mean_confidence (result_words r))%Q.
Proof.
  eexists. split; [reflexivity|].
  split; [reflexivity|].
  split; [reflexivity|].
  split; [vm_compute; reflexivity|].
  intros H. vm_compute in H. discriminate H.
Qed.

(** The rounding is that of the double, not of the exact mean: forty
    tokens, 33 with confidence 51 and 7 with 52, have the mean 51.175,
    a tie that would go to 51.18; the double nearest to the mean lies
    below it and the function reports the double nearest to 51.17. *)
Example tie_of_the_mean_is_not_a_tie_of_the_double :
  exists r,
    fst (extract_text_with_confidence
           (fixed_engine [] forty_words) sample_buffer []) = Ok r /\
    (mean_confidence (result_words r) == 2047 # 40)%Q /\
    (round (mean_confidence (result_words r)) 2 == 5118 # 100)%Q /\
    result_confidence r = binary64 (5117 # 100).
Proof.
  eexists. split; [reflexivity|].
  split; [reflexivity|].
  split; [reflexivity|].
  vm_compute. reflexivity.
Qed.

(** A row with confidence exactly 50 is dropped: the test is strict. *)
Example confidence_50_is_dropped :
  keeps {| text := py "x"; confidence := 50;
           box := {| box_x := 0; box_y := 0;
                     box_width := 1; box_height := 1 |} |} = false.
Proof. reflexivity. Qed.

Lemma join_not_nil (sep : str) (l : list str) :
  l <> [] -> Forall (fun s => s <> []) l -> join sep l <> [].
Proof.
  destruct l as [|x [|y l]]; intros Hl Hne; [congruence| |];
    inversion Hne as [|? ? Hx _]; subst; simpl.
  - exact Hx.
  - destruct x; [congruence | discriminate].
Qed.

Lemma join_starts (sep : str) (l : list str) :
  Forall (fun s => s <> [] /\ trimmed s) l ->
  starts_with_space (join sep l) = false.
Proof.
  destruct l as [|x [|y l]]; intros H; [reflexivity| |];
    inversion H as [|? ? [Hx [Hs _]] _]; subst; simpl.
  - exact Hs.
  - rewrite starts_with_space_app by exact Hx. exact Hs.
Qed.

Lemma ends_with_space_app (a b : str) :
  b <> [] -> ends_with_space (a ++ b) = ends_with_space b.
Proof.
  intros Hb. unfold ends_with_space.
  rewrite rev_app_distr.
  apply starts_with_space_app. apply rev_not_nil. exact Hb.
Qed.

Lemma join_ends (sep : str) (l : list str) :
  Forall (fun s => s <> [] /\ trimmed s) l ->
  ends_with_space (join sep l) = false.
Proof.
  induction l as [|x l IH]; intros H; [reflexivity|].
  inversion H as [|? ? [Hx [_ He]] Hl]; subst.
  destruct l as [|y l].
  - simpl. exact He.
  - change (join sep (x :: y :: l)) with (x ++ sep ++ join sep (y :: l)).
    rewrite app_assoc, ends_with_space_app.
    + apply IH. exact Hl.
    + apply join_not_nil; [discriminate|].
      eapply Forall_impl; [|exact Hl]. cbn. tauto.
Qed.

Lemma rows_trimmed (data : TessData) :
  Forall (fun w => trimmed (text w)) (rows data).
Proof.
  unfold rows. apply Forall_map.
  apply Forall_forall. intros i _. cbn. apply strip_trimmed.
Qed.

Lemma kept_rows_text (data : TessData) :
  Forall (fun w => text w <> [] /\ trimmed (text w))
         (filter keeps (rows data)).
Proof.
  apply Forall_forall. intros w Hin.
  pose proof (kept_words (rows data)) as Hk.
  rewrite Forall_forall in Hk. destruct (Hk w Hin) as [_ Hne].
  split; [exact Hne|].
  apply filter_In in Hin. destruct Hin as [Hin _].
  pose proof (rows_trimmed data) as Ht.
  rewrite Forall_forall in Ht. apply Ht. exact Hin.
Qed.

(** The kept texts depend on the text and confidence columns only, not
    on where the engine found the words. *)
Lemma kept_texts_ignore_layout (data data' : TessData) :
  data_text data' = data_text data ->
  data_conf data' = data_conf data ->
  List.map text (filter keeps (rows data'))
  = List.map text (filter keeps (rows data)).
Proof.
  intros Ht Hc. unfold rows. rewrite Ht.
  induction (seq 0 (List.length (data_text data))) as [|i idxs IH];
    [reflexivity|].
  cbn [List.map filter].
  assert (Hk : keeps (row data' i) = keeps (row data i))
    by (unfold keeps, row; cbn; rewrite Ht, Hc; reflexivity).
  rewrite Hk. destruct (keeps (row data i)); cbn [List.map].
  - rewrite IH. f_equal. unfold row. cbn. rewrite Ht. reflexivity.
  - exact IH.
Qed.

(** C10: the text of [extract_text_with_confidence] is the texts of the
    kept tokens, in the order of the engine's rows, joined by one space;
    each token text is non-empty and has no whitespace at either end,
    and neither has the joined text.  Where the engine placed the words,
    on one line or on several, close or far apart, does not show in it:
    a table with the same texts and confidences at other positions
    gives the same text. *)
Theorem confidence_text_is_joined_tokens
  (tesseract : Engine) (buffer : image) (t : trace) (data : TessData) :
  run_image_to_data tesseract buffer (py "eng") config_confidence = Ok data ->
  columns_cover data ->
  exists r,
    fst (extract_text_with_confidence tesseract buffer t) = Ok r /\
    result_words r = filter keeps (rows data) /\
    result_text r = join (py " ") (List.map text (result_words r)) /\
    Forall (fun w => text w <> [] /\ trimmed (text w)) (result_words r) /\
    trimmed (result_text r) /\
    forall tesseract' data',
      run_image_to_data tesseract' buffer (py "eng") config_confidence
        = Ok data' ->
      columns_cover data' ->
      data_text data' = data_text data ->
      data_conf data' = data_conf data ->
      exists r',
        fst (extract_text_with_confidence tesseract' buffer t) = Ok r' /\
        result_text r' = result_text r.
Proof.
  intros Hrun Hc.
  eexists. split.
  - rewrite (extract_text_with_confidence_run _ _ _ _ Hrun Hc). reflexivity.
  - cbn [result_words result_text].
    pose proof (kept_rows_text data) as Hk.
    assert (Ht : Forall (fun s => s <> [] /\ trimmed s)
                        (List.map text (filter keeps (rows data)))).
    { apply Forall_map. exact Hk. }
    split; [reflexivity|]. split; [reflexivity|]. split; [exact Hk|].
    split.
    + split; [apply join_starts | apply join_ends]; exact Ht.
    + intros tesseract' data' Hrun' Hc' Htext Hconf.
      eexists. split.
      * rewrite (extract_text_with_confidence_run _ _ _ _ Hrun' Hc').
        reflexivity.
      * cbn [result_text].
        rewrite (kept_texts_ignore_layout data data' Htext Hconf).
        reflexivity.
Qed.

Lemma confidence_text_is_joined_tokens_witness :
  exists r,
    fst (extract_text_with_confidence
           (fixed_engine [] sample_data) sample_buffer []) = Ok r /\
    result_text r = py "def f(x): return".
Proof.
  destruct (confidence_text_is_joined_tokens
              (fixed_engine [] sample_data) sample_buffer [] sample_data
              eq_refl
              (conj (le_n 5) (conj (le_n 5) (conj (le_n 5)
                 (conj (le_n 5) (le_n 5))))))
    as [r (Hrun & Hwords & Htext & _)].
  exists r. split; [exact Hrun|].
  rewrite Htext, Hwords. reflexivity.
Defined.

(** Line breaks and spacing are lost in this mode and kept in code
    mode: two words give the same text whether the engine found them on
    one line or on two, while [extract_code] returns the line break and
    the run of spaces it is given. *)
Example confidence_text_forgets_layout :
  (exists r1 r2,
     fst (extract_text_with_confidence
            (fixed_engine [] one_line_data) sample_buffer []) = Ok r1 /\
     fst (extract_text_with_confidence
            (fixed_engine [] two_line_data) sample_buffer []) = Ok r2 /\
     result_text r1 = py "a b" /\ result_text r2 = py "a b") /\
  fst (extract_code (fixed_engine (py "a   b") empty_data) sample_buffer [])
    = Ok (py "a   b") /\
  fst (extract_code (fixed_engine (py "a" ++ newline ++ py "b") empty_data)
                    sample_buffer [])
    = Ok (py "a" ++ newline ++ py "b").
Proof.
  split.
  - eexists. eexists. repeat split.
  - split; reflexivity.
Qed.




(** ** Thresholding and sharpening *)

Lemma mapi_from_length {A B} (f : Z -> A -> B) (l : list A) (i : Z) :
  List.length (mapi_from i f l) = List.length l.
Proof.
  revert i. induction l as [|a l IH]; intros i; simpl; [|rewrite IH];
    reflexivity.
Qed.

Lemma mapi_from_Forall {A B} (P : B -> Prop) (f : Z -> A -> B) (l : list A) :
  (forall i a, P (f i a)) -> forall i, Forall P (mapi_from i f l).
Proof.
  intros H. induction l as [|a l IH]; intros i; simpl; constructor; auto.
Qed.

Lemma mapi_from_ext {A B} (f g : Z -> A -> B) (l : list A) :
  (forall i a, f i a = g i a) ->
  forall i, mapi_from i f l = mapi_from i g l.
Proof.
  intros H. induction l as [|a l IH]; intros i; simpl; [reflexivity|].
  rewrite H, IH. reflexivity.
Qed.

Lemma threshold_binary_is_binary (t : Z) (src : image) :
  binary_image (threshold_binary t 255 src).
Proof.
  unfold binary_image, threshold_binary.
  apply Forall_map. apply Forall_forall. intros r _.
  apply Forall_map. apply Forall_forall. intros v _.
  unfold binary_pixel. destruct (t <? v); auto.
Qed.

Lemma threshold_binary_shape (t m : Z) (src : image) :
  same_shape (threshold_binary t m src) src.
Proof.
  unfold same_shape, threshold_binary.
  rewrite map_map. apply map_ext. intros r. apply length_map.
Qed.

Lemma mapi_rows_shape {B} (g : Z -> Z -> Z -> B) (l : image) (i : Z) :
  List.map (@List.length B)
           (mapi_from i (fun r row => mapi_from 0 (g r) row) l)
  = List.map (@List.length Z) l.
Proof.
  revert i. induction l as [|row l IH]; intros i; simpl.
  - reflexivity.
  - rewrite mapi_from_length, IH. reflexivity.
Qed.

Lemma correlate_shape (src : image) (k : list (list Z)) :
  same_shape (correlate src k) src.
Proof.
  unfold same_shape, correlate. apply mapi_rows_shape.
Qed.

Lemma binary_pixel_at (src : image) (r c : Z) :
  binary_image src -> binary_pixel (pixel_at src r c).
Proof.
  intros H. unfold pixel_at.
  assert (Hrow : Forall binary_pixel (nth (Z.to_nat r) src [])).
  { destruct (nth_in_or_default (Z.to_nat r) src []) as [Hin | ->].
    - unfold binary_image in H. rewrite Forall_forall in H. auto.
    - constructor. }
  destruct (nth_in_or_default (Z.to_nat c) (nth (Z.to_nat r) src []) 0)
    as [Hin | ->].
  - rewrite Forall_forall in Hrow. auto.
  - left. reflexivity.
Qed.

(** The nine terms of the sharpening filter. *)
Lemma correlate_at_kernel (src : image) (r c : Z) :
  let p := fun dr dc =>
    pixel_at src
      (borderInterpolate (r + dr) (Z.of_nat (List.length src)))
      (borderInterpolate (c + dc) (Z.of_nat (List.length (nth 0 src [])))) in
  correlate_at src kernel r c
  = 9 * p 0 0
    - (p (-1) (-1) + p (-1) 0 + p (-1) 1
       + p 0 (-1) + p 0 1
       + p 1 (-1) + p 1 0 + p 1 1).
Proof.
  intros p. unfold correlate_at, kernel.
  cbn [sumi_from List.length nth].
  change (Z.of_nat 3 / 2) with 1.
  change (0 + 1 + 1) with 2. change (0 + 1) with 1.
  replace (r + 0 - 1) with (r + -1) by lia.
  replace (r + 1 - 1) with (r + 0) by lia.
  replace (r + 2 - 1) with (r + 1) by lia.
  replace (c + 0 - 1) with (c + -1) by lia.
  replace (c + 1 - 1) with (c + 0) by lia.
  replace (c + 2 - 1) with (c + 1) by lia.
  subst p. cbv beta. ring.
Qed.

(** The nine pixels under the kernel, each known to be 0 or 255. *)
Ltac under_kernel Hp :=
  pose proof (Hp 0 0); pose proof (Hp (-1) (-1)); pose proof (Hp (-1) 0);
  pose proof (Hp (-1) 1); pose proof (Hp 0 (-1)); pose proof (Hp 0 1);
  pose proof (Hp 1 (-1)); pose proof (Hp 1 0); pose proof (Hp 1 1).

(** On a black-and-white image the filter changes nothing that matters:
    every saturated sum is again 0 or 255. *)
Lemma sharpen_binary_pixel (src : image) (r c : Z) :
  binary_image src ->
  binary_pixel (saturate_cast (correlate_at src kernel r c)).
Proof.
  intros Hb.
  rewrite correlate_at_kernel. cbv zeta beta.
  set (rows := Z.of_nat (List.length src)).
  set (cols := Z.of_nat (List.length (nth 0 src []))).
  assert (Hp : forall dr dc,
             binary_pixel (pixel_at src (borderInterpolate (r + dr) rows)
                                        (borderInterpolate (c + dc) cols)))
    by (intros; apply binary_pixel_at; exact Hb).
  under_kernel Hp.
  unfold binary_pixel, saturate_cast in *. lia.
Qed.

Lemma correlate_kernel_binary (src : image) :
  binary_image src -> binary_image (correlate src kernel).
Proof.
  intros Hb. unfold binary_image, correlate.
  apply mapi_from_Forall. intros r row.
  apply mapi_from_Forall. intros c _.
  apply sharpen_binary_pixel. exact Hb.
Qed.

Lemma mapi_from_id {A} (f : Z -> A -> A) (l : list A) (i : Z) :
  (forall k a, nth_error l k = Some a -> f (i + Z.of_nat k) a = a) ->
  mapi_from i f l = l.
Proof.
  revert i. induction l as [|a l IH]; intros i H; simpl; [reflexivity|].
  f_equal.
  - specialize (H 0%nat a eq_refl).
    rewrite Z.add_0_r in H. exact H.
  - apply IH. intros k b Hk.
    specialize (H (S k) b Hk).
    replace (i + 1 + Z.of_nat k) with (i + Z.of_nat (S k)) by lia.
    exact H.
Qed.

Lemma borderInterpolate_inside (p n : Z) :
  0 <= p < n -> borderInterpolate p n = p.
Proof.
  intros H. unfold borderInterpolate.
  destruct (Z.leb_spec 0 p); destruct (Z.ltb_spec p n);
    (reflexivity || lia).
Qed.

(** On a rectangular black-and-white image the sharpening filter is the
    identity: the buffer [preprocess_image_fast] returns is the
    thresholded image itself. *)
Lemma sharpen_binary_is_identity (w h : nat) (b : image) :
  well_formed w h b -> binary_image b -> correlate b kernel = b.
Proof.
  intros [Hh Hrows] Hb. unfold correlate.
  apply mapi_from_id. intros r row Hrow.
  apply mapi_from_id. intros c v Hv.
  rewrite !Z.add_0_l, correlate_at_kernel. cbv zeta beta.
  assert (Hr : (r < List.length b)%nat)
    by (apply nth_error_Some; congruence).
  assert (Hlen : forall k, (k < List.length b)%nat ->
                           List.length (nth k b []) = w).
  { intros k Hk. rewrite Forall_forall in Hrows.
    apply (Hrows (nth k b [])). apply nth_In. exact Hk. }
  assert (Hc : (c < w)%nat).
  { rewrite <- (Hlen r Hr).
    rewrite (nth_error_nth b r [] Hrow).
    apply nth_error_Some. congruence. }
  rewrite (Hlen 0%nat) by lia.
  set (rows := Z.of_nat (List.length b)).
  set (cols := Z.of_nat w).
  assert (Hp : forall dr dc,
             binary_pixel
               (pixel_at b (borderInterpolate (Z.of_nat r + dr) rows)
                           (borderInterpolate (Z.of_nat c + dc) cols)))
    by (intros; apply binary_pixel_at; exact Hb).
  assert (Hcentre :
            pixel_at b (borderInterpolate (Z.of_nat r + 0) rows)
                       (borderInterpolate (Z.of_nat c + 0) cols) = v).
  { rewrite !borderInterpolate_inside by (subst rows cols; lia).
    unfold pixel_at. rewrite !Z.add_0_r, !Nat2Z.id.
    rewrite (nth_error_nth b r [] Hrow).
    apply nth_error_nth. exact Hv. }
  under_kernel Hp. rewrite Hcentre in *.
  unfold binary_pixel, saturate_cast in *. lia.
Qed.

(** ** The fast preprocessor *)

(** What a run of [preprocess_image_fast] returns and logs. *)
Lemma preprocess_image_fast_run
  (codec : list byte -> option decoded) (bgr2gray : Z * Z * Z -> Z)
  (image_bytes : list byte) (t : trace) :
  preprocess_image_fast codec bgr2gray image_bytes t
  = match codec image_bytes with
    | None =>
        (Raise Cv2Error,
         t ++ [Call_imdecode IMREAD_GRAYSCALE;
               Call_threshold 0 255 (THRESH_BINARY + THRESH_OTSU)])
    | Some d =>
        let g := spec_grayscale bgr2gray d in
        (Ok (correlate
               (threshold_binary (otsu_threshold (concat g)) 255 g) kernel),
         t ++ fast_calls)
    end.
Proof.
  unfold preprocess_image_fast, imdecode_grayscale, threshold, filter2D,
    np_frombuffer, fast_calls.
  rewrite bind_lib_call.
  destruct (codec image_bytes) as [[g|c]|];
    rewrite bind_lib_call; cbn -[otsu_threshold correlate kernel];
    try rewrite bind_lib_call; unfold ret;
    rewrite <- ?app_assoc; reflexivity.
Qed.

(** C5: whenever the bytes decode to an image, [preprocess_image_fast]
    returns a buffer of the decoded image's shape in which every pixel
    is 0 or 255: the sharpening filter, applied to the thresholded
    image with saturation, cannot produce a value in between. *)
Theorem preprocess_image_fast_output_is_binary
  (codec : list byte -> option decoded) (bgr2gray : Z * Z * Z -> Z)
  (image_bytes : list byte) (d : decoded) (t : trace) :
  codec image_bytes = Some d ->
  exists out,
    fst (preprocess_image_fast codec bgr2gray image_bytes t) = Ok out /\
    binary_image out /\
    same_shape out (spec_grayscale bgr2gray d).
Proof.
  intros Hd. rewrite preprocess_image_fast_run, Hd. cbv zeta.
  eexists. split; [reflexivity|]. split.
  - apply correlate_kernel_binary, threshold_binary_is_binary.
  - unfold same_shape.
    rewrite (correlate_shape _ kernel). apply threshold_binary_shape.
Qed.

Lemma preprocess_image_fast_output_is_binary_witness :
  exists out,
    fst (preprocess_image_fast toy_codec toy_bgr2gray toy_bytes []) = Ok out /\
    binary_image out /\
    same_shape out [[10; 20; 200]; [12; 210; 220]].
Proof.
  exact (preprocess_image_fast_output_is_binary
           toy_codec toy_bgr2gray toy_bytes
           (Gray [[10; 20; 200]; [12; 210; 220]]) [] eq_refl).
Defined.

(** ** Otsu's threshold *)

(** The two classes of a level partition every sum over the pixels. *)
Lemma total_partition (f : Z -> Z) (t : Z) (px : list Z) :
  total (List.map f (below t px)) + total (List.map f (above t px))
  = total (List.map f px).
Proof.
  unfold below, above, total.
  induction px as [|v px IH]; simpl; [reflexivity|].
  destruct (v <=? t); simpl; lia.
Qed.

Lemma len_partition (t : Z) (px : list Z) :
  len (below t px) + len (above t px) = len px.
Proof.
  unfold below, above, len.
  induction px as [|v px IH]; simpl; [reflexivity|].
  destruct (v <=? t); simpl List.length; lia.
Qed.

Lemma total_below (t : Z) (px : list Z) :
  total (below t px) <= t * len (below t px).
Proof.
  unfold below, total, len.
  induction px as [|v px IH]; simpl; [lia|].
  destruct (Z.leb_spec v t); simpl fold_right; simpl List.length; lia.
Qed.

Lemma total_above (t : Z) (px : list Z) :
  (t + 1) * len (above t px) <= total (above t px).
Proof.
  unfold above, total, len.
  induction px as [|v px IH]; simpl; [lia|].
  destruct (Z.leb_spec v t); simpl fold_right; simpl List.length; lia.
Qed.

Lemma len_nonneg (xs : list Z) : 0 <= len xs.
Proof. unfold len. lia. Qed.

Lemma splits_inhabited (px : list Z) (t : Z) :
  splits px t = true -> 0 < len (below t px) /\ 0 < len (above t px).
Proof.
  unfold splits. intros H.
  apply andb_true_iff in H. destruct H as [H1 H2].
  apply negb_true_iff, Z.eqb_neq in H1.
  apply negb_true_iff, Z.eqb_neq in H2.
  pose proof (len_nonneg (below t px)). pose proof (len_nonneg (above t px)).
  lia.
Qed.

(** Positivity of an integer seen as a rational. *)
Ltac inject_pos :=
  change 0%Q with (inject_Z 0); rewrite <- Zlt_Qlt; try assumption; try lia.

Lemma mean_below (t : Z) (px : list Z) :
  0 < len (below t px) -> (mean (below t px) <= inject_Z t)%Q.
Proof.
  intros Hn. unfold mean.
  apply Qle_shift_div_r.
  - inject_pos.
  - rewrite <- inject_Z_mult, <- Zle_Qle. apply total_below.
Qed.

Lemma mean_above (t : Z) (px : list Z) :
  0 < len (above t px) -> (inject_Z (t + 1) <= mean (above t px))%Q.
Proof.
  intros Hn. unfold mean.
  apply Qle_shift_div_l.
  - inject_pos.
  - rewrite <- inject_Z_mult, <- Zle_Qle. apply total_above.
Qed.

(** The class means of a splitting level differ, so its between-class
    variance is positive. *)
Lemma between_class_variance_pos (px : list Z) (t : Z) :
  splits px t = true -> (0 < between_class_variance px t)%Q.
Proof.
  intros Hs. destruct (splits_inhabited px t Hs) as [H1 H2].
  pose proof (mean_below t px H1) as Hb.
  pose proof (mean_above t px H2) as Ha.
  pose proof (len_partition t px) as Hp.
  unfold between_class_variance.
  assert (Hn1 : (0 < inject_Z (len (below t px)))%Q) by inject_pos.
  assert (Hn2 : (0 < inject_Z (len (above t px)))%Q) by inject_pos.
  assert (Hn : (0 < inject_Z (len px))%Q) by inject_pos.
  assert (Hd : (0 < mean (above t px) - mean (below t px))%Q).
  { rewrite inject_Z_plus in Ha. change (inject_Z 1) with 1%Q in Ha.
    generalize dependent (mean (above t px)).
    generalize dependent (mean (below t px)).
    generalize dependent (inject_Z t). intros; lra. }
  assert (Hsq : ((mean (below t px) - mean (above t px))
                 * (mean (below t px) - mean (above t px))
                 == (mean (above t px) - mean (below t px))
                    * (mean (above t px) - mean (below t px)))%Q) by ring.
  rewrite Hsq.
  apply Qmult_lt_0_compat;
    [ apply Qmult_lt_0_compat | apply Qmult_lt_0_compat; exact Hd ];
    (apply Qlt_shift_div_l; [exact Hn | rewrite Qmult_0_l; assumption]).
Qed.

Lemma otsu_step_inv (px seen : list Z) (st : Q * Z) (i : Z) :
  otsu_inv px seen st -> otsu_inv px (seen ++ [i]) (otsu_step px st i).
Proof.
  destruct st as [ms mv]. intros [Hmax Hst]. unfold otsu_step.
  destruct (splits px i) eqn:Hs.
  - destruct (Qcompare (between_class_variance px i) ms) eqn:Hcmp.
    + apply Qeq_alt in Hcmp. split; cbn [fst snd] in *.
      * intros t Hin Ht. apply in_app_or in Hin.
        destruct Hin as [Hin | [<- | []]]; [auto|].
        rewrite Hcmp. apply Qle_refl.
      * destruct Hst as [H | (Hin & H1 & H2)]; [left; exact H|].
        right. split; [apply in_or_app; left; exact Hin | auto].
    + apply Qlt_alt in Hcmp. split; cbn [fst snd] in *.
      * intros t Hin Ht. apply in_app_or in Hin.
        destruct Hin as [Hin | [<- | []]]; [auto|].
        apply Qlt_le_weak. exact Hcmp.
      * destruct Hst as [H | (Hin & H1 & H2)]; [left; exact H|].
        right. split; [apply in_or_app; left; exact Hin | auto].
    + apply Qgt_alt in Hcmp. split; cbn [fst snd] in *.
      * intros t Hin Ht. apply in_app_or in Hin.
        destruct Hin as [Hin | [<- | []]].
        -- apply Qle_trans with ms; [auto | apply Qlt_le_weak; exact Hcmp].
        -- apply Qle_refl.
      * right. split; [apply in_or_app; right; left; reflexivity | auto].
  - split; cbn [fst snd] in *.
    + intros t Hin Ht. apply in_app_or in Hin.
      destruct Hin as [Hin | [<- | []]]; [auto | congruence].
    + destruct Hst as [H | (Hin & H1 & H2)]; [left; exact H|].
      right. split; [apply in_or_app; left; exact Hin | auto].
Qed.

Lemma otsu_scan_inv (px : list Z) (todo seen : list Z) (st : Q * Z) :
  otsu_inv px seen st ->
  otsu_inv px (seen ++ todo) (fold_left (otsu_step px) todo st).
Proof.
  revert seen st. induction todo as [|i todo IH]; intros seen st H; simpl.
  - rewrite app_nil_r. exact H.
  - replace (seen ++ i :: todo) with ((seen ++ [i]) ++ todo)
      by (rewrite <- app_assoc; reflexivity).
    apply IH, otsu_step_inv, H.
Qed.

Lemma In_levels (t : Z) : In t levels <-> 0 <= t <= 255.
Proof.
  unfold levels. rewrite in_map_iff. split.
  - intros [n [<- Hn]]. apply in_seq in Hn. lia.
  - intros H. exists (Z.to_nat t). split; [lia|].
    apply in_seq. lia.
Qed.

(** When some level splits the pixels, the scan returns a splitting
    level of largest between-class variance. *)
Lemma otsu_threshold_maximizes (px : list Z) :
  (exists t', 0 <= t' <= 255 /\ splits px t' = true) ->
  0 <= otsu_threshold px <= 255 /\
  splits px (otsu_threshold px) = true /\
  forall t', 0 <= t' <= 255 -> splits px t' = true ->
    (between_class_variance px t'
     <= between_class_variance px (otsu_threshold px))%Q.
Proof.
  intros [t0 [Hr0 Hs0]].
  assert (Hinit : otsu_inv px [] (0%Q, 0)).
  { split; [intros t []|]. left. split; reflexivity. }
  pose proof (otsu_scan_inv px levels [] _ Hinit) as [Hmax Hst].
  rewrite app_nil_l in Hmax, Hst.
  unfold otsu_threshold.
  destruct (fold_left (otsu_step px) levels (0%Q, 0)) as [ms mv].
  cbn [fst snd] in *.
  destruct Hst as [[Hz _] | (Hin & Hs & Heq)].
  - exfalso.
    pose proof (Hmax t0 (proj2 (In_levels t0) Hr0) Hs0) as Hle.
    pose proof (between_class_variance_pos px t0 Hs0) as Hpos.
    rewrite Hz in Hle.
    apply (Qlt_irrefl 0). eapply Qlt_le_trans; eassumption.
  - split; [apply In_levels; exact Hin|].
    split; [exact Hs|].
    intros t' Hr Hs'. rewrite <- Heq.
    apply Hmax; [apply In_levels; exact Hr | exact Hs'].
Qed.

Lemma len_map (f : Z -> Z) (xs : list Z) : len (List.map f xs) = len xs.
Proof. unfold len. rewrite length_map. reflexivity. Qed.

Lemma total_split (t : Z) (px : list Z) :
  total px = total (below t px) + total (above t px).
Proof.
  pose proof (total_partition (fun v => v) t px) as H.
  rewrite !map_id in H. symmetry. exact H.
Qed.

(** The total variance is the intra-class variance plus the
    between-class variance, at every splitting level. *)
Lemma variance_decomposition (px : list Z) (t : Z) :
  splits px t = true ->
  (intra_class_variance px t
   == variance px - between_class_variance px t)%Q.
Proof.
  intros Hs. destruct (splits_inhabited px t Hs) as [H1 H2].
  unfold intra_class_variance, between_class_variance, variance, mean.
  rewrite !len_map.
  rewrite (total_split t px).
  rewrite <- (total_partition (fun v => v * v) t px).
  rewrite <- (len_partition t px).
  rewrite !inject_Z_plus.
  assert (Hn1 : ~ (inject_Z (len (below t px)) == 0)%Q).
  { change 0%Q with (inject_Z 0). rewrite inject_Z_injective. lia. }
  assert (Hn2 : ~ (inject_Z (len (above t px)) == 0)%Q).
  { change 0%Q with (inject_Z 0). rewrite inject_Z_injective. lia. }
  assert (Hn : ~ (inject_Z (len (below t px))
                  + inject_Z (len (above t px)) == 0)%Q).
  { rewrite <- inject_Z_plus. change 0%Q with (inject_Z 0).
    rewrite inject_Z_injective. lia. }
  generalize dependent (inject_Z (len (below t px))).
  generalize dependent (inject_Z (len (above t px))).
  intros n2 Hn2 n1 Hn1 Hn.
  field. auto.
Qed.

(** Otsu's level minimizes the intra-class variance. *)
Lemma otsu_threshold_minimizes (px : list Z) :
  (exists t', 0 <= t' <= 255 /\ splits px t' = true) ->
  minimizes_intra_class_variance px (otsu_threshold px).
Proof.
  intros Hex.
  destruct (otsu_threshold_maximizes px Hex) as (Hr & Hs & Hmax).
  split; [exact Hr|]. split; [exact Hs|].
  intros t' Hr' Hs'.
  rewrite (variance_decomposition px _ Hs), (variance_decomposition px _ Hs').
  pose proof (Hmax t' Hr' Hs') as Hle.
  generalize dependent (between_class_variance px (otsu_threshold px)).
  generalize dependent (between_class_variance px t').
  generalize (variance px). intros; lra.
Qed.

(** ** The stages of the specification *)

Lemma threshold_binary_is_spec_binarize (t : Z) (g : image) :
  threshold_binary t 255 g = spec_binarize t g.
Proof.
  unfold threshold_binary, spec_binarize.
  apply map_ext. intros r. apply map_ext. intros v.
  destruct (Z.ltb_spec t v); destruct (Z.leb_spec v t); (reflexivity || lia).
Qed.

(** The kernel is its own mirror image, so correlating with it is
    convolving with it. *)
Lemma convolve_at_kernel (src : image) (r c : Z) :
  convolve_at src kernel r c = correlate_at src kernel r c.
Proof.
  rewrite correlate_at_kernel. cbv zeta beta.
  unfold convolve_at, kernel.
  cbn [sumi_from List.length nth].
  change (0 + 1 + 1) with 2. change (0 + 1) with 1.
  replace (r - (0 - 1)) with (r + 1) by lia.
  replace (r - (1 - 1)) with (r + 0) by lia.
  replace (r - (2 - 1)) with (r + -1) by lia.
  replace (c - (0 - 1)) with (c + 1) by lia.
  replace (c - (1 - 1)) with (c + 0) by lia.
  replace (c - (2 - 1)) with (c + -1) by lia.
  ring.
Qed.

Lemma correlate_is_spec_sharpen (b : image) :
  correlate b kernel = spec_sharpen b.
Proof.
  unfold correlate, spec_sharpen.
  apply mapi_from_ext. intros r row.
  apply mapi_from_ext. intros c _.
  rewrite convolve_at_kernel. reflexivity.
Qed.

(** C6: [preprocess_image_fast] is the staged pipeline of the
    specification.  When the bytes decode, it returns a buffer that the
    stages decode, grayscale, binarize at the level minimizing the
    intra-class variance, convolve with the 3x3 sharpening kernel
    produce, and it has called each of the three library stages exactly
    once, in this order; when they do not decode, the thresholding stage
    raises. *)
Theorem preprocess_image_fast_is_staged_pipeline
  (codec : list byte -> option decoded) (bgr2gray : Z * Z * Z -> Z)
  (image_bytes : list byte) (t : trace) :
  match codec image_bytes with
  | Some _ =>
      exists out,
        preprocess_image_fast codec bgr2gray image_bytes t
          = (Ok out,
             t ++ [Call_imdecode IMREAD_GRAYSCALE;
                   Call_threshold 0 255 (THRESH_BINARY + THRESH_OTSU);
                   Call_filter2D (-1) kernel]) /\
        prepare_fast codec bgr2gray image_bytes out
  | None =>
      fst (preprocess_image_fast codec bgr2gray image_bytes t)
        = Raise Cv2Error
  end.
Proof.
  rewrite preprocess_image_fast_run.
  destruct (codec image_bytes) as [d|] eqn:Hd; [|reflexivity].
  cbv zeta. eexists. split; [reflexivity|].
  unfold prepare_fast, spec_decode.
  exists d, (otsu_threshold (concat (spec_grayscale bgr2gray d))).
  split; [exact Hd|]. split.
  - apply otsu_threshold_minimizes.
  - rewrite threshold_binary_is_spec_binarize.
    apply correlate_is_spec_sharpen.
Qed.

(** On the toy image the level found is 20, between the dark and the
    bright pixels. *)
Example otsu_threshold_toy :
  otsu_threshold [10; 20; 200; 12; 210; 220] = 20.
Proof. vm_compute. reflexivity. Qed.

(** ** Mode dispatch *)

Lemma eqb_eq (a b : str) : PyStr.eqb a b = true <-> a = b.
Proof.
  revert b. induction a as [|x a IH]; intros [|y b]; simpl;
    try (split; (discriminate || reflexivity)).
  rewrite andb_true_iff, N.eqb_eq, IH.
  split.
  - intros [-> ->]. reflexivity.
  - intros H. inversion H. auto.
Qed.

Lemma lookup_mode_None (names : list (str * Mode)) (mode : str) :
  ~ In mode (List.map fst names) -> lookup_mode names mode = None.
Proof.
  induction names as [|[name m] names IH]; simpl; intros H; [reflexivity|].
  destruct (PyStr.eqb mode name) eqn:E.
  - apply eqb_eq in E. exfalso. apply H. left. symmetry. exact E.
  - apply IH. intros Hin. apply H. right. exact Hin.
Qed.

(** C9: a mode string other than fast, accurate, code and confidence
    makes the dispatch raise [UnsupportedModeError] with the trace of
    library calls unchanged, whatever the preprocessor and the engine
    are: nothing was decoded, filtered or recognized. *)
Theorem unrecognized_mode_is_rejected
  (tesseract : Engine) (prepare : Mode -> list byte -> M image)
  (mode : str) (image_bytes : list byte) (t : trace) :
  ~ In mode [py "fast"; py "accurate"; py "code"; py "confidence"] ->
  dispatch tesseract prepare mode image_bytes t
  = (Raise (UnsupportedModeError mode), t).
Proof.
  intros H. unfold dispatch.
  rewrite (lookup_mode_None mode_names mode H). reflexivity.
Qed.

Lemma unrecognized_mode_is_rejected_witness :
  dispatch (fixed_engine (py "text") sample_data)
           (fun _ => preprocess_image_fast toy_codec toy_bgr2gray)
           (py "turbo") toy_bytes []
  = (Raise (UnsupportedModeError (py "turbo")), []).
Proof.
  apply unrecognized_mode_is_rejected.
  intros [H | [H | [H | [H | []]]]]; discriminate H.
Defined.

(** A recognized mode does run its preprocessor and recognizer. *)
Example fast_mode_runs_the_pipeline :
  dispatch (fixed_engine (py " text ") sample_data)
           (fun _ => preprocess_image_fast toy_codec toy_bgr2gray)
           (py "fast") toy_bytes []
  = (Ok (Text (py "text")),
     fast_calls ++ [Call_image_to_string (py "eng") config_fast]).
Proof. vm_compute. reflexivity. Qed.

(* ================================================================== *)
(** * Further properties of the backend *)
(* ================================================================== *)

(** ** The other functions of the engine module *)

(** X1: [extract_text_accurate] makes a single pass: one call of the
    engine, for English, with engine mode 3, fully automatic page
    segmentation (3), the seven dictionaries loaded, dictionary and
    bigram correction on, the two language-model penalties 0.5 and 0.3,
    inter-word spaces preserved and five noise characters blacklisted;
    the recognized text comes back stripped at both ends, an exception
    of the engine as it is.  No second pass with another segmentation
    is made and nothing is combined. *)
Theorem extract_text_accurate_single_pass
  (tesseract : Engine) (buffer : image) (t : trace) :
  snd (extract_text_accurate tesseract buffer t)
    = t ++ [Call_image_to_string (py "eng") config_accurate] /\
  config_option "--oem" config_accurate = Some (py "3") /\
  config_option "--psm" config_accurate = Some (py "3") /\
  List.map (fun name => last_variable name
                          (parse_args (split config_accurate)))
    [py "load_system_dawg"; py "load_freq_dawg"; py "load_punc_dawg";
     py "load_number_dawg"; py "load_unambig_dawg"; py "load_bigram_dawg";
     py "load_fixed_length_dawgs"; py "tessedit_enable_dict_correction";
     py "tessedit_enable_bigram_correction"; py "preserve_interword_spaces"]
    = repeat (Some (py "1")) 10 /\
  config_variable "language_model_penalty_non_dict_word" config_accurate
    = Some (py "0.5") /\
  config_variable "language_model_penalty_non_freq_dict_word" config_accurate
    = Some (py "0.3") /\
  config_variable "tessedit_char_blacklist" config_accurate
    = Some [169; 174; 8482; 167; 182]%N /\
  match run_image_to_string tesseract buffer (py "eng") config_accurate with
  | Ok recognized =>
      exists ws1 out ws2,
        fst (extract_text_accurate tesseract buffer t) = Ok out /\
        recognized = ws1 ++ out ++ ws2 /\
        all_space ws1 /\ all_space ws2 /\ trimmed out
  | Raise e => fst (extract_text_accurate tesseract buffer t) = Raise e
  end.
Proof.
  unfold extract_text_accurate, image_to_string, Image_fromarray.
  rewrite bind_lib_call.
  destruct (run_image_to_string tesseract buffer (py "eng") config_accurate)
    as [recognized|e].
  - repeat (split; [reflexivity|]).
    destruct (strip_decompose recognized) as [ws1 [ws2 [H [H1 H2]]]].
    exists ws1, (strip recognized), ws2.
    repeat split; try assumption; try apply strip_trimmed.
  - repeat (split; [reflexivity|]). reflexivity.
Qed.

Lemma existsb_eqb_In (s : str) (l : list str) :
  existsb (PyStr.eqb s) l = true <-> In s l.
Proof.
  rewrite existsb_exists. split.
  - intros [x [Hin Hx]]. apply eqb_eq in Hx. subst. exact Hin.
  - intros Hin. exists s. split; [exact Hin | apply eqb_eq; reflexivity].
Qed.

(** X2: [test_tesseract_installation] catches every [Exception] of the
    engine and nothing else.  It answers [status 'ok'] exactly when both
    the version and the language query succeed, with [eng_available]
    true exactly when ['eng'] is among the languages; when either query
    raises an [Exception] it answers [status 'error'] with the text of
    the exception and the fixed message; an exception that is no
    [Exception], such as the [SystemExit] of a version that cannot be
    read, escapes the function.  After a failed version query the
    languages are not asked for. *)
Theorem test_tesseract_installation_catches_exceptions
  (tesseract : Engine) (t : trace) :
  match run_get_tesseract_version tesseract, run_get_languages tesseract with
  | Ok version, Ok langs =>
      exists eng,
        test_tesseract_installation tesseract t
        = (Ok (status_ok version langs eng),
           t ++ [Call_get_tesseract_version; Call_get_languages]) /\
        (eng = true <-> In (py "eng") langs)
  | Ok _, Raise e =>
      test_tesseract_installation tesseract t
      = (if is_Exception e
         then Ok (status_error (str_of_exn e)
                    (py "Tesseract not installed or not in PATH"))
         else Raise e,
         t ++ [Call_get_tesseract_version; Call_get_languages])
  | Raise e, _ =>
      test_tesseract_installation tesseract t
      = (if is_Exception e
         then Ok (status_error (str_of_exn e)
                    (py "Tesseract not installed or not in PATH"))
         else Raise e,
         t ++ [Call_get_tesseract_version])
  end.
Proof.
  unfold test_tesseract_installation, catch,
    pytesseract_get_tesseract_version, pytesseract_get_languages.
  rewrite bind_lib_call.
  destruct (run_get_tesseract_version tesseract) as [version|e].
  - rewrite bind_lib_call.
    destruct (run_get_languages tesseract) as [langs|e];
      unfold ret; rewrite <- app_assoc; cbn [app].
    + eexists. split; [reflexivity|]. apply existsb_eqb_In.
    + destruct (is_Exception e); reflexivity.
  - destruct (run_get_languages tesseract);
      destruct (is_Exception e); reflexivity.
Qed.

(** An engine whose version cannot be read ends the health check with
    [SystemExit] instead of a status. *)
Example unreadable_version_escapes (msg : str) (t : trace) :
  test_tesseract_installation
    {| run_image_to_string := fun _ _ _ => Ok [];
       run_image_to_data := fun _ _ _ => Ok empty_data;
       run_get_tesseract_version := Raise (SystemExit msg);
       run_get_languages := Ok [] |} t
  = (Raise (SystemExit msg), t ++ [Call_get_tesseract_version]).
Proof. reflexivity. Qed.

(** ** Edge cases of the loop over the engine's table *)

(** A row that fails the test leaves the words as they are, and only
    its confidence and text were read. *)
Lemma loop_body_dropped (data : TessData) (words : list Word) (i : nat) :
  (i < List.length (data_conf data))%nat ->
  (i < List.length (data_text data))%nat ->
  keeps (row data i) = false ->
  loop_body data words i = Ok words.
Proof.
  intros Hc Ht Hk. unfold loop_body.
  rewrite (index_nth (data_conf data) i 0) by exact Hc.
  rewrite (index_nth (data_text data) i []) by exact Ht.
  unfold keeps, row in Hk. cbn in Hk. rewrite Hk. reflexivity.
Qed.

Lemma loop_all_dropped (data : TessData) (k a : nat) (words : list Word) :
  (a + k <= List.length (data_conf data))%nat ->
  (a + k <= List.length (data_text data))%nat ->
  (forall i, (a <= i < a + k)%nat -> keeps (row data i) = false) ->
  loop data (seq a k) words = Ok words.
Proof.
  revert a. induction k as [|k IH]; intros a Hc Ht Hdrop; simpl.
  - reflexivity.
  - rewrite loop_body_dropped by (try apply Hdrop; lia).
    apply IH; try lia. intros i Hi. apply Hdrop. lia.
Qed.

(** X3: when no row of the table passes the test (each has a
    confidence of at most 50 or a text that is blank after stripping),
    and in particular on an empty table, the function returns the empty
    result: empty text, confidence 0, no words, count 0 and three empty
    buckets.  The box columns are not read for such rows: the result is
    the same when they are shorter than the table or missing. *)
Theorem nothing_kept_gives_empty_result
  (tesseract : Engine) (buffer : image) (t : trace) (data : TessData) :
  run_image_to_data tesseract buffer (py "eng") config_confidence = Ok data ->
  (List.length (data_text data) <= List.length (data_conf data))%nat ->
  (forall i, (i < List.length (data_text data))%nat ->
             nth i (data_conf data) 0 <= 50 \/
             strip (nth i (data_text data) []) = []) ->
  exists r,
    extract_text_with_confidence tesseract buffer t
      = (Ok r, t ++ [Call_image_to_data (py "eng") config_confidence]) /\
    result_text r = [] /\
    (result_confidence r == 0)%Q /\
    result_words r = [] /\
    word_count r = 0%nat /\
    quality_metrics r
      = {| high_confidence_words := 0;
           medium_confidence_words := 0;
           low_confidence_words := 0 |}.
Proof.
  intros Hrun Hc Hdrop.
  unfold extract_text_with_confidence, image_to_data, Image_fromarray.
  rewrite bind_lib_call, Hrun.
  rewrite loop_all_dropped.
  - eexists. split; [reflexivity|]. cbn. repeat split; reflexivity.
  - exact Hc.
  - apply le_n.
  - intros i [_ Hi]. unfold keeps, row. cbn.
    destruct (Hdrop i Hi) as [Hlow | Hblank].
    + destruct (Z.ltb_spec 50 (nth i (data_conf data) 0)); [lia | reflexivity].
    + rewrite Hblank. apply andb_false_r.
Qed.

Lemma nothing_kept_gives_empty_result_witness :
  exists r,
    extract_text_with_confidence
      (fixed_engine []
         {| data_text := [py ""; py "  "; py "dim"];
            data_conf := [-1; 96; 50];
            data_left := []; data_top := [];
            data_width := []; data_height := [] |})
      sample_buffer []
      = (Ok r, [Call_image_to_data (py "eng") config_confidence]) /\
    result_text r = [] /\ result_words r = [].
Proof.
  destruct (nothing_kept_gives_empty_result
              (fixed_engine []
                 {| data_text := [py ""; py "  "; py "dim"];
                    data_conf := [-1; 96; 50];
                    data_left := []; data_top := [];
                    data_width := []; data_height := [] |})
              sample_buffer [] _ eq_refl (le_n 3))
    as [r (Hrun & Htext & _ & Hwords & _)].
  - intros [|[|[|i]]] Hi; cbn in *;
      [left; lia | right; reflexivity | left; lia | lia].
  - exists r. repeat split; assumption.
Defined.

Lemma loop_body_Ok_in_range (data : TessData) (words ws : list Word) (i : nat) :
  loop_body data words i = Ok ws -> (i < List.length (data_conf data))%nat.
Proof.
  unfold loop_body, index. intros H.
  apply nth_error_Some. intros E. rewrite E in H. discriminate.
Qed.

Lemma loop_Ok_in_range (data : TessData) (k a : nat) (words ws : list Word) :
  loop data (seq a k) words = Ok ws ->
  (0 < k)%nat -> (a + k <= List.length (data_conf data))%nat.
Proof.
  revert a words. induction k as [|k IH]; intros a words H Hk; [lia|].
  simpl in H.
  destruct (loop_body data words a) as [words'|e] eqn:Hbody; [|discriminate].
  apply loop_body_Ok_in_range in Hbody.
  destruct k as [|k]; [lia|].
  specialize (IH (S a) words' H). lia.
Qed.

Lemma index_raises {A} (l : list A) (i : nat) (e : exn) :
  index l i = Raise e -> e = IndexError.
Proof.
  unfold index. destruct (nth_error l i); congruence.
Qed.

Lemma loop_body_raises (data : TessData) (words : list Word) (i : nat) (e : exn) :
  loop_body data words i = Raise e -> e = IndexError.
Proof.
  unfold loop_body, word_dict.
  repeat match goal with
         | |- context [index ?l ?i] =>
             let H := fresh "H" in
             destruct (index l i) eqn:H;
             [| apply index_raises in H; congruence]
         | |- context [if ?b then _ else _] => destruct b
         end; congruence.
Qed.

Lemma loop_raises (data : TessData) (range : list nat) (words : list Word)
  (e : exn) :
  loop data range words = Raise e -> e = IndexError.
Proof.
  revert words. induction range as [|i range IH]; intros words H; simpl in H.
  - discriminate.
  - destruct (loop_body data words i) as [words'|e'] eqn:Hbody.
    + eapply IH. exact H.
    + inversion H. subst. eapply loop_body_raises. exact Hbody.
Qed.

(** X4: a table whose confidence column is shorter than its text
    column makes the function raise [IndexError], after the one call of
    the engine; the only exception the loop itself can raise is
    [IndexError]. *)
Theorem short_confidence_column_raises_IndexError
  (tesseract : Engine) (buffer : image) (t : trace) (data : TessData) :
  run_image_to_data tesseract buffer (py "eng") config_confidence = Ok data ->
  (List.length (data_conf data) < List.length (data_text data))%nat ->
  extract_text_with_confidence tesseract buffer t
  = (Raise IndexError, t ++ [Call_image_to_data (py "eng") config_confidence]).
Proof.
  intros Hrun Hshort.
  unfold extract_text_with_confidence, image_to_data, Image_fromarray.
  rewrite bind_lib_call, Hrun.
  destruct (loop data (seq 0 (List.length (data_text data))) [])
    as [ws|e] eqn:Hloop.
  - apply loop_Ok_in_range in Hloop; lia.
  - apply loop_raises in Hloop. subst. reflexivity.
Qed.

Lemma short_confidence_column_raises_IndexError_witness :
  extract_text_with_confidence
    (fixed_engine []
       {| data_text := [py "a"; py "b"]; data_conf := [90];
          data_left := [0; 0]; data_top := [0; 0];
          data_width := [1; 1]; data_height := [1; 1] |})
    sample_buffer []
  = (Raise IndexError, [Call_image_to_data (py "eng") config_confidence]).
Proof.
  apply (short_confidence_column_raises_IndexError
           (fixed_engine []
              {| data_text := [py "a"; py "b"]; data_conf := [90];
                 data_left := [0; 0]; data_top := [0; 0];
                 data_width := [1; 1]; data_height := [1; 1] |})
           sample_buffer [] _ eq_refl).
  apply le_n.
Defined.

(** ** More on the fast preprocessor *)

Lemma threshold_binary_well_formed (t : Z) (w h : nat) (g : image) :
  well_formed w h g -> well_formed w h (threshold_binary t 255 g).
Proof.
  intros [Hh Hrows]. unfold well_formed, threshold_binary. split.
  - rewrite length_map. exact Hh.
  - apply Forall_map. eapply Forall_impl; [|exact Hrows].
    cbn. intros row [Hw _]. split.
    + rewrite length_map. exact Hw.
    + apply Forall_map. apply Forall_forall. intros v _.
      unfold in_uint8. destruct (t <? v); lia.
Qed.

(** X5: on a rectangular image the sharpening stage changes nothing:
    the buffer [preprocess_image_fast] returns is exactly the image
    thresholded at Otsu's level, pixel for pixel. *)
Theorem preprocess_image_fast_returns_thresholded_image
  (codec : list byte -> option decoded) (bgr2gray : Z * Z * Z -> Z)
  (image_bytes : list byte) (d : decoded) (w h : nat) (t : trace) :
  codec image_bytes = Some d ->
  well_formed w h (spec_grayscale bgr2gray d) ->
  fst (preprocess_image_fast codec bgr2gray image_bytes t)
  = Ok (threshold_binary
          (otsu_threshold (concat (spec_grayscale bgr2gray d))) 255
          (spec_grayscale bgr2gray d)).
Proof.
  intros Hd Hwf. rewrite preprocess_image_fast_run, Hd. cbv zeta. cbn [fst].
  f_equal. apply (sharpen_binary_is_identity w h).
  - apply threshold_binary_well_formed. exact Hwf.
  - apply threshold_binary_is_binary.
Qed.

Lemma preprocess_image_fast_returns_thresholded_image_witness :
  fst (preprocess_image_fast toy_codec toy_bgr2gray toy_bytes [])
  = Ok (threshold_binary 20 255 [[10; 20; 200]; [12; 210; 220]]).
Proof.
  apply (preprocess_image_fast_returns_thresholded_image
           toy_codec toy_bgr2gray toy_bytes
           (Gray [[10; 20; 200]; [12; 210; 220]]) 3 2 [] eq_refl).
  split; [reflexivity|].
  repeat constructor; unfold in_uint8; lia.
Defined.

Lemma filter_all {A} (p : A -> bool) (l : list A) :
  (forall x, In x l -> p x = true) -> filter p l = l.
Proof.
  induction l as [|a l IH]; intros H; simpl; [reflexivity|].
  rewrite (H a (or_introl eq_refl)). f_equal.
  apply IH. intros x Hx. apply H. right. exact Hx.
Qed.

Lemma filter_none {A} (p : A -> bool) (l : list A) :
  (forall x, In x l -> p x = false) -> filter p l = [].
Proof.
  induction l as [|a l IH]; intros H; simpl; [reflexivity|].
  rewrite (H a (or_introl eq_refl)).
  apply IH. intros x Hx. apply H. right. exact Hx.
Qed.

(** No level splits an image of a single intensity. *)
Lemma uniform_never_splits (px : list Z) (v t : Z) :
  Forall (fun p => p = v) px -> splits px t = false.
Proof.
  intros Hu. rewrite Forall_forall in Hu. unfold splits, below, above.
  destruct (Z.leb_spec v t).
  - rewrite (filter_none (fun p => negb (p <=? t))).
    + cbn. apply andb_false_r.
    + intros p Hp. rewrite (Hu p Hp).
      apply negb_false_iff, Z.leb_le. assumption.
  - rewrite (filter_none (fun p => p <=? t)).
    + reflexivity.
    + intros p Hp. rewrite (Hu p Hp). apply Z.leb_gt. assumption.
Qed.

Lemma otsu_scan_without_split (px : list Z) (todo : list Z) (st : Q * Z) :
  (forall t, splits px t = false) ->
  fold_left (otsu_step px) todo st = st.
Proof.
  intros Hs. revert st. induction todo as [|i todo IH]; intros st; simpl.
  - reflexivity.
  - rewrite IH. unfold otsu_step. destruct st. rewrite Hs. reflexivity.
Qed.

(** X6: a frame of a single intensity has no Otsu level, and the scan
    answers 0: [preprocess_image_fast] turns a rectangular frame of one
    intensity above 0 into an all-white buffer and a black frame into an
    all-black one. *)
Theorem preprocess_image_fast_on_uniform_frame
  (codec : list byte -> option decoded) (bgr2gray : Z * Z * Z -> Z)
  (image_bytes : list byte) (d : decoded) (w h : nat) (v : Z) (t : trace) :
  codec image_bytes = Some d ->
  spec_grayscale bgr2gray d = repeat (repeat v w) h ->
  0 <= v <= 255 ->
  otsu_threshold (concat (spec_grayscale bgr2gray d)) = 0 /\
  fst (preprocess_image_fast codec bgr2gray image_bytes t)
  = Ok (repeat (repeat (if 0 <? v then 255 else 0) w) h).
Proof.
  intros Hd Hg Hv.
  assert (Hwf : well_formed w h (spec_grayscale bgr2gray d)).
  { rewrite Hg. split; [apply repeat_length|].
    apply Forall_forall. intros r Hr. apply repeat_spec in Hr. subst r.
    split; [apply repeat_length|].
    apply Forall_forall. intros p Hp. apply repeat_spec in Hp. subst p.
    exact Hv. }
  assert (Hu : Forall (fun p => p = v) (concat (spec_grayscale bgr2gray d))).
  { rewrite Hg. apply Forall_concat.
    apply Forall_forall. intros r Hr. apply repeat_spec in Hr. subst r.
    apply Forall_forall. intros p Hp. apply repeat_spec in Hp. exact Hp. }
  assert (Ht : otsu_threshold (concat (spec_grayscale bgr2gray d)) = 0).
  { unfold otsu_threshold. rewrite otsu_scan_without_split; [reflexivity|].
    intros t'. eapply uniform_never_splits. exact Hu. }
  split; [exact Ht|].
  rewrite preprocess_image_fast_run, Hd. cbv zeta. cbn [fst].
  rewrite (sharpen_binary_is_identity w h)
    by (apply threshold_binary_well_formed, Hwf
        || apply threshold_binary_is_binary).
  rewrite Ht, Hg. f_equal. unfold threshold_binary.
  rewrite map_repeat. f_equal. rewrite map_repeat. reflexivity.
Qed.

Lemma preprocess_image_fast_on_uniform_frame_witness :
  fst (preprocess_image_fast toy_codec toy_bgr2gray
         [x50; x02; x07; x07; x07; x07] [])
  = Ok [[255; 255]; [255; 255]].
Proof.
  apply (preprocess_image_fast_on_uniform_frame
           toy_codec toy_bgr2gray [x50; x02; x07; x07; x07; x07]
           (Gray [[7; 7]; [7; 7]]) 2 2 7 [] eq_refl eq_refl).
  lia.
Defined.

(** ** The endpoint of the blueprint *)

Lemma blueprint_extract_text_fast_run
  (tesseract : Engine) (buffer : image) (t : trace) :
  Blueprint.extract_text_fast tesseract buffer t
  = (match run_image_to_string tesseract buffer
             Blueprint.default_lang Blueprint.config with
     | Ok recognized => Ok (strip recognized)
     | Raise e => Raise e
     end,
     t ++ [Call_image_to_string Blueprint.default_lang Blueprint.config]).
Proof.
  unfold Blueprint.extract_text_fast, image_to_string, Image_fromarray.
  rewrite bind_lib_call.
  destruct (run_image_to_string tesseract buffer
              Blueprint.default_lang Blueprint.config); reflexivity.
Qed.

(** X7: [POST /ocr] rejects an upload of more than 2,000,000 bytes
    with [HTTPException(400, "File too large")] before any library is
    called: nothing is decoded and the engine is not run. *)
Theorem ocr_endpoint_rejects_large_file
  (codec : list byte -> option decoded) (bgr2gray : Z * Z * Z -> Z)
  (tesseract : Engine) (start_time end_time : Q)
  (contents : list byte) (t : trace) :
  2000000 < Blueprint.size contents ->
  Blueprint.ocr_endpoint codec bgr2gray tesseract start_time end_time
    contents t
  = (Blueprint.HTTPException 400 (py "File too large"), t).
Proof.
  intros H. unfold Blueprint.ocr_endpoint.
  destruct (Z.ltb_spec 2000000 (Blueprint.size contents)); [reflexivity | lia].
Qed.

Lemma size_repeat (b : byte) (n : Z) :
  0 <= n -> Blueprint.size (repeat b (Z.to_nat n)) = n.
Proof.
  intros H. unfold Blueprint.size. rewrite repeat_length. lia.
Qed.

Lemma ocr_endpoint_rejects_large_file_witness :
  Blueprint.ocr_endpoint toy_codec toy_bgr2gray
    (fixed_engine (py "text") sample_data) 0 1
    (repeat x00 (Z.to_nat 2000001)) []
  = (Blueprint.HTTPException 400 (py "File too large"), []).
Proof.
  apply ocr_endpoint_rejects_large_file.
  rewrite size_repeat; lia.
Defined.

(** X8: for an upload of at most 2,000,000 bytes that decodes,
    [POST /ocr] runs the four library stages once each, in the order
    decode, threshold, filter, recognize; the engine is given a buffer
    of the decoded image's shape whose pixels are all 0 or 255, and the
    text returned is what it recognized, stripped at both ends.  An
    exception of the engine escapes the handler. *)
Theorem ocr_endpoint_runs_the_pipeline
  (codec : list byte -> option decoded) (bgr2gray : Z * Z * Z -> Z)
  (tesseract : Engine) (start_time end_time : Q)
  (contents : list byte) (d : decoded) (t : trace) :
  Blueprint.size contents <= 2000000 ->
  codec contents = Some d ->
  exists buffer,
    binary_image buffer /\
    same_shape buffer (spec_grayscale bgr2gray d) /\
    Blueprint.ocr_endpoint codec bgr2gray tesseract start_time end_time
      contents t
    = (match run_image_to_string tesseract buffer
               Blueprint.default_lang Blueprint.config with
       | Ok recognized =>
           Blueprint.Returned (strip recognized)
             (round ((end_time - start_time) * 1000) 2)
       | Raise e => Blueprint.Unhandled e
       end,
       t ++ [Call_imdecode IMREAD_GRAYSCALE;
             Call_threshold 0 255 (THRESH_BINARY + THRESH_OTSU);
             Call_filter2D (-1) kernel;
             Call_image_to_string Blueprint.default_lang Blueprint.config]).
Proof.
  intros Hsize Hd.
  exists (correlate
            (threshold_binary
               (otsu_threshold (concat (spec_grayscale bgr2gray d))) 255
               (spec_grayscale bgr2gray d)) kernel).
  split; [apply correlate_kernel_binary, threshold_binary_is_binary|].
  split.
  { unfold same_shape. rewrite (correlate_shape _ kernel).
    apply threshold_binary_shape. }
  unfold Blueprint.ocr_endpoint.
  destruct (Z.ltb_spec 2000000 (Blueprint.size contents)); [lia|].
  unfold bind at 1. rewrite preprocess_image_fast_run, Hd. cbv zeta.
  unfold bind. rewrite blueprint_extract_text_fast_run.
  unfold fast_calls. rewrite <- app_assoc. cbn [app].
  destruct (run_image_to_string tesseract _ _ _); reflexivity.
Qed.

Lemma ocr_endpoint_runs_the_pipeline_witness :
  exists ms,
    fst (Blueprint.ocr_endpoint toy_codec toy_bgr2gray
           (fixed_engine (py " x = 1 ") sample_data) 10 (10 + (1 # 8))
           toy_bytes [])
    = Blueprint.Returned (py "x = 1") ms /\
    (ms == 125)%Q.
Proof.
  destruct (ocr_endpoint_runs_the_pipeline
              toy_codec toy_bgr2gray
              (fixed_engine (py " x = 1 ") sample_data) 10 (10 + (1 # 8))
              toy_bytes (Gray [[10; 20; 200]; [12; 210; 220]]) [])
    as [buffer (_ & _ & Hrun)].
  - vm_compute. discriminate.
  - reflexivity.
  - rewrite Hrun. eexists. split; reflexivity.
Defined.

(** X9: for an upload that is not an image, [POST /ocr] ends in the
    error of the thresholding stage: the handler raises no
    [HTTPException] of its own for it, and neither the filter nor the
    engine is called. *)
Theorem ocr_endpoint_on_undecodable_file
  (codec : list byte -> option decoded) (bgr2gray : Z * Z * Z -> Z)
  (tesseract : Engine) (start_time end_time : Q)
  (contents : list byte) (t : trace) :
  Blueprint.size contents <= 2000000 ->
  codec contents = None ->
  Blueprint.ocr_endpoint codec bgr2gray tesseract start_time end_time
    contents t
  = (Blueprint.Unhandled Cv2Error,
     t ++ [Call_imdecode IMREAD_GRAYSCALE;
           Call_threshold 0 255 (THRESH_BINARY + THRESH_OTSU)]).
Proof.
  intros Hsize Hd. unfold Blueprint.ocr_endpoint.
  destruct (Z.ltb_spec 2000000 (Blueprint.size contents)); [lia|].
  unfold bind at 1. rewrite preprocess_image_fast_run, Hd. reflexivity.
Qed.

Lemma ocr_endpoint_on_undecodable_file_witness :
  Blueprint.ocr_endpoint toy_codec toy_bgr2gray
    (fixed_engine (py "text") sample_data) 0 1 [x00; x01] []
  = (Blueprint.Unhandled Cv2Error,
     [Call_imdecode IMREAD_GRAYSCALE;
      Call_threshold 0 255 (THRESH_BINARY + THRESH_OTSU)]).
Proof.
  apply ocr_endpoint_on_undecodable_file.
  - vm_compute. discriminate.
  - reflexivity.
Defined.

(** ** The queue worker *)

Lemma key_eqb_refl (k : Worker.Json) :
  Worker.hashable k = true -> Worker.key_eqb k k = true.
Proof.
  destruct k as [|b|n|x|s| |]; cbn; intros H; try reflexivity;
    try discriminate; try (apply Qeq_bool_iff; reflexivity).
  apply eqb_eq. reflexivity.
Qed.

Lemma key_eqb_number (a b : Worker.Json) (x : Q) :
  Worker.number a = Some x ->
  Worker.key_eqb a b
  = match Worker.number b with
    | Some y => Qeq_bool x y
    | None => false
    end.
Proof.
  destruct a; cbn; intros H; try discriminate; injection H as <-;
    destruct b; reflexivity.
Qed.

Lemma key_eqb_sym (a b : Worker.Json) :
  Worker.key_eqb a b = Worker.key_eqb b a.
Proof.
  assert (Hq : forall x y, Qeq_bool x y = Qeq_bool y x).
  { intros x y. destruct (Qeq_bool x y) eqn:E; symmetry.
    - apply Qeq_bool_iff. symmetry. apply Qeq_bool_iff. exact E.
    - destruct (Qeq_bool y x) eqn:E'; [|reflexivity].
      apply Qeq_bool_iff in E'. symmetry in E'.
      apply Qeq_bool_iff in E'. congruence. }
  assert (Hs : forall s s', PyStr.eqb s s' = PyStr.eqb s' s).
  { intros s s'. destruct (PyStr.eqb s s') eqn:E; symmetry.
    - apply eqb_eq in E. subst. apply eqb_eq. reflexivity.
    - destruct (PyStr.eqb s' s) eqn:E'; [|reflexivity].
      apply eqb_eq in E'. subst.
      assert (PyStr.eqb s s = true) by (apply eqb_eq; reflexivity).
      congruence. }
  destruct a, b; cbn; try reflexivity; try apply Hq; apply Hs.
Qed.

Lemma key_eqb_trans (a b c : Worker.Json) :
  Worker.key_eqb a b = true -> Worker.key_eqb b c = true ->
  Worker.key_eqb a c = true.
Proof.
  intros Hab Hbc.
  destruct (Worker.number b) as [y|] eqn:Hb.
  - rewrite key_eqb_sym, (key_eqb_number b a y Hb) in Hab.
    rewrite (key_eqb_number b c y Hb) in Hbc.
    destruct (Worker.number a) as [x|] eqn:Ha; [|discriminate].
    destruct (Worker.number c) as [z|] eqn:Hc; [|discriminate].
    rewrite (key_eqb_number a c x Ha), Hc.
    apply Qeq_bool_iff in Hab, Hbc. apply Qeq_bool_iff.
    rewrite <- Hab. exact Hbc.
  - destruct b; try discriminate; destruct a; try discriminate;
      destruct c; try discriminate; try reflexivity.
    cbn in *. apply eqb_eq in Hab, Hbc. subst. apply eqb_eq. reflexivity.
Qed.

Lemma worker_get_set_same
  (d : Worker.dict) (k : Worker.Json) (v : Worker.Entry) :
  Worker.hashable k = true ->
  Worker.get (Worker.set d k v) k = Some v.
Proof.
  intros Hk. induction d as [|[k' v'] d IH]; cbn.
  - rewrite key_eqb_refl by exact Hk. reflexivity.
  - destruct (Worker.key_eqb k k') eqn:E; cbn; rewrite E;
      [reflexivity | exact IH].
Qed.

Lemma worker_get_set_other
  (d : Worker.dict) (k k' : Worker.Json) (v : Worker.Entry) :
  Worker.key_eqb k' k = false ->
  Worker.get (Worker.set d k v) k' = Worker.get d k'.
Proof.
  intros Hne. induction d as [|[k0 v0] d IH]; cbn.
  - rewrite Hne. reflexivity.
  - destruct (Worker.key_eqb k k0) eqn:E; cbn.
    + destruct (Worker.key_eqb k' k0) eqn:E'; [|reflexivity].
      rewrite key_eqb_sym in E.
      rewrite (key_eqb_trans k' k0 k E' E) in Hne. discriminate.
    + destruct (Worker.key_eqb k' k0); [reflexivity | exact IH].
Qed.


(** The outcome of one task: what [process] stores and logs. *)
Lemma worker_process_run
  (preprocess : list byte -> M image) (extract : image -> M str)
  (task : Worker.Task) (results : Worker.dict) (t : trace) :
  Worker.process preprocess extract task results t
  = match stages preprocess extract task t with
    | (Ok text, t') =>
        (if Worker.hashable (Worker.request_id task)
         then Ok (Worker.set results (Worker.request_id task)
                    (Worker.success (Worker.request_id task) text))
         else Raise (TypeError (Worker.unhashable (Worker.request_id task))),
         t')
    | (Raise e, t') =>
        (if is_Exception e
         then if Worker.hashable (Worker.request_id task)
              then Ok (Worker.set results (Worker.request_id task)
                         (Worker.error (Worker.request_id task)
                            (str_of_exn e)))
              else Raise (TypeError
                            (Worker.unhashable (Worker.request_id task)))
         else Raise e,
         t')
    end.
Proof.
  unfold Worker.process, stages, catch, bind, ret, Worker.setitem, raise.
  destruct (preprocess (Worker.image_bytes task) t) as [[processed|e] t1].
  - destruct (extract processed t1) as [[text|e] t2].
    + destruct (Worker.hashable (Worker.request_id task)); reflexivity.
    + destruct (is_Exception e); [|reflexivity].
      destruct (Worker.hashable (Worker.request_id task)); reflexivity.
  - destruct (is_Exception e); [|reflexivity].
    destruct (Worker.hashable (Worker.request_id task)); reflexivity.
Qed.

(** X10: what processing one task leaves behind.  For a request id
    that can be a dict key, [results] afterwards holds an entry under
    it, ['success'] with the text when both stages returned and
    ['error'] with the text of the exception when one of them raised
    an [Exception], and the entries of all other keys are as they
    were.  An exception of a stage that is no [Exception] escapes, and
    so does the [TypeError] of a request id that is a list or a dict,
    which the handler raises again: then nothing is stored. *)
Theorem worker_outcome_of_a_task
  (preprocess : list byte -> M image) (extract : image -> M str)
  (task : Worker.Task) (results : Worker.dict) (t : trace) :
  match stages preprocess extract task t with
  | (Raise e, t') =>
      is_Exception e = false ->
      Worker.process preprocess extract task results t = (Raise e, t')
  | _ => True
  end /\
  match stages preprocess extract task t with
  | (Raise e, t') =>
      is_Exception e = true ->
      Worker.hashable (Worker.request_id task) = false ->
      Worker.process preprocess extract task results t
      = (Raise (TypeError (Worker.unhashable (Worker.request_id task))), t')
  | (Ok _, t') =>
      Worker.hashable (Worker.request_id task) = false ->
      Worker.process preprocess extract task results t
      = (Raise (TypeError (Worker.unhashable (Worker.request_id task))), t')
  end /\
  (Worker.hashable (Worker.request_id task) = true ->
   match stages preprocess extract task t with
   | (Ok text, t') =>
       exists results',
         Worker.process preprocess extract task results t
         = (Ok results', t') /\
         Worker.get results' (Worker.request_id task)
         = Some (Worker.success (Worker.request_id task) text) /\
         forall k, Worker.key_eqb k (Worker.request_id task) = false ->
                   Worker.get results' k = Worker.get results k
   | (Raise e, t') =>
       is_Exception e = true ->
       exists results',
         Worker.process preprocess extract task results t
         = (Ok results', t') /\
         Worker.get results' (Worker.request_id task)
         = Some (Worker.error (Worker.request_id task) (str_of_exn e)) /\
         forall k, Worker.key_eqb k (Worker.request_id task) = false ->
                   Worker.get results' k = Worker.get results k
   end).
Proof.
  rewrite worker_process_run.
  destruct (stages preprocess extract task t) as [[text|e] t'].
  - split; [exact I|]. split.
    + intros ->. reflexivity.
    + intros Hk. rewrite Hk. eexists. split; [reflexivity|].
      split; [apply worker_get_set_same; exact Hk|].
      intros k. apply worker_get_set_other.
  - split; [intros ->; reflexivity|]. split.
    + intros -> ->. reflexivity.
    + intros Hk He. rewrite Hk, He. eexists. split; [reflexivity|].
      split; [apply worker_get_set_same; exact Hk|].
      intros k. apply worker_get_set_other.
Qed.




(* ================================================================== *)
(** * Properties of the extension *)
(* ================================================================== *)

(** ** History *)

Lemma updatePopup_history
  (now1 now2 : Z) (result : History.OcrResult) (st : History.Storage) :
  History.history (History.updatePopup now1 now2 result st)
  = Some (History.newEntry now1 now2 result
          :: firstn 49 (History.stored_history st)).
Proof.
  unfold History.updatePopup. cbv zeta. cbn [History.history]. f_equal.
  destruct (Nat.ltb_spec 50
              (List.length (History.newEntry now1 now2 result
                            :: History.stored_history st))) as [H|H].
  - reflexivity.
  - cbn in H. rewrite firstn_all2 by lia. reflexivity.
Qed.

(** X12: after [updatePopup] the history starts with the new entry,
    which is also the latest result, followed by the 49 most recent of
    the entries stored before, in their order; so it never holds more
    than 50 entries, whatever was stored.  The entry carries the text
    of the result and its mode, ['fast'] when the result has none. *)
Theorem updatePopup_prepends_and_caps
  (now1 now2 : Z) (result : History.OcrResult) (st : History.Storage) :
  exists e,
    History.latestResult (History.updatePopup now1 now2 result st) = Some e /\
    History.history (History.updatePopup now1 now2 result st)
      = Some (e :: firstn 49 (History.stored_history st)) /\
    (List.length
       (History.stored_history (History.updatePopup now1 now2 result st))
     = Nat.min (List.length (History.stored_history st) + 1) 50)%nat /\
    History.text e = History.res_text result /\
    History.mode e
      = match History.res_mode result with
        | Some (c :: m) => c :: m
        | _ => js "fast"
        end /\
    History.apiUrl (History.updatePopup now1 now2 result st)
      = History.apiUrl st.
Proof.
  exists (History.newEntry now1 now2 result).
  split; [reflexivity|].
  split; [apply updatePopup_history|].
  split.
  - unfold History.stored_history at 1. rewrite updatePopup_history.
    cbn [List.length]. rewrite length_firstn. lia.
  - repeat split.
Qed.

Lemma splice1_inside {A} (l : list A) (i : nat) :
  (i < List.length l)%nat ->
  History.splice1 l (Z.of_nat i) = firstn i l ++ skipn (S i) l.
Proof.
  intros H. unfold History.splice1. cbv zeta.
  destruct (Z.ltb_spec (Z.of_nat i) 0); [lia|].
  rewrite Z.min_l by lia.
  replace (Z.min (Z.max 1 0) (Z.of_nat (List.length l) - Z.of_nat i))
    with 1 by lia.
  rewrite Nat2Z.id.
  replace (Z.to_nat (Z.of_nat i + 1)) with (S i) by lia.
  reflexivity.
Qed.

(** X13: deleting position 0 right after [updatePopup] removes the
    entry just added: the history is again the 49 most recent of the
    entries stored before (all of them when there were fewer than 50;
    the oldest of 50 is lost), while the latest result still is the
    deleted entry. *)
Theorem delete_newest_after_update
  (now1 now2 : Z) (result : History.OcrResult) (st : History.Storage) :
  History.stored_history
    (History.deleteHistoryItem 0 (History.updatePopup now1 now2 result st))
  = firstn 49 (History.stored_history st) /\
  ((List.length (History.stored_history st) < 50)%nat ->
   History.stored_history
     (History.deleteHistoryItem 0 (History.updatePopup now1 now2 result st))
   = History.stored_history st) /\
  History.latestResult
    (History.deleteHistoryItem 0 (History.updatePopup now1 now2 result st))
  = History.latestResult (History.updatePopup now1 now2 result st) /\
  History.latestResult (History.updatePopup now1 now2 result st) <> None.
Proof.
  pose proof (updatePopup_history now1 now2 result st) as Hh.
  assert (Hd : History.stored_history
                 (History.deleteHistoryItem 0
                    (History.updatePopup now1 now2 result st))
               = firstn 49 (History.stored_history st)).
  { unfold History.deleteHistoryItem. cbv zeta.
    unfold History.stored_history at 1. cbn [History.history].
    unfold History.stored_history at 1. rewrite Hh.
    rewrite (splice1_inside _ 0) by (cbn; lia). reflexivity. }
  split; [exact Hd|]. split.
  - intros Hlen. rewrite Hd. apply firstn_all2. lia.
  - split; [reflexivity|]. discriminate.
Qed.

Lemma nth_error_remove {A} (l : list A) (i j : nat) :
  (i < List.length l)%nat ->
  nth_error (firstn i l ++ skipn (S i) l) j
  = if (j <? i)%nat then nth_error l j else nth_error l (S j).
Proof.
  intros Hi.
  assert (Hlen : List.length (firstn i l) = i)
    by (rewrite length_firstn; lia).
  destruct (Nat.ltb_spec j i) as [H|H].
  - rewrite nth_error_app1 by lia.
    rewrite nth_error_firstn.
    destruct (Nat.ltb_spec j i); [reflexivity | lia].
  - rewrite nth_error_app2 by lia.
    rewrite Hlen, nth_error_skipn. f_equal. lia.
Qed.

(** X14: [deleteHistoryItem] deletes by position.  For a position
    inside the history the entry there is removed, the entries before
    it stay in place and those after it move up by one; for a position
    at or past the end nothing is removed and the history is stored
    unchanged; the latest result is never touched. *)
Theorem deleteHistoryItem_by_position
  (index : Z) (st : History.Storage) :
  (0 <= index < Z.of_nat (List.length (History.stored_history st)) ->
   forall j,
     nth_error (History.stored_history (History.deleteHistoryItem index st)) j
     = if Z.of_nat j <? index
       then nth_error (History.stored_history st) j
       else nth_error (History.stored_history st) (S j)) /\
  (Z.of_nat (List.length (History.stored_history st)) <= index ->
   History.stored_history (History.deleteHistoryItem index st)
   = History.stored_history st) /\
  History.latestResult (History.deleteHistoryItem index st)
  = History.latestResult st.
Proof.
  unfold History.deleteHistoryItem. cbv zeta.
  unfold History.stored_history at 2 5. cbn [History.history].
  set (h := History.stored_history st).
  repeat split.
  - intros Hi j.
    replace index with (Z.of_nat (Z.to_nat index)) at 1 by lia.
    rewrite splice1_inside by lia.
    rewrite nth_error_remove by lia.
    destruct (Nat.ltb_spec j (Z.to_nat index));
      destruct (Z.ltb_spec (Z.of_nat j) index); (reflexivity || lia).
  - intros Hi. unfold History.splice1. cbv zeta.
    destruct (Z.ltb_spec index 0); [lia|].
    rewrite Z.min_r by lia.
    replace (Z.min (Z.max 1 0)
               (Z.of_nat (List.length h) - Z.of_nat (List.length h)))
      with 0 by lia.
    rewrite Z.add_0_r, Nat2Z.id, firstn_all, skipn_all, app_nil_r.
    reflexivity.
Qed.

(** ** The backend URL *)

Lemma trim_start_decompose (s : jsstr) :
  exists ws, s = ws ++ JsStr.trim_start s /\ forallb JsStr.is_white ws = true.
Proof.
  induction s as [|c s IH]; simpl.
  - exists []. split; reflexivity.
  - destruct (JsStr.is_white c) eqn:Hc.
    + destruct IH as [ws [Hs Hws]]. exists (c :: ws). split.
      * simpl. f_equal. exact Hs.
      * simpl. rewrite Hc, Hws. reflexivity.
    + exists []. split; reflexivity.
Qed.

Lemma trim_start_white (s : jsstr) :
  forallb JsStr.is_white s = true -> JsStr.trim_start s = [].
Proof.
  induction s as [|c s IH]; simpl; [reflexivity|].
  intros H. apply andb_true_iff in H. destruct H as [Hc Hs].
  rewrite Hc. apply IH. exact Hs.
Qed.

Lemma forallb_rev {A} (p : A -> bool) (l : list A) :
  forallb p (rev l) = forallb p l.
Proof.
  induction l as [|a l IH]; simpl; [reflexivity|].
  rewrite forallb_app, IH. simpl. rewrite andb_true_r. apply andb_comm.
Qed.

Lemma trim_empty_iff (s : jsstr) :
  JsStr.trim s = [] <-> forallb JsStr.is_white s = true.
Proof.
  unfold JsStr.trim, JsStr.trim_end. split.
  - intros H.
    destruct (trim_start_decompose (rev (JsStr.trim_start (rev s))))
      as [ws1 [H1 Hw1]].
    rewrite H, app_nil_r in H1.
    destruct (trim_start_decompose (rev s)) as [ws2 [H2 Hw2]].
    rewrite <- (rev_involutive s), H2, forallb_rev, forallb_app, Hw2.
    rewrite <- (forallb_rev _ (JsStr.trim_start (rev s))), H1, Hw1.
    reflexivity.
  - intros H. rewrite (trim_start_white (rev s)).
    + reflexivity.
    + rewrite forallb_rev. exact H.
Qed.

Lemma drop_final_slash_cases (s : jsstr) :
  (s = JsStr.drop_final_slash s ++ [47%N]) \/
  (JsStr.drop_final_slash s = s /\ forall r, s <> r ++ [47%N]).
Proof.
  unfold JsStr.drop_final_slash.
  destruct (rev s) as [|c r] eqn:Hr.
  - right. split; [reflexivity|]. intros r E.
    rewrite E, rev_app_distr in Hr. discriminate.
  - destruct (N.eq_dec c 47) as [->|Hc].
    + left. rewrite <- (rev_involutive s), Hr. reflexivity.
    + right. split.
      * destruct c as [|p]; [reflexivity|].
        repeat (destruct p as [p|p|]; try reflexivity);
          exfalso; apply Hc; reflexivity.
      * intros r' E. rewrite E, rev_app_distr in Hr.
        inversion Hr. congruence.
Qed.

(** X15: [saveApiUrl] sends nothing exactly when the field holds only
    white space.  Otherwise the url it sends is the trimmed value
    without its final slash, if it has one: exactly one slash is
    removed, so a value ending in two slashes still ends in one, and
    the value ["/"] is sent as the empty url. *)
Theorem saveApiUrl_cleans_the_url (value : jsstr) :
  (ApiUrl.saveApiUrl value = None
   <-> forallb JsStr.is_white value = true) /\
  (forall url, ApiUrl.saveApiUrl value = Some url ->
     JsStr.trim value = url ++ js "/" \/
     (JsStr.trim value = url /\ forall r, url <> r ++ js "/")) /\
  (ApiUrl.saveApiUrl value = Some [] <-> JsStr.trim value = js "/").
Proof.
  unfold ApiUrl.saveApiUrl. cbv zeta.
  rewrite <- trim_empty_iff.
  destruct (JsStr.trim value) as [|c s] eqn:Ht.
  - repeat split; try discriminate; auto.
  - pose proof (drop_final_slash_cases (c :: s)) as Hcases.
    split; [split; discriminate|]. split.
    + intros url H. injection H as Hu. subst url.
      destruct Hcases as [Hs | [Hs Hn]].
      * left. exact Hs.
      * right. rewrite Hs. split; [reflexivity | exact Hn].
    + split.
      * intros H. injection H as Hu.
        destruct Hcases as [Hs | [Hs _]].
        -- rewrite Hu in Hs. exact Hs.
        -- rewrite Hs in Hu. discriminate.
      * intros H. rewrite H. reflexivity.
Qed.

(** ** Requests to the backend *)

Lemma Uint8Array_bytes (bs : list Z) :
  Forall (fun b => 0 <= b < 256) bs -> Background.Uint8Array bs = bs.
Proof.
  intros H. unfold Background.Uint8Array.
  induction H as [|b bs Hb _ IH]; simpl; [reflexivity|].
  rewrite Z.mod_small by exact Hb. rewrite IH. reflexivity.
Qed.

(** X16: the request the background script sends for a capture does
    not depend on the mode the content script asked for: it always goes
    to the address [API_URL + "/ocr"] as a POST with the bytes of the
    captured blob, unchanged, in a file named [capture.webp], and with
    the type of the blob, or [image/webp] when the blob has none.  A
    retry in ['quality'] mode therefore sends the same request as the
    first attempt. *)
Theorem ocr_request_ignores_mode
  (st : Background.State) (blob : Background.Blob) (mode : jsstr) :
  Forall (fun b => 0 <= b < 256) (Background.bytes blob) ->
  Background.ocr_request st (Content.sendToBackend blob mode)
  = {| Background.address := Background.API_URL st ++ js "/ocr";
       Background.method := js "POST";
       Background.file :=
         {| Background.bytes := Background.bytes blob;
            Background.type :=
              match Background.type blob with
              | [] => js "image/webp"
              | c :: s => c :: s
              end |};
       Background.filename := js "capture.webp" |} /\
  forall mode',
    Background.ocr_request st (Content.sendToBackend blob mode')
    = Background.ocr_request st (Content.sendToBackend blob mode).
Proof.
  intros Hb. split.
  - unfold Background.ocr_request, Content.sendToBackend. cbv zeta.
    cbn [Background.imageData Background.mimeType].
    rewrite (Uint8Array_bytes _ Hb).
    destruct (Background.type blob); reflexivity.
  - intros mode'. reflexivity.
Qed.

Lemma ocr_request_ignores_mode_witness :
  Background.ocr_request
    {| Background.API_URL := js "http://localhost:8080";
       Background.storage :=
         {| History.latestResult := None; History.history := None;
            History.apiUrl := None |} |}
    (Content.sendToBackend
       {| Background.bytes := [82; 73; 70; 70]; Background.type := [] |}
       (js "quality"))
  = {| Background.address := js "http://localhost:8080/ocr";
       Background.method := js "POST";
       Background.file :=
         {| Background.bytes := [82; 73; 70; 70];
            Background.type := js "image/webp" |};
       Background.filename := js "capture.webp" |}.
Proof.
  refine (proj1 (ocr_request_ignores_mode _
                   {| Background.bytes := [82; 73; 70; 70];
                      Background.type := [] |} (js "quality") _)).
  repeat constructor; lia.
Defined.

(** X17: a request changes what is stored only when it succeeds.
    After a failed one (fetch rejected, status not ok, body not JSON)
    the state is as before, nothing is sent to the clipboard and the
    reply is a failure; after a successful one the result is put at the
    head of the history and is the reply, the backend URL is as before,
    and the text is sent to the clipboard exactly when it is not empty.
    A result without text is thus stored but not shown: the popup's
    [loadLatestResult] finds nothing to display. *)
Theorem request_outcome
  (now1 now2 : Z) (st : Background.State) (fetched : Background.Fetched) :
  match Background.handleOCRRequest now1 now2 st fetched with
  | (st', copied, Background.failure _) =>
      st' = st /\ copied = None /\
      forall result, fetched <> Background.json result
  | (st', copied, Background.success result) =>
      fetched = Background.json result /\
      Background.API_URL st' = Background.API_URL st /\
      Background.storage st'
        = History.updatePopup now1 now2 result (Background.storage st) /\
      (copied = None <->
       History.res_text result = None \/ History.res_text result = Some []) /\
      (forall text, copied = Some text -> History.res_text result = Some text) /\
      (copied = None ->
       History.loadLatestResult (Background.storage st') = None)
  end.
Proof.
  destruct fetched as [m | status e | m | result]; cbn;
    try (repeat split; discriminate).
  split; [reflexivity|]. split; [reflexivity|]. split; [reflexivity|].
  unfold History.loadLatestResult. cbn.
  destruct (History.res_text result) as [[|c s]|] eqn:Ht;
    (split; [split; [auto | intros [H|H]; (reflexivity || discriminate)] |]);
    (split; [intros text H; (discriminate || exact H) |]);
    intros H; (reflexivity || discriminate).
Qed.

Lemma is_prefix_app (p s : jsstr) : is_prefix p (p ++ s) = true.
Proof.
  induction p as [|c p IH]; simpl; [reflexivity|].
  rewrite N.eqb_refl. exact IH.
Qed.

Lemma includes_app (a c p : jsstr) :
  Background.includes (a ++ p ++ c) p = true.
Proof.
  induction a as [|x a IH].
  - cbn [app]. destruct (p ++ c) eqn:E; cbn [Background.includes];
      rewrite <- E, is_prefix_app; reflexivity.
  - cbn [app Background.includes]. rewrite IH. apply orb_true_r.
Qed.

(** X18: the error shown for a failed request is the one of the fetch
    or ["Backend error: <status> - <body>"], except that any error
    whose text contains ["Failed to fetch"] is replaced by the message
    that the backend cannot be reached: also when the words come from
    the body of an error response of a backend that did answer. *)
Theorem failed_to_fetch_is_relabelled
  (now1 now2 : Z) (st : Background.State) (status : N)
  (before after : jsstr) :
  snd (Background.handleOCRRequest now1 now2 st
         (Background.not_ok status (before ++ js "Failed to fetch" ++ after)))
  = Background.failure
      (js "Cannot connect to backend at " ++ Background.API_URL st
       ++ js ". Make sure the server is running.") /\
  snd (Background.handleOCRRequest now1 now2 st
         (Background.rejected (js "Failed to fetch")))
  = Background.failure
      (js "Cannot connect to backend at " ++ Background.API_URL st
       ++ js ". Make sure the server is running.") /\
  forall message,
    Background.includes message (js "Failed to fetch") = false ->
    snd (Background.handleOCRRequest now1 now2 st
           (Background.rejected message))
    = Background.failure message.
Proof.
  split; [|split].
  - cbn [Background.handleOCRRequest snd]. unfold Background.rethrown.
    replace (js "Backend error: " ++ Background.number_to_string status
             ++ js " - " ++ before ++ js "Failed to fetch" ++ after)
      with ((js "Backend error: " ++ Background.number_to_string status
             ++ js " - " ++ before) ++ js "Failed to fetch" ++ after)
      by (rewrite <- !app_assoc; reflexivity).
    rewrite includes_app. reflexivity.
  - reflexivity.
  - intros message H. cbn [Background.handleOCRRequest snd].
    unfold Background.rethrown. rewrite H. reflexivity.
Qed.

Example backend_error_message :
  snd (Background.handleOCRRequest 0 0
         {| Background.API_URL := js "http://localhost:8080";
            Background.storage :=
              {| History.latestResult := None; History.history := None;
                 History.apiUrl := None |} |}
         (Background.not_ok 413 (js "too large")))
  = Background.failure (js "Backend error: 413 - too large").
Proof. reflexivity. Qed.

(** ** Selecting a region *)

Lemma onMouseMove_selecting (e : Selection.MouseEvent) (s : Selection.State) :
  Selection.isSelecting s = true ->
  Selection.onMouseMove e s
  = {| Selection.isSelecting := true;
       Selection.startX := Selection.startX s;
       Selection.startY := Selection.startY s;
       Selection.selectionBox :=
         {| Selection.left := Z.min (Selection.clientX e) (Selection.startX s);
            Selection.top := Z.min (Selection.clientY e) (Selection.startY s);
            Selection.width :=
              Z.abs (Selection.clientX e - Selection.startX s);
            Selection.height :=
              Z.abs (Selection.clientY e - Selection.startY s);
            Selection.display :=
              Selection.display (Selection.selectionBox s) |} |}.
Proof.
  intros H. unfold Selection.onMouseMove. rewrite H. reflexivity.
Qed.

(** Only the last move of a drag counts. *)
Lemma moves_last (moves : list Selection.MouseEvent) (e : Selection.MouseEvent)
  (s : Selection.State) :
  Selection.isSelecting s = true ->
  fold_left (fun s' e' => Selection.onMouseMove e' s') (moves ++ [e]) s
  = Selection.onMouseMove e s.
Proof.
  intros Hs. rewrite fold_left_app. cbn [fold_left].
  assert (H : forall s0,
             Selection.isSelecting s0 = true ->
             Selection.startX s0 = Selection.startX s ->
             Selection.startY s0 = Selection.startY s ->
             Selection.display (Selection.selectionBox s0)
             = Selection.display (Selection.selectionBox s) ->
             let s' := fold_left (fun s' e' => Selection.onMouseMove e' s')
                                 moves s0 in
             Selection.isSelecting s' = true /\
             Selection.startX s' = Selection.startX s /\
             Selection.startY s' = Selection.startY s /\
             Selection.display (Selection.selectionBox s')
             = Selection.display (Selection.selectionBox s)).
  { induction moves as [|m moves IH]; intros s0 H0 Hx Hy Hd; cbn.
    - auto.
    - apply IH; rewrite (onMouseMove_selecting m s0 H0); cbn; auto. }
  destruct (H s Hs eq_refl eq_refl eq_refl) as (H1 & H2 & H3 & H4).
  rewrite (onMouseMove_selecting e _ H1), (onMouseMove_selecting e s Hs).
  rewrite H2, H3, H4. reflexivity.
Qed.

Lemma abs_sub_comm (a b : Z) : Z.abs (a - b) = Z.abs (b - a).
Proof. lia. Qed.

Lemma drag_direction (a b r r' : Selection.MouseEvent)
  (s s' : Selection.State) :
  snd (Selection.drag a [b] r s) = snd (Selection.drag b [a] r' s').
Proof.
  unfold Selection.drag, Selection.onMouseUp. cbn.
  rewrite (Z.min_comm (Selection.clientX b)),
    (Z.min_comm (Selection.clientY b)),
    (abs_sub_comm (Selection.clientX b)),
    (abs_sub_comm (Selection.clientY b)).
  destruct ((Z.abs (Selection.clientX a - Selection.clientX b) <? 20)
            || (Z.abs (Selection.clientY a - Selection.clientY b) <? 20));
    reflexivity.
Qed.

(** X19: a drag captures the rectangle spanned by the point where the
    button went down and the last point the mouse moved to, whichever
    way it was dragged, and only when that rectangle is at least 20
    pixels wide and 20 high; the intermediate moves and the position of
    the release do not matter.  A click without a move never captures,
    and in every case the selection is over afterwards. *)
Theorem drag_captures_spanned_rectangle
  (press release : Selection.MouseEvent) (moves : list Selection.MouseEvent)
  (s : Selection.State) :
  snd (Selection.drag press moves release s)
  = match rev moves with
    | [] => None
    | last :: _ =>
        let w := Z.abs (Selection.clientX last - Selection.clientX press) in
        let h := Z.abs (Selection.clientY last - Selection.clientY press) in
        if (w <? 20) || (h <? 20) then None
        else Some {| Selection.x :=
                       Z.min (Selection.clientX last) (Selection.clientX press);
                     Selection.y :=
                       Z.min (Selection.clientY last) (Selection.clientY press);
                     Selection.rect_width := w;
                     Selection.rect_height := h |}
    end /\
  Selection.isSelecting (fst (Selection.drag press moves release s)) = false /\
  forall a b r r' s',
    snd (Selection.drag a [b] r s) = snd (Selection.drag b [a] r' s').
Proof.
  split; [|split]; [| |intros; apply drag_direction];
    unfold Selection.drag;
    (destruct (rev moves) as [|last front] eqn:Hrev;
     [ assert (moves = []) as ->
         by (rewrite <- (rev_involutive moves), Hrev; reflexivity);
       reflexivity
     | assert (moves = rev front ++ [last]) as ->
         by (rewrite <- (rev_involutive moves), Hrev; reflexivity);
       rewrite moves_last by reflexivity;
       unfold Selection.onMouseUp; cbn;
       destruct ((Z.abs (Selection.clientX last - Selection.clientX press)
                  <? 20)
                 || (Z.abs (Selection.clientY last - Selection.clientY press)
                     <? 20));
       reflexivity ]).
Qed.

(** X20: outside a drag the mouse is ignored: with no selection under
    way, moves and releases leave the state as it is and capture
    nothing. *)
Theorem mouse_ignored_outside_drag
  (events : list Selection.MouseEvent) (release : Selection.MouseEvent)
  (s : Selection.State) :
  Selection.isSelecting s = false ->
  fold_left (fun s' e => Selection.onMouseMove e s') events s = s /\
  Selection.onMouseUp release
    (fold_left (fun s' e => Selection.onMouseMove e s') events s)
  = (s, None).
Proof.
  intros H.
  assert (Hm : fold_left (fun s' e => Selection.onMouseMove e s') events s = s).
  { induction events as [|e events IH]; cbn; [reflexivity|].
    unfold Selection.onMouseMove at 2. rewrite H. cbn. exact IH. }
  split; [exact Hm|].
  rewrite Hm. unfold Selection.onMouseUp. rewrite H. reflexivity.
Qed.

Lemma mouse_ignored_outside_drag_witness :
  Selection.onMouseUp
    {| Selection.clientX := 300; Selection.clientY := 200 |}
    (fold_left (fun s' e => Selection.onMouseMove e s')
       [{| Selection.clientX := 10; Selection.clientY := 10 |}]
       {| Selection.isSelecting := false;
          Selection.startX := 0; Selection.startY := 0;
          Selection.selectionBox :=
            {| Selection.left := 0; Selection.top := 0;
               Selection.width := 100; Selection.height := 100;
               Selection.display := false |} |})
  = ({| Selection.isSelecting := false;
        Selection.startX := 0; Selection.startY := 0;
        Selection.selectionBox :=
          {| Selection.left := 0; Selection.top := 0;
             Selection.width := 100; Selection.height := 100;
             Selection.display := false |} |}, None).
Proof.
  exact (proj2 (mouse_ignored_outside_drag
                  [{| Selection.clientX := 10; Selection.clientY := 10 |}]
                  {| Selection.clientX := 300; Selection.clientY := 200 |}
                  {| Selection.isSelecting := false;
                     Selection.startX := 0; Selection.startY := 0;
                     Selection.selectionBox :=
                       {| Selection.left := 0; Selection.top := 0;
                          Selection.width := 100; Selection.height := 100;
                          Selection.display := false |} |}
                  eq_refl)).
Defined.

(** ** Dragging the result modal *)

Lemma onDrag_dragging (x y : Z) (s : Modal.State) (pos : Z * Z) :
  Modal.isDragging s = true -> Modal.modal s = Some pos ->
  Modal.onDrag x y s
  = {| Modal.modal := Some (Modal.initialLeft s + (x - Modal.dragStartX s),
                            Modal.initialTop s + (y - Modal.dragStartY s));
       Modal.isDragging := true;
       Modal.dragStartX := Modal.dragStartX s;
       Modal.dragStartY := Modal.dragStartY s;
       Modal.initialLeft := Modal.initialLeft s;
       Modal.initialTop := Modal.initialTop s |}.
Proof.
  intros Hd Hm. unfold Modal.onDrag. rewrite Hd, Hm. reflexivity.
Qed.

Lemma drags_last (moves : list (Z * Z)) (x y : Z) (s : Modal.State)
  (pos : Z * Z) :
  Modal.isDragging s = true -> Modal.modal s = Some pos ->
  Modal.drags (moves ++ [(x, y)]) s = Modal.onDrag x y s.
Proof.
  intros Hd Hm. unfold Modal.drags. rewrite fold_left_app. cbn [fold_left fst snd].
  assert (H : forall s0 pos0,
             Modal.isDragging s0 = true -> Modal.modal s0 = Some pos0 ->
             Modal.dragStartX s0 = Modal.dragStartX s ->
             Modal.dragStartY s0 = Modal.dragStartY s ->
             Modal.initialLeft s0 = Modal.initialLeft s ->
             Modal.initialTop s0 = Modal.initialTop s ->
             let s' := fold_left
                         (fun s' p => Modal.onDrag (fst p) (snd p) s')
                         moves s0 in
             Modal.isDragging s' = true /\ (exists pos', Modal.modal s' = Some pos') /\
             Modal.dragStartX s' = Modal.dragStartX s /\
             Modal.dragStartY s' = Modal.dragStartY s /\
             Modal.initialLeft s' = Modal.initialLeft s /\
             Modal.initialTop s' = Modal.initialTop s).
  { induction moves as [|m moves IH]; intros s0 pos0 H0 Hp H1 H2 H3 H4; cbn.
    - eauto 10.
    - rewrite (onDrag_dragging _ _ s0 pos0 H0 Hp).
      eapply IH; cbn; eauto. }
  destruct (H s pos Hd Hm eq_refl eq_refl eq_refl eq_refl)
    as (H1 & [pos' H2] & H3 & H4 & H5 & H6).
  rewrite (onDrag_dragging x y _ pos' H1 H2), (onDrag_dragging x y s pos Hd Hm).
  rewrite H3, H4, H5, H6. reflexivity.
Qed.

(** X21: while the modal is dragged it keeps its offset to the
    pointer: after the drag started at pointer position (x0, y0) with
    the modal at (l, t) and the pointer last moved to (x, y), the modal
    is at (l + x - x0, t + y - y0), whatever path the pointer took.
    Once the drag has ended, pointer moves no longer move the modal. *)
Theorem modal_follows_pointer
  (s : Modal.State) (l t x0 y0 x y : Z) (path later : list (Z * Z)) :
  Modal.modal s = Some (l, t) ->
  Modal.modal (Modal.drags (path ++ [(x, y)]) (Modal.onDragStart x0 y0 s))
  = Some (l + (x - x0), t + (y - y0)) /\
  Modal.drags later
    (Modal.onDragEnd
       (Modal.drags (path ++ [(x, y)]) (Modal.onDragStart x0 y0 s)))
  = Modal.onDragEnd
      (Modal.drags (path ++ [(x, y)]) (Modal.onDragStart x0 y0 s)).
Proof.
  intros Hm.
  assert (Hs : Modal.onDragStart x0 y0 s
               = {| Modal.modal := Some (l, t); Modal.isDragging := true;
                    Modal.dragStartX := x0; Modal.dragStartY := y0;
                    Modal.initialLeft := l; Modal.initialTop := t |})
    by (unfold Modal.onDragStart; rewrite Hm; reflexivity).
  rewrite Hs.
  rewrite (drags_last path x y _ (l, t)) by reflexivity.
  split; [reflexivity|].
  unfold Modal.drags.
  induction later as [|p later IH]; cbn [fold_left]; [reflexivity|].
  exact IH.
Qed.

Lemma modal_follows_pointer_witness :
  Modal.modal
    (Modal.drags ([(510, 40); (400, 90)] ++ [(300, 120)])
       (Modal.onDragStart 500 30
          {| Modal.modal := Some (860, 20); Modal.isDragging := false;
             Modal.dragStartX := 0; Modal.dragStartY := 0;
             Modal.initialLeft := 0; Modal.initialTop := 0 |}))
  = Some (860 + (300 - 500), 20 + (120 - 30)).
Proof.
  exact (proj1 (modal_follows_pointer
                  {| Modal.modal := Some (860, 20); Modal.isDragging := false;
                     Modal.dragStartX := 0; Modal.dragStartY := 0;
                     Modal.initialLeft := 0; Modal.initialTop := 0 |}
                  860 20 500 30 300 120 [(510, 40); (400, 90)] []
                  eq_refl)).
Defined.

(** ** Frame hashes *)

Lemma compare_with_average (p s : Z) :
  Qcompare (inject_Z p) (inject_Z s / inject_Z 64) = Z.compare (p * 64) s.
Proof.
  unfold Qcompare, Qdiv, Qmult, Qinv, inject_Z. cbn -[Z.mul].
  rewrite !Z.mul_1_r. reflexivity.
Qed.

Lemma perceptualHash_bits (pixels : list Z) :
  Monitor.perceptualHash pixels
  = List.map (hash_bit (total (Monitor.reds pixels))) (Monitor.reds pixels).
Proof.
  unfold Monitor.perceptualHash. cbv zeta. apply map_ext. intros p.
  rewrite compare_with_average. reflexivity.
Qed.

Lemma total_cons (x : Z) (l : list Z) : total (x :: l) = x + total l.
Proof. reflexivity. Qed.

Lemma total_map_add (c : Z) (l : list Z) :
  total (List.map (Z.add c) l) = c * Z.of_nat (List.length l) + total l.
Proof.
  induction l as [|x l IH]; [cbn; lia|].
  cbn [List.map List.length]. rewrite !total_cons, IH. lia.
Qed.

Lemma values_above_mean (l : list Z) (s : Z) :
  (forall p, In p l -> s < p * 64) ->
  l <> [] ->
  Z.of_nat (List.length l) * s < 64 * total l.
Proof.
  induction l as [|x l IH]; intros Hall Hne; [congruence|].
  rewrite total_cons. cbn [List.length].
  rewrite Nat2Z.inj_succ, Z.mul_succ_l.
  pose proof (Hall x (or_introl eq_refl)) as Hx.
  destruct l as [|y l].
  - change (total []) with 0.
    change (Z.of_nat (List.length (@nil Z))) with 0. lia.
  - assert (Z.of_nat (List.length (y :: l)) * s < 64 * total (y :: l)).
    { apply IH; [|discriminate]. intros p Hp. apply Hall. right. exact Hp. }
    lia.
Qed.

Lemma value_not_above_or_all_above (l : list Z) (s : Z) :
  (exists p, In p l /\ p * 64 <= s) \/ (forall p, In p l -> s < p * 64).
Proof.
  induction l as [|x l [[p [Hin Hp]]|IH]].
  - right. intros p [].
  - left. exists p. split; [right; exact Hin | exact Hp].
  - destruct (Z_le_gt_dec (x * 64) s) as [Hx|Hx].
    + left. exists x. split; [left; reflexivity | exact Hx].
    + right. intros p [<-|Hp]; [lia | apply IH; exact Hp].
Qed.

(** Not every value of a list of 64 lies above the average. *)
Lemma some_value_not_above_average (l : list Z) (s : Z) :
  (Z.of_nat (List.length l) * s >= 64 * total l) ->
  l <> [] ->
  exists p, In p l /\ p * 64 <= s.
Proof.
  intros Hs Hne.
  destruct (value_not_above_or_all_above l s) as [H|H]; [exact H|].
  pose proof (values_above_mean l s H Hne). lia.
Qed.

Lemma perceptualHash_shift (c : Z) (pixels pixels' : list Z) :
  List.length (Monitor.reds pixels) = 64%nat ->
  Monitor.reds pixels' = List.map (Z.add c) (Monitor.reds pixels) ->
  Monitor.perceptualHash pixels' = Monitor.perceptualHash pixels.
Proof.
  intros Hlen Hshift.
  rewrite !perceptualHash_bits, Hshift, total_map_add, Hlen, map_map.
  apply map_ext. intros p. unfold hash_bit.
  replace ((c + p) * 64 ?= c * Z.of_nat 64 + total (Monitor.reds pixels))
    with (p * 64 ?= total (Monitor.reds pixels)); [reflexivity|].
  destruct (Z.compare_spec (p * 64) (total (Monitor.reds pixels)));
    symmetry; [apply Z.compare_eq_iff | apply Z.compare_lt_iff
              | apply Z.compare_gt_iff]; lia.
Qed.

Lemma perceptualHash_length (pixels : list Z) :
  List.length (Monitor.perceptualHash pixels)
  = List.length (Monitor.reds pixels).
Proof. rewrite perceptualHash_bits. apply length_map. Qed.

(** X22: the average hash of an 8 by 8 frame has 64 characters and at
    least one ['0'], since not every pixel lies above the average; and
    it does not change when the same amount is added to every pixel: a
    change of brightness alone is not seen as a change of the frame. *)
Theorem perceptualHash_sees_no_brightness_shift (pixels : list Z) :
  List.length (Monitor.reds pixels) = 64%nat ->
  List.length (Monitor.perceptualHash pixels) = 64%nat /\
  In 48%N (Monitor.perceptualHash pixels) /\
  forall c pixels',
    Monitor.reds pixels' = List.map (Z.add c) (Monitor.reds pixels) ->
    Monitor.perceptualHash pixels' = Monitor.perceptualHash pixels.
Proof.
  intros Hlen.
  split; [rewrite perceptualHash_length; exact Hlen|]. split.
  - rewrite perceptualHash_bits.
    destruct (some_value_not_above_average
                (Monitor.reds pixels) (total (Monitor.reds pixels)))
      as [p [Hin Hp]].
    + rewrite Hlen. lia.
    + intros E. rewrite E in Hlen. discriminate.
    + apply in_map_iff. exists p. split; [|exact Hin].
      unfold hash_bit.
      destruct (Z.compare_spec (p * 64) (total (Monitor.reds pixels)));
        (reflexivity || lia).
  - intros c pixels' Hshift.
    apply (perceptualHash_shift c); assumption.
Qed.

Lemma perceptualHash_sees_no_brightness_shift_witness :
  In 48%N (Monitor.perceptualHash (repeat 200 256)).
Proof.
  exact (proj1 (proj2 (perceptualHash_sees_no_brightness_shift
                         (repeat 200 256) eq_refl))).
Defined.

(** ** Comparing hashes *)

Lemma same_comm (h1 h2 : jsstr) : Monitor.same h1 h2 = Monitor.same h2 h1.
Proof.
  revert h2. induction h1 as [|c r1 IH]; intros [|d r2]; cbn; try reflexivity.
  rewrite IH, (N.eqb_sym c d). reflexivity.
Qed.

Lemma same_bounds (h1 h2 : jsstr) :
  0 <= Monitor.same h1 h2 <= Z.of_nat (List.length h1).
Proof.
  revert h2. induction h1 as [|c r1 IH]; intros [|d r2]; cbn [Monitor.same];
    try (cbn; lia).
  specialize (IH r2). cbn [List.length]. destruct (c =? d)%N; lia.
Qed.

Lemma same_all_iff (h1 h2 : jsstr) :
  List.length h1 = List.length h2 ->
  (Monitor.same h1 h2 = Z.of_nat (List.length h1) <-> h1 = h2).
Proof.
  revert h2. induction h1 as [|c r1 IH]; intros [|d r2] Hlen;
    try discriminate.
  - split; reflexivity.
  - cbn [Monitor.same List.length]. injection Hlen as Hlen.
    pose proof (same_bounds r1 r2) as Hb. specialize (IH r2 Hlen).
    destruct (N.eqb_spec c d) as [->|Hne]; split.
    + intros H. f_equal. apply IH. lia.
    + intros H. injection H as H. apply IH in H. lia.
    + intros H. lia.
    + intros H. injection H as H1 H2. contradiction.
Qed.

(** X23: for two hashes of the same length, not empty,
    [hammingDistance] is a share between 0 and 1 that does not depend
    on the order of its arguments and is 1 exactly when the hashes are
    equal: despite its name it measures similarity. *)
Theorem hammingDistance_is_a_similarity (hash1 hash2 : jsstr) :
  List.length hash1 = List.length hash2 ->
  hash1 <> [] ->
  exists similarity,
    Monitor.hammingDistance hash1 hash2 = Some similarity /\
    Monitor.hammingDistance hash2 hash1 = Some similarity /\
    (0 <= similarity <= 1)%Q /\
    (similarity == 1 <-> hash1 = hash2)%Q.
Proof.
  intros Hlen Hne.
  destruct hash1 as [|c r1]; [congruence|].
  destruct hash2 as [|d r2]; [discriminate|].
  set (h1 := c :: r1) in *. set (h2 := d :: r2) in *.
  exists (inject_Z (Monitor.same h1 h2)
          / inject_Z (Z.of_nat (List.length h1)))%Q.
  assert (Hpos : (0 < inject_Z (Z.of_nat (List.length h1)))%Q).
  { change 0%Q with (inject_Z 0). rewrite <- Zlt_Qlt.
    subst h1. cbn [List.length]. lia. }
  pose proof (same_bounds h1 h2) as [Hlo Hhi].
  split; [reflexivity|]. split.
  { subst h1 h2. unfold Monitor.hammingDistance.
    rewrite (same_comm (d :: r2) (c :: r1)), <- Hlen. reflexivity. }
  split.
  - split.
    + apply Qle_shift_div_l; [exact Hpos|].
      rewrite Qmult_0_l. change 0%Q with (inject_Z 0).
      rewrite <- Zle_Qle. exact Hlo.
    + apply Qle_shift_div_r; [exact Hpos|].
      rewrite Qmult_1_l. rewrite <- Zle_Qle. exact Hhi.
  - rewrite <- (same_all_iff h1 h2 Hlen). split.
    + intros H.
      apply Qmult_inj_r with (z := inject_Z (Z.of_nat (List.length h1))) in H.
      * rewrite Qmult_1_l in H. apply inject_Z_injective.
        rewrite <- H. field. intros E. rewrite E in Hpos.
        apply (Qlt_irrefl 0). exact Hpos.
      * intros E. rewrite E in Hpos. apply (Qlt_irrefl 0). exact Hpos.
    + intros H. rewrite H. field.
      intros E. rewrite E in Hpos. apply (Qlt_irrefl 0). exact Hpos.
Qed.

Lemma hammingDistance_is_a_similarity_witness :
  exists similarity,
    Monitor.hammingDistance (js "1100") (js "1001") = Some similarity /\
    (similarity == 1 # 2)%Q.
Proof.
  destruct (hammingDistance_is_a_similarity (js "1100") (js "1001") eq_refl)
    as [similarity [H _]].
  - discriminate.
  - exists similarity. split; [exact H|].
    injection H as <-. reflexivity.
Defined.

(** ** Skipping unchanged frames *)

Lemma hammingDistance_of_64 (hash1 hash2 : jsstr) :
  List.length hash1 = 64%nat ->
  Monitor.hammingDistance hash1 hash2
  = Some (inject_Z (Monitor.same hash1 hash2) / inject_Z 64)%Q.
Proof.
  intros Hlen. destruct hash1 as [|c r]; [discriminate|].
  unfold Monitor.hammingDistance. rewrite Hlen. reflexivity.
Qed.

Lemma compare_share_with_threshold (s : Z) :
  Qcompare (inject_Z s / inject_Z 64) (85 # 100) = Z.compare (s * 100) 5440.
Proof.
  unfold Qcompare, Qdiv, Qmult, Qinv, inject_Z. cbn -[Z.mul].
  rewrite !Z.mul_1_r. reflexivity.
Qed.

Lemma checkFrame_of_64 (pixels : list Z) (previousHash : jsstr) :
  List.length (Monitor.reds pixels) = 64%nat ->
  previousHash <> [] ->
  Monitor.checkFrame pixels (Some previousHash)
  = if Monitor.same (Monitor.perceptualHash pixels) previousHash <=? 54
    then (Some (Monitor.perceptualHash pixels), true)
    else (Some previousHash, false).
Proof.
  intros Hlen Hne. destruct previousHash as [|c p]; [congruence|].
  unfold Monitor.checkFrame. cbv zeta.
  rewrite hammingDistance_of_64
    by (rewrite perceptualHash_length; exact Hlen).
  rewrite compare_share_with_threshold.
  set (s := Monitor.same (Monitor.perceptualHash pixels) (c :: p)).
  destruct (Z.compare_spec (s * 100) 5440) as [H|H|H];
    destruct (Z.leb_spec s 54); try reflexivity; lia.
Qed.

Lemma same_refl (h : jsstr) : Monitor.same h h = Z.of_nat (List.length h).
Proof.
  apply same_all_iff; reflexivity.
Qed.

(** X24: the first frame is always sent to OCR.  After that, a frame
    of the 8 by 8 canvas is sent, and its hash kept as the previous
    one, exactly when its hash agrees with the previous hash in at most
    54 of the 64 positions; with 55 or more the frame is skipped and
    the previous hash stays. *)
Theorem checkFrame_sends_changed_frames
  (pixels : list Z) (previousHash : jsstr) :
  List.length (Monitor.reds pixels) = 64%nat ->
  previousHash <> [] ->
  Monitor.checkFrame pixels None
  = (Some (Monitor.perceptualHash pixels), true) /\
  (Monitor.same (Monitor.perceptualHash pixels) previousHash <= 54 ->
   Monitor.checkFrame pixels (Some previousHash)
   = (Some (Monitor.perceptualHash pixels), true)) /\
  (55 <= Monitor.same (Monitor.perceptualHash pixels) previousHash ->
   Monitor.checkFrame pixels (Some previousHash)
   = (Some previousHash, false)).
Proof.
  intros Hlen Hne. split; [reflexivity|].
  rewrite (checkFrame_of_64 pixels previousHash Hlen Hne).
  split; intros H.
  - destruct (Z.leb_spec
                (Monitor.same (Monitor.perceptualHash pixels) previousHash)
                54); [reflexivity | lia].
  - destruct (Z.leb_spec
                (Monitor.same (Monitor.perceptualHash pixels) previousHash)
                54); [lia | reflexivity].
Qed.

Lemma checkFrame_sends_changed_frames_witness :
  Monitor.checkFrame (repeat 200 256) (Some (repeat 49%N 64))
  = (Some (repeat 48%N 64), true).
Proof.
  destruct (checkFrame_sends_changed_frames
              (repeat 200 256) (repeat 49%N 64) eq_refl)
    as [_ [H _]].
  - discriminate.
  - apply H. vm_compute. discriminate.
Defined.

(** X25: a frame that differs from the last frame sent only by the
    same amount added to every pixel is skipped: after a frame of the
    8 by 8 canvas was sent, a brighter or darker copy of it is not sent
    and the previous hash stays. *)
Theorem checkFrame_skips_brightness_shift (c : Z) (pixels pixels' : list Z) :
  List.length (Monitor.reds pixels) = 64%nat ->
  Monitor.reds pixels' = List.map (Z.add c) (Monitor.reds pixels) ->
  Monitor.checkFrame pixels'
    (fst (Monitor.checkFrame pixels None))
  = (Some (Monitor.perceptualHash pixels), false).
Proof.
  intros Hlen Hshift.
  assert (Hlen' : List.length (Monitor.reds pixels') = 64%nat).
  { rewrite Hshift, length_map. exact Hlen. }
  change (fst (Monitor.checkFrame pixels None))
    with (Some (Monitor.perceptualHash pixels)).
  rewrite checkFrame_of_64.
  - rewrite (perceptualHash_shift c pixels pixels' Hlen Hshift).
    rewrite same_refl, perceptualHash_length, Hlen. reflexivity.
  - exact Hlen'.
  - intros E. apply (f_equal (@List.length N)) in E.
    rewrite perceptualHash_length, Hlen in E. discriminate.
Qed.

Lemma checkFrame_skips_brightness_shift_witness :
  Monitor.checkFrame (List.map (Z.add 10) (List.map Z.of_nat (seq 0 256)))
    (fst (Monitor.checkFrame (List.map Z.of_nat (seq 0 256)) None))
  = (Some (Monitor.perceptualHash (List.map Z.of_nat (seq 0 256))), false).
Proof.
  apply (checkFrame_skips_brightness_shift 10); reflexivity.
Defined.

(** ** Sharpness *)

Lemma list_ind4 {A} (P : list A -> Prop) :
  P [] -> (forall a, P [a]) -> (forall a b, P [a; b]) ->
  (forall a b c, P [a; b; c]) ->
  (forall a b c d rest, P rest -> P (a :: b :: c :: d :: rest)) ->
  forall l, P l.
Proof.
  intros H0 H1 H2 H3 H4.
  assert (H : forall l, P l /\ (forall a, P (a :: l))
                        /\ (forall a b, P (a :: b :: l))
                        /\ (forall a b c, P (a :: b :: c :: l))).
  { induction l as [|x l [IH0 [IH1 [IH2 IH3]]]].
    - repeat split; auto.
    - repeat split; auto. }
  intros l. apply H.
Qed.

Lemma diffs_adjacent (data : list Z) :
  Monitor.diffs data = adjacent (Monitor.reds data).
Proof.
  induction data as [|a|a b|a b c|a b c d rest IH] using list_ind4;
    try reflexivity.
  cbn [Monitor.diffs Monitor.reds].
  destruct rest as [|next rest']; [reflexivity|].
  rewrite IH.
  destruct rest' as [|g [|b' [|a' rest'']]]; reflexivity.
Qed.

Lemma diffs_nil_iff (data : list Z) :
  Monitor.diffs data = [] <-> (List.length data <= 4)%nat.
Proof.
  destruct data as [|a [|b [|c [|d [|next rest]]]]]; cbn;
    try (split; [lia | reflexivity]).
  split; [discriminate | lia].
Qed.

Lemma diffs_bounded (data : list Z) :
  (forall v, In v data -> 0 <= v <= 255) ->
  forall x, In x (Monitor.diffs data) -> 0 <= x <= 255.
Proof.
  induction data as [|a|a b|a b c|a b c d rest IH] using list_ind4;
    intros Hall x Hx; try contradiction.
  cbn [Monitor.diffs] in Hx.
  destruct rest as [|next rest']; [contradiction|].
  destruct Hx as [<-|Hx].
  - pose proof (Hall a (or_introl eq_refl)).
    assert (0 <= next <= 255)
      by (apply Hall; do 4 right; left; reflexivity).
    lia.
  - apply IH; [|exact Hx].
    intros v Hv. apply Hall. do 4 right. exact Hv.
Qed.

Lemma total_bounded (l : list Z) (lo hi : Z) :
  (forall x, In x l -> lo <= x <= hi) ->
  lo * Z.of_nat (List.length l) <= total l <= hi * Z.of_nat (List.length l).
Proof.
  induction l as [|x l IH]; intros Hall.
  - change (total []) with 0. cbn [List.length]. lia.
  - rewrite total_cons. cbn [List.length]. rewrite Nat2Z.inj_succ.
    pose proof (Hall x (or_introl eq_refl)).
    assert (lo * Z.of_nat (List.length l) <= total l
            <= hi * Z.of_nat (List.length l))
      by (apply IH; intros y Hy; apply Hall; right; exact Hy).
    lia.
Qed.

Lemma mean_bounded (l : list Z) (lo hi : Z) :
  l <> [] ->
  (forall x, In x l -> lo <= x <= hi) ->
  (inject_Z lo
   <= inject_Z (total l) / inject_Z (Z.of_nat (List.length l))
   <= inject_Z hi)%Q.
Proof.
  intros Hne Hall. apply total_bounded in Hall.
  assert (Hn : 0 < Z.of_nat (List.length l)).
  { destruct l; [congruence | cbn [List.length]; lia]. }
  assert (Hpos : (0 < inject_Z (Z.of_nat (List.length l)))%Q).
  { change 0%Q with (inject_Z 0). rewrite <- Zlt_Qlt. exact Hn. }
  split.
  - apply Qle_shift_div_l; [exact Hpos|].
    rewrite <- inject_Z_mult, <- Zle_Qle. lia.
  - apply Qle_shift_div_r; [exact Hpos|].
    rewrite <- inject_Z_mult, <- Zle_Qle. lia.
Qed.

(** X26: [calculateSharpness] is not a number exactly when the data
    hold at most one pixel, so that no pair is compared.  It reads
    the red values only: data with the same red values have the same
    sharpness.  And on channel values between 0 and 255 the sharpness
    lies between 0 and 255. *)
Theorem calculateSharpness_range (data : list Z) :
  (Monitor.calculateSharpness data = None
   <-> (List.length data <= 4)%nat) /\
  (forall data',
      Monitor.reds data' = Monitor.reds data ->
      Monitor.calculateSharpness data' = Monitor.calculateSharpness data) /\
  ((forall v, In v data -> 0 <= v <= 255) ->
   forall sharpness,
     Monitor.calculateSharpness data = Some sharpness ->
     (0 <= sharpness <= 255)%Q).
Proof.
  split; [|split].
  - rewrite <- diffs_nil_iff. unfold Monitor.calculateSharpness.
    destruct (Monitor.diffs data); split; (reflexivity || discriminate).
  - intros data' Hreds. unfold Monitor.calculateSharpness.
    rewrite !diffs_adjacent, Hreds. reflexivity.
  - intros Hall sharpness. unfold Monitor.calculateSharpness.
    pose proof (diffs_bounded data Hall) as Hb.
    destruct (Monitor.diffs data) as [|x ds] eqn:E; [discriminate|].
    intros H. injection H as <-.
    apply (mean_bounded (x :: ds) 0 255); [discriminate | exact Hb].
Qed.

(** ** The contrast boost *)

Lemma round_half_even_Qeq (p q : Q) :
  (p == q)%Q -> round_half_even p = round_half_even q.
Proof.
  intros H. unfold round_half_even. cbv zeta.
  rewrite (Qfloor_comp _ _ H).
  assert (E : Qcompare (p - inject_Z (Qfloor q)) (1 # 2)
              = Qcompare (q - inject_Z (Qfloor q)) (1 # 2)).
  { apply Qcompare_comp; [rewrite H|]; reflexivity. }
  rewrite E. reflexivity.
Qed.

Lemma round_half_even_inject_Z (n : Z) : round_half_even (inject_Z n) = n.
Proof.
  unfold round_half_even. rewrite Qfloor_Z.
  replace (Qcompare (inject_Z n - inject_Z n) (1 # 2)) with Lt;
    [reflexivity|].
  symmetry. rewrite <- Qlt_alt. generalize (inject_Z n). intros x. lra.
Qed.

Lemma round_half_even_le (p q : Q) :
  (p <= q)%Q -> round_half_even p <= round_half_even q.
Proof.
  intros H. pose proof (Qfloor_resp_le _ _ H) as Hf.
  unfold round_half_even.
  pose proof (Qfloor_le p) as Hp1. pose proof (Qlt_floor p) as Hp2.
  pose proof (Qfloor_le q) as Hq1. pose proof (Qlt_floor q) as Hq2.
  rewrite inject_Z_plus in Hp2, Hq2.
  change (inject_Z 1) with 1%Q in *.
  destruct (Z.eq_dec (Qfloor p) (Qfloor q)) as [E|E].
  - rewrite E in *.
    destruct (Qcompare_spec (p - inject_Z (Qfloor q)) (1 # 2)) as [H1|H1|H1];
      destruct (Qcompare_spec (q - inject_Z (Qfloor q)) (1 # 2)) as [H2|H2|H2];
      try (destruct (Z.even (Qfloor q))); try lia;
      exfalso; generalize dependent (inject_Z (Qfloor q)); intros; lra.
  - assert (Qfloor p + 1 <= Qfloor q) by lia.
    destruct (Qcompare (p - inject_Z (Qfloor p)) (1 # 2));
      destruct (Qcompare (q - inject_Z (Qfloor q)) (1 # 2));
      try (destruct (Z.even (Qfloor p))); try (destruct (Z.even (Qfloor q)));
      lia.
Qed.

Lemma clamp_low (v : Q) : (v <= 0)%Q -> Qmin 255 (Qmax 0 v) = 0%Q.
Proof.
  intros H. unfold Qmax, GenericMinMax.gmax.
  destruct (Qcompare_spec 0 v) as [E|E|E]; try reflexivity.
  exfalso. lra.
Qed.

Lemma clamp_high (v : Q) : (255 <= v)%Q -> Qmin 255 (Qmax 0 v) = 255%Q.
Proof.
  intros H. unfold Qmax, GenericMinMax.gmax.
  destruct (Qcompare_spec 0 v) as [E|E|E]; try (exfalso; lra).
  unfold Qmin, GenericMinMax.gmin.
  destruct (Qcompare_spec 255 v) as [E'|E'|E']; try reflexivity.
  exfalso. lra.
Qed.

Lemma clamp_mid (v : Q) :
  (0 < v)%Q -> (v < 255)%Q -> Qmin 255 (Qmax 0 v) = v.
Proof.
  intros H0 H1. unfold Qmax, GenericMinMax.gmax.
  destruct (Qcompare_spec 0 v) as [E|E|E]; try (exfalso; lra).
  unfold Qmin, GenericMinMax.gmin.
  destruct (Qcompare_spec 255 v) as [E'|E'|E']; try (exfalso; lra).
  reflexivity.
Qed.

Lemma clamp_le (u v : Q) :
  (u <= v)%Q -> (Qmin 255 (Qmax 0 u) <= Qmin 255 (Qmax 0 v))%Q.
Proof.
  intros H. apply Q.min_le_compat_l. apply Q.max_le_compat_l. exact H.
Qed.

Section Rounding.

Variable fl : Q -> Q.
Hypothesis Hfl : Contrast.rounding fl.

Lemma fl_le (x y : Q) : (x <= y)%Q -> (fl x <= fl y)%Q.
Proof. apply Hfl. Qed.

Lemma fl_Qeq (x y : Q) : (x == y)%Q -> (fl x == fl y)%Q.
Proof.
  intros H. apply Qle_antisym; apply fl_le; rewrite H; apply Qle_refl.
Qed.

Lemma fl_dyadic (k : Z) (x : Q) :
  Z.abs k <= 2 ^ 52 ->
  (x == inject_Z k / inject_Z (2 ^ 20))%Q ->
  (fl x == x)%Q.
Proof.
  intros Hk Hx. rewrite (fl_Qeq _ _ Hx), Hx. apply Hfl. exact Hk.
Qed.

Lemma fl_int (n : Z) : Z.abs n <= 2 ^ 32 -> (fl (inject_Z n) == inject_Z n)%Q.
Proof.
  intros Hn. apply (fl_dyadic (n * 2 ^ 20)).
  - change (2 ^ 52) with (2 ^ 32 * 2 ^ 20). rewrite Z.abs_mul.
    change (Z.abs (2 ^ 20)) with (2 ^ 20). nia.
  - rewrite inject_Z_mult. field. discriminate.
Qed.

Lemma fl_le_int (x : Q) (n : Z) :
  Z.abs n <= 2 ^ 32 -> (x <= inject_Z n)%Q -> (fl x <= inject_Z n)%Q.
Proof.
  intros Hn Hx. rewrite <- (fl_int n Hn). apply fl_le. exact Hx.
Qed.

Lemma fl_ge_int (x : Q) (n : Z) :
  Z.abs n <= 2 ^ 32 -> (inject_Z n <= x)%Q -> (inject_Z n <= fl x)%Q.
Proof.
  intros Hn Hx. rewrite <- (fl_int n Hn). apply fl_le. exact Hx.
Qed.

Lemma fl_eq_int (x : Q) (n : Z) :
  Z.abs n <= 2 ^ 32 -> (x == inject_Z n)%Q -> (fl x == inject_Z n)%Q.
Proof.
  intros Hn Hx. rewrite (fl_Qeq _ _ Hx). apply fl_int. exact Hn.
Qed.

Ltac int_bound :=
  first [ apply fl_le_int | apply fl_ge_int ];
  [ vm_compute; discriminate | ].

Lemma contrast_bounds :
  (83 # 64 <= Contrast.contrast fl <= 167 # 128)%Q.
Proof.
  unfold Contrast.contrast. split.
  - rewrite <- (fl_dyadic 1359872 (83 # 64));
      [apply fl_le; lra | vm_compute; discriminate | reflexivity].
  - rewrite <- (fl_dyadic 1368064 (167 # 128));
      [apply fl_le; lra | vm_compute; discriminate | reflexivity].
Qed.

Lemma factor_le : (Contrast.factor fl <= -8)%Q.
Proof.
  pose proof contrast_bounds as [Hc1 Hc2].
  unfold Contrast.factor, Contrast.div.
  set (c := Contrast.contrast fl) in *.
  assert (Hm : (330 <= Contrast.mul fl c 255 <= 333)%Q).
  { unfold Contrast.mul. split.
    - change 330%Q with (inject_Z 330). int_bound.
      change (inject_Z 330) with 330%Q. lra.
    - change 333%Q with (inject_Z 333). int_bound.
      change (inject_Z 333) with 333%Q. lra. }
  set (m := Contrast.mul fl c 255) in *.
  assert (Ha : (585 <= Contrast.add fl m 255)%Q).
  { unfold Contrast.add. change 585%Q with (inject_Z 585). int_bound.
    change (inject_Z 585) with 585%Q. lra. }
  set (a := Contrast.add fl m 255) in *.
  assert (HN : (151515 <= Contrast.mul fl 259 a)%Q).
  { unfold Contrast.mul. change 151515%Q with (inject_Z 151515). int_bound.
    change (inject_Z 151515) with 151515%Q. lra. }
  assert (Hs : (-74 <= Contrast.sub fl 259 m <= -71)%Q).
  { unfold Contrast.sub. split.
    - change (-74)%Q with (inject_Z (-74)). int_bound.
      change (inject_Z (-74)) with (-74)%Q. lra.
    - change (-71)%Q with (inject_Z (-71)). int_bound.
      change (inject_Z (-71)) with (-71)%Q. lra. }
  set (s := Contrast.sub fl 259 m) in *.
  assert (HD : (-18870 <= Contrast.mul fl 255 s <= -18105)%Q).
  { unfold Contrast.mul. split.
    - change (-18870)%Q with (inject_Z (-18870)). int_bound.
      change (inject_Z (-18870)) with (-18870)%Q. lra.
    - change (-18105)%Q with (inject_Z (-18105)). int_bound.
      change (inject_Z (-18105)) with (-18105)%Q. lra. }
  generalize dependent (Contrast.mul fl 259 a).
  generalize dependent (Contrast.mul fl 255 s).
  intros D HD N HN.
  change (-8)%Q with (inject_Z (-8)). int_bound.
  change (inject_Z (-8)) with (-8)%Q.
  assert (E : (N / D == (- N) / (- D))%Q) by (field; lra).
  rewrite E. apply Qle_shift_div_r; lra.
Qed.

Lemma stored_le (u v : Q) :
  (u <= v)%Q ->
  Contrast.ToUint8Clamp (Qmin 255 (Qmax 0 u))
  <= Contrast.ToUint8Clamp (Qmin 255 (Qmax 0 v)).
Proof.
  intros H. unfold Contrast.ToUint8Clamp.
  apply round_half_even_le. do 2 apply clamp_le. exact H.
Qed.

Lemma boost_bright (d : Z) : 144 <= d -> Contrast.boost fl d = 0.
Proof.
  intros Hd. pose proof factor_le as Hf. unfold Contrast.boost.
  assert (Hx : (16 <= Contrast.sub fl (inject_Z d) 128)%Q).
  { unfold Contrast.sub. change 16%Q with (inject_Z 16). int_bound.
    change 128%Q with (inject_Z 128).
    unfold Qminus. rewrite <- inject_Z_opp, <- inject_Z_plus, <- Zle_Qle.
    lia. }
  generalize dependent (Contrast.sub fl (inject_Z d) 128).
  generalize dependent (Contrast.factor fl). intros f Hf x Hx.
  assert (Hm : (Contrast.mul fl f x <= -128)%Q).
  { unfold Contrast.mul. change (-128)%Q with (inject_Z (-128)). int_bound.
    change (inject_Z (-128)) with (-128)%Q. nra. }
  generalize dependent (Contrast.mul fl f x). intros m Hm.
  assert (Ha : (Contrast.add fl m 128 <= 0)%Q).
  { unfold Contrast.add. change 0%Q with (inject_Z 0). int_bound.
    change (inject_Z 0) with 0%Q. lra. }
  rewrite (clamp_low _ Ha). reflexivity.
Qed.

Lemma boost_dark (d : Z) : d <= 112 -> Contrast.boost fl d = 255.
Proof.
  intros Hd. pose proof factor_le as Hf. unfold Contrast.boost.
  assert (Hx : (Contrast.sub fl (inject_Z d) 128 <= -16)%Q).
  { unfold Contrast.sub. change (-16)%Q with (inject_Z (-16)). int_bound.
    change 128%Q with (inject_Z 128).
    unfold Qminus. rewrite <- inject_Z_opp, <- inject_Z_plus, <- Zle_Qle.
    lia. }
  generalize dependent (Contrast.sub fl (inject_Z d) 128).
  generalize dependent (Contrast.factor fl). intros f Hf x Hx.
  assert (Hm : (128 <= Contrast.mul fl f x)%Q).
  { unfold Contrast.mul. change 128%Q with (inject_Z 128). int_bound.
    change (inject_Z 128) with 128%Q. nra. }
  generalize dependent (Contrast.mul fl f x). intros m Hm.
  assert (Ha : (255 <= Contrast.add fl m 128)%Q).
  { unfold Contrast.add. change 255%Q with (inject_Z 255). int_bound.
    change (inject_Z 255) with 255%Q. lra. }
  rewrite (clamp_high _ Ha). reflexivity.
Qed.

Lemma boost_middle : Contrast.boost fl 128 = 128.
Proof.
  unfold Contrast.boost.
  assert (Hx : (Contrast.sub fl (inject_Z 128) 128 == 0)%Q).
  { unfold Contrast.sub. apply (fl_eq_int _ 0); [vm_compute; discriminate|].
    reflexivity. }
  set (x := Contrast.sub fl (inject_Z 128) 128) in *.
  assert (Hm : (Contrast.mul fl (Contrast.factor fl) x == 0)%Q).
  { unfold Contrast.mul. apply (fl_eq_int _ 0); [vm_compute; discriminate|].
    rewrite Hx. change (inject_Z 0) with 0%Q. ring. }
  set (m := Contrast.mul fl (Contrast.factor fl) x) in *.
  assert (Ha : (Contrast.add fl m 128 == 128)%Q).
  { unfold Contrast.add. apply (fl_eq_int _ 128); [vm_compute; discriminate|].
    rewrite Hm. reflexivity. }
  set (v := Contrast.add fl m 128) in *.
  rewrite (clamp_mid v) by (rewrite Ha; reflexivity).
  unfold Contrast.ToUint8Clamp.
  rewrite (clamp_mid v) by (rewrite Ha; reflexivity).
  rewrite (round_half_even_Qeq v 128 Ha). reflexivity.
Qed.

Lemma boost_antitone (d1 d2 : Z) :
  d1 <= d2 -> Contrast.boost fl d2 <= Contrast.boost fl d1.
Proof.
  intros Hd. pose proof factor_le as Hf. unfold Contrast.boost.
  apply stored_le. unfold Contrast.add. apply fl_le.
  apply Qplus_le_l. unfold Contrast.mul. apply fl_le.
  assert (Hx : (Contrast.sub fl (inject_Z d1) 128
                <= Contrast.sub fl (inject_Z d2) 128)%Q).
  { unfold Contrast.sub. apply fl_le. apply Qplus_le_l.
    rewrite <- Zle_Qle. exact Hd. }
  generalize dependent (Contrast.sub fl (inject_Z d1) 128).
  generalize dependent (Contrast.sub fl (inject_Z d2) 128).
  generalize dependent (Contrast.factor fl). intros f Hf x2 x1 Hx.
  nra.
Qed.

End Rounding.

Lemma identity_is_rounding : Contrast.rounding (fun x => x).
Proof.
  split; [intros x y H; exact H | intros k _; reflexivity].
Qed.

(** X27: with the contrast 1.3 the factor of the boost is negative,
    below -8, so the boost inverts the picture instead of keeping its
    polarity: whatever the rounding of the arithmetic, a gray value of
    144 or more is stored as 0 and one of 112 or less as 255, 128 stays
    128, and a brighter pixel never comes out brighter. *)
Theorem contrast_boost_inverts (fl : Q -> Q) :
  Contrast.rounding fl ->
  (Contrast.factor fl <= -8)%Q /\
  (forall d, 144 <= d -> Contrast.boost fl d = 0) /\
  (forall d, d <= 112 -> Contrast.boost fl d = 255) /\
  Contrast.boost fl 128 = 128 /\
  (forall d1 d2, d1 <= d2 -> Contrast.boost fl d2 <= Contrast.boost fl d1).
Proof.
  intros Hfl. split; [apply factor_le; exact Hfl|].
  split; [intros d; apply boost_bright; exact Hfl|].
  split; [intros d; apply boost_dark; exact Hfl|].
  split; [apply boost_middle; exact Hfl|].
  intros d1 d2. apply boost_antitone. exact Hfl.
Qed.

Lemma contrast_boost_inverts_witness :
  Contrast.boost (fun x => x) 200 = 0 /\
  Contrast.boost (fun x => x) 50 = 255.
Proof.
  destruct (contrast_boost_inverts (fun x => x) identity_is_rounding)
    as [_ [Hbright [Hdark _]]].
  split; [apply Hbright | apply Hdark]; lia.
Defined.

(** ** The WebSocket client *)

Lemma nodup_app_disjoint {A} (l1 l2 : list A) (x : A) :
  NoDup (l1 ++ l2) -> In x l1 -> In x l2 -> False.
Proof.
  induction l1 as [|a l1 IH]; intros Hnd H1 H2; [contradiction|].
  cbn in Hnd. inversion Hnd as [|? ? Hn Hnd0]. subst.
  destruct H1 as [->|H1].
  - apply Hn. apply in_or_app. right. exact H2.
  - exact (IH Hnd0 H1 H2).
Qed.

Section SocketClient.

Variable Callback : Type.

Lemma socket_delete_keys (id k : Z) (obj : list (Z * Callback)) :
  In k (List.map fst (Socket.delete Callback id obj))
  <-> In k (List.map fst obj) /\ k <> id.
Proof.
  unfold Socket.delete. rewrite !in_map_iff. split.
  - intros [[k' c] [E H]]. apply filter_In in H. destruct H as [H1 H2].
    cbn in *. subst k'. split; [exists (k, c); auto|].
    destruct (Z.eqb_spec k id); [discriminate | assumption].
  - intros [[[k' c] [E H]] Hne]. cbn in E. subst k'.
    exists (k, c). split; [reflexivity|]. apply filter_In. split; [exact H|].
    cbn. destruct (Z.eqb_spec k id); [contradiction | reflexivity].
Qed.

Lemma socket_set_keys (id k : Z) (c : Callback) (obj : list (Z * Callback)) :
  In k (List.map fst (Socket.set Callback id c obj))
  -> k = id \/ In k (List.map fst obj).
Proof.
  unfold Socket.set. cbn [List.map fst]. intros [H|H]; [left; auto|].
  right. apply socket_delete_keys in H. tauto.
Qed.

Lemma socket_get_key (id : Z) (obj : list (Z * Callback)) (c : Callback) :
  Socket.get Callback id obj = Some c -> In id (List.map fst obj).
Proof.
  unfold Socket.get. destruct (find _ obj) as [[k c']|] eqn:E; [|discriminate].
  intros _. apply find_some in E. destruct E as [Hin Hk]. cbn in Hk.
  apply Z.eqb_eq in Hk. subst k.
  apply in_map_iff. exists (id, c'). auto.
Qed.

Lemma socket_take (id : Z) (readers rest : list (Z * jsstr * Callback))
  (b : jsstr) (c : Callback) :
  Socket.take Callback id readers = Some (b, c, rest) ->
  Permutation (List.map (fun r => fst (fst r)) readers)
              (id :: List.map (fun r => fst (fst r)) rest).
Proof.
  revert rest. induction readers as [|[[i b'] c'] readers IH]; intros rest H;
    [discriminate|].
  cbn [Socket.take] in H. destruct (Z.eqb_spec i id) as [->|Hne].
  - injection H as _ _ <-. reflexivity.
  - destruct (Socket.take Callback id readers) as [[[b0 c0] rest0]|];
      [|discriminate].
    injection H as -> -> <-. cbn [List.map fst].
    rewrite (IH rest0 eq_refl). apply perm_swap.
Qed.

Lemma socket_processQueue (queue : list (Socket.Request * Callback))
  (out : list Socket.Request) (callbacks : list (Z * Callback)) :
  fst (Socket.processQueue Callback queue out callbacks)
  = out ++ List.map fst queue /\
  forall k,
    In k (List.map fst
            (snd (Socket.processQueue Callback queue out callbacks))) ->
    In k (List.map fst callbacks)
    \/ In k (List.map (fun q => Socket.request_id (fst q)) queue).
Proof.
  revert out callbacks. induction queue as [|[r c] queue IH];
    intros out callbacks; cbn [Socket.processQueue].
  - split; [cbn; rewrite app_nil_r; reflexivity | intros k H; left; exact H].
  - destruct (IH (out ++ [r])
                 (Socket.set Callback (Socket.request_id r) c callbacks))
      as [H1 H2].
    split.
    + rewrite H1, <- app_assoc. reflexivity.
    + intros k H. apply H2 in H. cbn [List.map fst].
      destruct H as [H|H]; [|right; right; exact H].
      apply socket_set_keys in H. destruct H as [->|H]; auto.
      right. left. reflexivity.
Qed.

Lemma socket_step_invariant (s : Socket.State Callback) (e : Socket.Event Callback) :
  Socket.invariant Callback s ->
  Socket.invariant Callback (Socket.step Callback s e).
Proof.
  intros (Hnd & Hlt & Hcb & Hcalled & Hnd' & Hfresh).
  destruct e as [base64 callback | id | | | id].
  - (* sendOCRRequest *)
    assert (Hperm : Permutation
                      (Socket.held Callback
                         (Socket.step Callback s
                            (Socket.sendOCRRequest base64 callback)))
                      (Socket.requestId Callback s :: Socket.held Callback s)).
    { unfold Socket.held. cbn. rewrite map_app. cbn.
      rewrite <- app_assoc. cbn. symmetry. apply Permutation_middle. }
    split; [|split; [|repeat split; assumption]].
    + apply (Permutation_NoDup (symmetry Hperm)). constructor; [|exact Hnd].
      intros H. apply Hlt in H. lia.
    + intros id H. apply (Permutation_in _ Hperm) in H. cbn [Socket.step
        Socket.requestId]. destruct H as [<-|H]; [lia|]. apply Hlt in H. lia.
  - (* onload *)
    cbn [Socket.step].
    destruct (Socket.take Callback id (Socket.reading Callback s))
      as [[[base64 callback] rest]|] eqn:Htake;
      [|repeat split; assumption].
    apply socket_take in Htake.
    destruct (Socket.open Callback s).
    + assert (Hperm : Permutation
                (Socket.held Callback s)
                (List.map (fun r => fst (fst r)) rest
                 ++ List.map (fun q => Socket.request_id (fst q))
                      (Socket.requestQueue Callback s)
                 ++ List.map Socket.request_id
                      (Socket.sent Callback s
                       ++ [{| Socket.request_id := id;
                              Socket.image := base64 |}]))).
      { unfold Socket.held. rewrite Htake, map_app. cbn.
        rewrite !app_assoc. apply Permutation_cons_append. }
      assert (Hnew : ~ In id (List.map Socket.request_id
                                (Socket.sent Callback s))).
      { intros H. unfold Socket.held in Hnd.
        rewrite Htake in Hnd. cbn in Hnd. inversion Hnd as [|? ? Hn _].
        apply Hn. apply in_or_app. right. apply in_or_app. right. exact H. }
      unfold Socket.invariant, Socket.held. cbn.
      split; [apply (Permutation_NoDup Hperm); exact Hnd|].
      split; [intros k H; apply Hlt;
              apply (Permutation_in _ (symmetry Hperm)); exact H|].
      split.
      { intros k [<-|H]; rewrite map_app, in_app_iff; cbn; [auto|].
        left. apply Hcb. apply socket_delete_keys in H. tauto. }
      split.
      { intros k H. rewrite map_app, in_app_iff. left. apply Hcalled, H. }
      split; [exact Hnd'|].
      intros k H [<-|H']; [apply Hnew, Hcalled, H|].
      apply socket_delete_keys in H'. apply (Hfresh k H). tauto.
    + assert (Hperm : Permutation
                (Socket.held Callback s)
                (List.map (fun r => fst (fst r)) rest
                 ++ List.map (fun q => Socket.request_id (fst q))
                      (Socket.requestQueue Callback s
                       ++ [({| Socket.request_id := id;
                               Socket.image := base64 |}, callback)])
                 ++ List.map Socket.request_id (Socket.sent Callback s))).
      { unfold Socket.held. rewrite Htake, map_app. cbn.
        rewrite <- !app_assoc. cbn.
        etransitivity; [apply Permutation_middle|].
        apply Permutation_app_head.
        etransitivity; [apply Permutation_middle|]. reflexivity. }
      unfold Socket.invariant, Socket.held. cbn.
      split; [apply (Permutation_NoDup Hperm); exact Hnd|].
      split; [intros k H; apply Hlt;
              apply (Permutation_in _ (symmetry Hperm)); exact H|].
      repeat split; assumption.
  - (* onopen *)
    cbn [Socket.step].
    destruct (socket_processQueue (Socket.requestQueue Callback s)
                (Socket.sent Callback s)
                (Socket.responseCallbacks Callback s)) as [Hout Hkeys].
    destruct (Socket.processQueue Callback (Socket.requestQueue Callback s)
                (Socket.sent Callback s)
                (Socket.responseCallbacks Callback s)) as [out callbacks].
    cbn [fst snd] in Hout, Hkeys. subst out.
    assert (Hmap : List.map Socket.request_id
                     (Socket.sent Callback s
                      ++ List.map fst (Socket.requestQueue Callback s))
                   = List.map Socket.request_id (Socket.sent Callback s)
                     ++ List.map (fun q => Socket.request_id (fst q))
                          (Socket.requestQueue Callback s)).
    { rewrite map_app, map_map. reflexivity. }
    assert (Hperm : Permutation
                (Socket.held Callback s)
                (List.map (fun r => fst (fst r)) (Socket.reading Callback s)
                 ++ List.map Socket.request_id
                      (Socket.sent Callback s
                       ++ List.map fst (Socket.requestQueue Callback s)))).
    { unfold Socket.held. rewrite Hmap. apply Permutation_app_head.
      apply Permutation_app_comm. }
    unfold Socket.invariant, Socket.held. cbn.
    split; [apply (Permutation_NoDup Hperm); exact Hnd|].
    split; [intros k H; apply Hlt;
            apply (Permutation_in _ (symmetry Hperm)); exact H|].
    split.
    { intros k H. rewrite Hmap, in_app_iff.
      apply Hkeys in H. destruct H as [H|H]; [left; apply Hcb, H | auto]. }
    split.
    { intros k H. rewrite Hmap, in_app_iff. left. apply Hcalled, H. }
    split; [exact Hnd'|].
    intros k H H'. apply Hkeys in H'. destruct H' as [H'|H'].
    + apply (Hfresh k H H').
    + apply Hcalled in H. unfold Socket.held in Hnd.
      apply NoDup_app_remove_l in Hnd.
      exact (nodup_app_disjoint _ _ k Hnd H' H).
  - (* onclose *)
    repeat split; assumption.
  - (* onmessage *)
    cbn [Socket.step].
    destruct (Socket.get Callback id (Socket.responseCallbacks Callback s))
      as [callback|] eqn:Hget; [|repeat split; assumption].
    apply socket_get_key in Hget.
    unfold Socket.invariant, Socket.held. cbn.
    split; [exact Hnd|]. split; [exact Hlt|].
    split.
    { intros k H. apply socket_delete_keys in H. apply Hcb. tauto. }
    split.
    { intros k H. rewrite map_app, in_app_iff in H. cbn in H.
      destruct H as [H|[<-|[]]]; [apply Hcalled, H | apply Hcb, Hget]. }
    split.
    { rewrite map_app. cbn.
      apply (Permutation_NoDup (Permutation_cons_append _ _)).
      constructor; [|exact Hnd'].
      intros H. apply (Hfresh id H Hget). }
    intros k H H'. apply socket_delete_keys in H'. destruct H' as [H' Hne].
    rewrite map_app, in_app_iff in H. cbn in H.
    destruct H as [H|[E|[]]]; [apply (Hfresh k H H') | congruence].
Qed.

Lemma socket_run_invariant
  (events : list (Socket.Event Callback)) (s : Socket.State Callback) :
  Socket.invariant Callback s ->
  Socket.invariant Callback (fold_left (Socket.step Callback) events s).
Proof.
  revert s. induction events as [|e events IH]; intros s H; [exact H|].
  cbn [fold_left]. apply IH, socket_step_invariant, H.
Qed.

Lemma socket_constructor_invariant :
  Socket.invariant Callback (Socket.constructor Callback).
Proof.
  unfold Socket.invariant, Socket.held. cbn.
  repeat split; try constructor; intros id [].
Qed.

(** X28: whatever happens to the client (requests, readers loading
    in any order, the socket opening and closing, responses, also
    repeated or for unknown ids), no request is sent twice, a callback
    is called at most once per request id, and only for a request that
    was sent. *)
Theorem socket_calls_back_once (events : list (Socket.Event Callback)) :
  NoDup (List.map (Socket.request_id)
           (Socket.sent Callback (Socket.run Callback events))) /\
  NoDup (List.map snd (Socket.called Callback (Socket.run Callback events))) /\
  forall id,
    In id (List.map snd (Socket.called Callback (Socket.run Callback events)))
    -> In id (List.map (Socket.request_id)
                (Socket.sent Callback (Socket.run Callback events))).
Proof.
  destruct (socket_run_invariant events _ socket_constructor_invariant)
    as (Hnd & _ & _ & Hcalled & Hnd' & _).
  fold (Socket.run Callback events) in *.
  split; [|split; assumption].
  unfold Socket.held in Hnd.
  apply NoDup_app_remove_l in Hnd. apply NoDup_app_remove_l in Hnd.
  exact Hnd.
Qed.

End SocketClient.
